(** * GCLQL query compiler: a shallow embedding of
      [backend/app/utils/gclql_query_parser_utils.py]

    The first part holds the definitions, in the order of the Python
    module: Python string primitives and the regular expressions the
    module uses, the exception type of [errors_utils.py], the Lark parse
    tree and a parser for the grammar text, the AST, [Field.to_sql] with
    its validation, the [SqlTranslator] object (explicit state passing),
    [AstTransformer], and [QueryParser] with [parse_query].  The second
    part holds the properties.

    Text is modelled as [string]: a sequence of characters whose code
    points are below 256 (ASCII and the Latin-1 supplement), one [ascii]
    per code point.  On that range the character classes and case
    mappings are those of Python's [str] and [re]: [str.strip] and [\s]
    take the Unicode spaces NEL and NO-BREAK SPACE, [\w] the letters and
    numbers of the supplement.  Python [int] is [Z]; [float] and
    [datetime] values, and the interpreter's limit on the digits of an
    integer text, are kept abstract in a [Runtime] record. *)

From Stdlib Require Import ZArith Ascii String List Lia.
From stdpp Require Import base option list gmap sets strings pretty sorting.

(** ** Python string primitives *)

Module PyStr.

Definition code (c : ascii) : N := N_of_ascii c.

(** [str.isspace] / [\s]: TAB, LF, VT, FF, CR, FS, GS, RS, US and SPACE
    and, past the ASCII range, NEL (U+0085) and NO-BREAK SPACE (U+00A0). *)
Definition isspace (c : ascii) : bool :=
  let n := code c in
  ((9 <=? n) && (n <=? 13) || (28 <=? n) && (n <=? 32)
   || (n =? 133) || (n =? 160))%N.

Definition isdigit (c : ascii) : bool :=
  let n := code c in ((48 <=? n) && (n <=? 57))%N.

(** The ASCII letters: [A-Z], [a-z], [a-zA-Z]. *)
Definition isupper (c : ascii) : bool :=
  let n := code c in ((65 <=? n) && (n <=? 90))%N.

Definition islower (c : ascii) : bool :=
  let n := code c in ((97 <=? n) && (n <=? 122))%N.

Definition isalpha (c : ascii) : bool := isupper c || islower c.

(** The letters and numbers of the Latin-1 supplement ([str.isalnum]):
    the ordinal indicators, the micro sign, the superscript digits, the
    vulgar fractions, and the letters from U+00C0 on except the
    multiplication and the division sign. *)
Definition isalnum_latin1 (c : ascii) : bool :=
  let n := code c in
  ((n =? 170) || (n =? 178) || (n =? 179) || (n =? 181) || (n =? 185)
   || (n =? 186) || (188 <=? n) && (n <=? 190)
   || (192 <=? n) && (n <=? 214) || (216 <=? n) && (n <=? 246)
   || (248 <=? n))%N.

(** [\w] of the [re] module on a [str] pattern: alphanumeric characters
    and the underscore. *)
Definition isword (c : ascii) : bool :=
  isalpha c || isdigit c || Ascii.eqb c "_" || isalnum_latin1 c.

Definition ishex (c : ascii) : bool :=
  let n := code c in
  isdigit c || ((65 <=? n) && (n <=? 70))%N || ((97 <=? n) && (n <=? 102))%N.

(** [str.lower] on one character: the capital letters of ASCII and of
    the Latin-1 supplement (U+00C0 to U+00DE without the multiplication
    sign) are 32 code points below their small letters. *)
Definition lower_char (c : ascii) : ascii :=
  let n := code c in
  if (isupper c
      || (192 <=? n) && (n <=? 214) || (216 <=? n) && (n <=? 222))%N
  then ascii_of_N (n + 32) else c.

(** [str.upper] on one character.  The micro sign, the sharp s and the
    y with diaeresis have their upper case outside the range (U+039C,
    the two letters SS, U+0178); they are left as they are.  The module
    upper-cases a text only to compare it with [AND], [OR], [NOT], [ASC]
    or [DESC] or after it has checked that its lower case is [asc] or
    [desc]; no such comparison depends on the three characters. *)
Definition upper_char (c : ascii) : ascii :=
  let n := code c in
  if (islower c
      || (224 <=? n) && (n <=? 246) || (248 <=? n) && (n <=? 254))%N
  then ascii_of_N (n - 32) else c.

Fixpoint map (f : ascii → ascii) (s : string) : string :=
  match s with
  | EmptyString => EmptyString
  | String c s' => String (f c) (map f s')
  end.

Definition lower : string → string := map lower_char.
Definition upper : string → string := map upper_char.

(** [s.lstrip()], [s.rstrip()], [s.strip()], generalised to a character
    predicate so that [s.strip(chars)] is covered too. *)
Fixpoint lstrip_by (p : ascii → bool) (s : string) : string :=
  match s with
  | EmptyString => EmptyString
  | String c s' => if p c then lstrip_by p s' else s
  end.

Fixpoint rstrip_by (p : ascii → bool) (s : string) : string :=
  match s with
  | EmptyString => EmptyString
  | String c s' =>
      match rstrip_by p s' with
      | EmptyString => if p c then EmptyString else String c EmptyString
      | r => String c r
      end
  end.

Definition strip_by (p : ascii → bool) (s : string) : string :=
  rstrip_by p (lstrip_by p s).

Definition strip : string → string := strip_by isspace.

(** The double quote character (code 34). *)
Definition dquote : ascii := "034"%char.
(** The single quote character (code 39). *)
Definition squote : ascii := "039"%char.

Definition is_quote (c : ascii) : bool :=
  Ascii.eqb c dquote || Ascii.eqb c squote.

(** [s.strip(chars)] where [chars] holds the two quote characters. *)
Definition strip_quotes : string → string := strip_by is_quote.

Definition startswith (s pre : string) : bool := String.prefix pre s.

Definition endswith (s suf : string) : bool :=
  let n := String.length s in
  let k := String.length suf in
  (k <=? n) && String.eqb (String.substring (n - k) k s) suf.

(** [s[-k:]] and [s[:-k]] for [k > 0]. *)
Definition last_n (k : nat) (s : string) : string :=
  let n := String.length s in String.substring (n - k) k s.

Definition drop_last_n (k : nat) (s : string) : string :=
  String.substring 0 (String.length s - k) s.

(** [sub in s] *)
Fixpoint contains (sub s : string) : bool :=
  String.prefix sub s ||
  match s with
  | EmptyString => false
  | String _ s' => contains sub s'
  end.

(** [sep.join(l)] *)
Definition join (sep : string) (l : list string) : string :=
  String.concat sep l.

(** [s.split(".")]: never returns the empty list. *)
Fixpoint split_char (d : ascii) (s : string) : list string :=
  match s with
  | EmptyString => [EmptyString]
  | String c s' =>
      if Ascii.eqb c d then EmptyString :: split_char d s'
      else match split_char d s' with
           | [] => [String c EmptyString]
           | w :: ws => String c w :: ws
           end
  end.

(** [s.split(".", 1)] *)
Fixpoint split_char_once (d : ascii) (s : string) : list string :=
  match s with
  | EmptyString => [EmptyString]
  | String c s' =>
      if Ascii.eqb c d then [EmptyString; s']
      else match split_char_once d s' with
           | [] => [String c EmptyString]
           | w :: ws => String c w :: ws
           end
  end.

Definition hex_digit (n : N) : ascii :=
  if (n <? 10)%N then ascii_of_N (48 + n) else ascii_of_N (87 + n).

(** [repr(s)] for a [str]: single quotes unless the text has a single
    quote and no double quote; the quote character and the backslash are
    escaped, TAB, LF and CR get their letter escapes, the other
    characters that are not printable (the control characters up to
    U+009F, NO-BREAK SPACE and SOFT HYPHEN) a [\xhh] escape. *)
Fixpoint repr_body (q : ascii) (s : string) : string :=
  match s with
  | EmptyString => EmptyString
  | String c s' =>
      let n := code c in
      let rest := repr_body q s' in
      if Ascii.eqb c q || Ascii.eqb c "\" then String "\" (String c rest)
      else if (n =? 9)%N then String "\" (String "t" rest)
      else if (n =? 10)%N then String "\" (String "n" rest)
      else if (n =? 13)%N then String "\" (String "r" rest)
      else if ((n <? 32) || (127 <=? n) && (n <=? 160) || (n =? 173))%N then
        String "\" (String "x" (String (hex_digit (n / 16))
                                  (String (hex_digit (n mod 16)) rest)))
      else String c rest
  end.

Definition repr (s : string) : string :=
  let q : ascii :=
    if contains (String squote EmptyString) s
       && negb (contains (String dquote EmptyString) s)
    then dquote else squote in
  String q (repr_body q s +:+ String q EmptyString).

(** [str(n)] for an [int]. *)
Definition str_int (z : Z) : string := pretty z.

(** The white space [int] skips around the number: TAB, LF, VT, FF, CR
    and SPACE, and the Unicode spaces NEL and NO-BREAK SPACE, which [int]
    turns into spaces first.  The separators FS, GS, RS and US, which
    [str.strip] removes, are not skipped. *)
Definition int_space (c : ascii) : bool :=
  let n := code c in
  ((9 <=? n) && (n <=? 13) || (n =? 32) || (n =? 133) || (n =? 160))%N.

Fixpoint count_digits (s : string) : nat :=
  match s with
  | EmptyString => 0
  | String c s' => (if isdigit c then 1 else 0) + count_digits s'
  end.

(** [int(s)] for a [str]: surrounding white space is ignored, one
    optional sign, then decimal digits in which single underscores may
    separate digits.  A text of more than [max_str_digits] digits is
    refused ([sys.get_int_max_str_digits()]; 0 is no limit, and texts of
    up to 640 digits are never refused).  [None] stands for
    [ValueError]. *)
Fixpoint int_digits (acc : Z) (prev_digit : bool) (s : string) : option Z :=
  match s with
  | EmptyString => if prev_digit then Some acc else None
  | String c s' =>
      if isdigit c then
        int_digits (10 * acc + Z.of_N (code c - 48)) true s'
      else if Ascii.eqb c "_" && prev_digit then
        match s' with
        | String d _ => if isdigit d then int_digits acc false s' else None
        | EmptyString => None
        end
      else None
  end.

Definition int_of_str (max_str_digits : nat) (s : string) : option Z :=
  let text := strip_by int_space s in
  let digits := count_digits text in
  if (640 <? digits) && (0 <? max_str_digits) && (max_str_digits <? digits)
  then None
  else
    match text with
    | String "+" r => int_digits 0 false r
    | String "-" r => Z.opp <$> int_digits 0 false r
    | r => int_digits 0 false r
    end.

End PyStr.

(** ** The regular expressions of the module

    Each function is the [re] call named in its comment, specialised to
    the pattern the source passes.  The patterns are simple enough that
    leftmost-greedy matching needs no backtracking: a greedy run it takes
    is always followed by a character outside the run's class. *)

Module PyRe.

(** Longest prefix of characters satisfying [p], and the rest. *)
Fixpoint span (p : ascii → bool) (s : string) : string * string :=
  match s with
  | EmptyString => (EmptyString, EmptyString)
  | String c s' =>
      if p c then let '(a, b) := span p s' in (String c a, b)
      else (EmptyString, s)
  end.

Definition not_quote (c : ascii) : bool := negb (PyStr.is_quote c).

(** [re.findall] with the pattern: a quote character, one or more
    characters that are no quote (the group), a quote character.

    [open] is [None] outside a candidate and [Some acc] after an opening
    quote, [acc] being the run read so far, reversed. *)
Fixpoint findall_quoted_go (open : option string) (s : string)
  : list string :=
  match s with
  | EmptyString => []
  | String c s' =>
      match open with
      | None =>
          if PyStr.is_quote c then findall_quoted_go (Some EmptyString) s'
          else findall_quoted_go None s'
      | Some acc =>
          if PyStr.is_quote c then
            match acc with
            | EmptyString => findall_quoted_go (Some EmptyString) s'
            | _ => String.rev acc :: findall_quoted_go None s'
            end
          else findall_quoted_go (Some (String c acc)) s'
      end
  end.

Definition findall_quoted : string → list string := findall_quoted_go None.

Definition is_keyword (w : string) : bool :=
  let u := PyStr.upper w in
  String.eqb u "AND" || String.eqb u "OR" || String.eqb u "NOT".

(** [re.sub] of the whole words AND, OR, NOT (any letter case) by one
    space.  [word] is the current run of word characters, reversed. *)
Fixpoint sub_keywords_go (word : string) (s : string) : string :=
  let flush (w : string) : string :=
    let w := String.rev w in
    if is_keyword w then " " else w in
  match s with
  | EmptyString => flush word
  | String c s' =>
      if PyStr.isword c then sub_keywords_go (String c word) s'
      else flush word +:+ String c (sub_keywords_go EmptyString s')
  end.

Definition sub_keywords : string → string := sub_keywords_go EmptyString.

(** What has to follow the word of a [field = 'text'] pair: optional
    white space, the equals sign, optional white space, a quote, any
    characters that are no quote, a quote.  Returns what is left after
    the closing quote. *)
Definition match_assignment_tail (s : string) : option string :=
  match snd (span PyStr.isspace s) with
  | String "=" s1 =>
      match snd (span PyStr.isspace s1) with
      | String q s2 =>
          if PyStr.is_quote q then
            match snd (span not_quote s2) with
            | String _ s3 => Some s3
            | EmptyString => None
            end
          else None
      | EmptyString => None
      end
  | _ => None
  end.

(** [re.sub] of the [field = 'text'] pairs by one space. *)
Fixpoint sub_assignments_go (fuel : nat) (s : string) : string :=
  match fuel with
  | 0 => s
  | S fuel =>
      match s with
      | EmptyString => EmptyString
      | String c s' =>
          if PyStr.isword c then
            let '(w, after) := span PyStr.isword s in
            match match_assignment_tail after with
            | Some rest => " " +:+ sub_assignments_go fuel rest
            | None => w +:+ sub_assignments_go fuel after
            end
          else String c (sub_assignments_go fuel s')
      end
  end.

Definition sub_assignments (s : string) : string :=
  sub_assignments_go (String.length s) s.

(** [re.sub] of every run of white space by one space. *)
Fixpoint sub_spaces_go (in_run : bool) (s : string) : string :=
  match s with
  | EmptyString => EmptyString
  | String c s' =>
      if PyStr.isspace c then
        if in_run then sub_spaces_go true s'
        else String " " (sub_spaces_go true s')
      else String c (sub_spaces_go false s')
  end.

Definition sub_spaces : string → string := sub_spaces_go false.

(** After a run of white space: the word AND in any letter case and at
    least one white space character; returns what follows. *)
Definition match_and_tail (s : string) : option string :=
  match s with
  | String a (String n (String d s')) =>
      if String.eqb (PyStr.upper (String a (String n (String d EmptyString))))
           "AND"
      then match span PyStr.isspace s' with
           | (EmptyString, _) => None
           | (_, rest) => Some rest
           end
      else None
  | _ => None
  end.

(** [re.split] on: white space, AND (any letter case), white space.
    [cur] is the current piece, reversed. *)
Fixpoint split_and_go (fuel : nat) (cur : string) (s : string)
  : list string :=
  match fuel with
  | 0 => [String.rev cur +:+ s]
  | S fuel =>
      match s with
      | EmptyString => [String.rev cur]
      | String c s' =>
          if PyStr.isspace c then
            let '(ws, after) := span PyStr.isspace s in
            match match_and_tail after with
            | Some rest =>
                String.rev cur :: split_and_go fuel EmptyString rest
            | None =>
                split_and_go fuel (String.rev_app ws cur) after
            end
          else split_and_go fuel (String c cur) s'
      end
  end.

Definition split_and (s : string) : list string :=
  split_and_go (String.length s) EmptyString s.

(** [UUID_PATTERN.match(text)]: groups of 8, 4, 4, 4 and 12 hexadecimal
    digits separated by dashes, and nothing else. *)
Fixpoint hex_run (n : nat) (s : string) : option string :=
  match n with
  | 0 => Some s
  | S n =>
      match s with
      | String c s' => if PyStr.ishex c then hex_run n s' else None
      | EmptyString => None
      end
  end.

Definition dash (s : option string) : option string :=
  match s with
  | Some (String "-" s') => Some s'
  | _ => None
  end.

Definition match_uuid (s : string) : bool :=
  match hex_run 8 s with
  | Some s1 =>
    match dash (Some s1) ≫= hex_run 4 with
    | Some s2 =>
      match dash (Some s2) ≫= hex_run 4 with
      | Some s3 =>
        match dash (Some s3) ≫= hex_run 4 with
        | Some s4 =>
          match dash (Some s4) ≫= hex_run 12 with
          | Some EmptyString => true
          | _ => false
          end
        | None => false
        end
      | None => false
      end
    | None => false
    end
  | None => false
  end.

End PyRe.

(** [is_uuid_format] *)
Definition is_uuid_format (value : string) : bool :=
  PyRe.match_uuid (PyStr.strip value).

(** ** Exceptions and results *)

(** The exceptions the module raises or lets through.
    [SearchValidationError] is the class of [errors_utils.py]; its
    constructor arguments are kept in the order of the attributes. *)
Inductive exn :=
| SearchValidationError
    (message error_type : string)
    (field_name operation user_message : option string)
| RuntimeError (msg : string)
| ValueError (msg : string)
| KeyError (key : string)
| IndexError
| OverflowError.

Inductive result (A : Type) :=
| Ok (a : A)
| Raise (e : exn).
Arguments Ok {A} a.
Arguments Raise {A} e.

Definition rbind {A B} (r : result A) (k : A → result B) : result B :=
  match r with
  | Ok a => k a
  | Raise e => Raise e
  end.

(** [result] is used through stdpp's monad notations:
    [x ← r; k] binds and [r;; k] sequences. *)
#[global] Instance result_ret : MRet result := @Ok.
#[global] Instance result_bind : MBind result :=
  fun A B k r => rbind r k.

Definition error_type_of (e : exn) : option string :=
  match e with
  | SearchValidationError _ t _ _ _ => Some t
  | _ => None
  end.

(** ** The Python runtime the module relies on

    [float] values and [datetime] values are produced and printed by the
    interpreter and by [datetime.strptime]; the compiler only passes them
    through.  They are kept abstract. *)

Inductive int_conv := IntOk | IntValueError | IntOverflowError.

Record Runtime := {
  pyfloat : Type;
  (** [float(text)] on a SIGNED_NUMBER token *)
  float_of_literal : string → pyfloat;
  (** [str(x)] *)
  float_str : pyfloat → string;
  (** how [int(x)] ends: inf overflows, nan is a ValueError *)
  float_to_int : pyfloat → int_conv;
  (** [sys.get_int_max_str_digits()]: 4300 unless configured, 0 for no
      limit *)
  int_max_str_digits : nat;
  datetime : Type;
  (** [datetime.strptime(text, fmt)], [None] for ValueError *)
  strptime : string → string → option datetime;
}.

(** ** The Lark parse tree

    The grammar gives trees of five shapes.  Rules marked [?] are inlined
    when they have one child, anonymous tokens (parentheses, the dot) are
    filtered out, and the named tokens AND, OR, NOT stay as the middle or
    first child, which is why the transformer reads children 0 and 2 of
    [expr] and [term] and child 1 of [factor]. *)

Inductive token_type :=
| QUOTED_STRING | UUID | SIGNED_NUMBER | IDENTIFIER | ASTERISK.

Record Token := { tok_type : token_type; tok_value : string }.

Inductive Tree :=
| tree_expr (lhs rhs : Tree)
| tree_term (lhs rhs : Tree)
| tree_factor (item : Tree)
| tree_comparison (field : list string) (op : string) (val : option Token)
| tree_global_search (tok : Token).

(** ** The parser object [Lark(QUERY_LANGUAGE_GRAMMAR, parser="lalr")]

    A recursive-descent reading of the grammar text of the source, with
    the lexing rules of Lark's contextual lexer: at each point only the
    terminals the grammar allows there are tried, the keywords AND, OR and
    NOT (priority 2) before the others, and a keyword is recognised as a
    prefix of the input, not as a whole word.  White space ([common.WS]:
    space, TAB, FF, CR, LF) is skipped between tokens.

    [QueryParser] takes its parser as a field ([self.parser]); most
    theorems below hold for any parser, and this one is the parser the
    examples and the theorem on placeholders use. *)

Module Lark.

Definition is_ws (c : ascii) : bool :=
  let n := PyStr.code c in
  ((n =? 32) || (n =? 9) || (n =? 12) || (n =? 13) || (n =? 10))%N.

Definition skip_ws (s : string) : string := snd (PyRe.span is_ws s).

(** A literal terminal: the input without it, when it starts with it. *)
Fixpoint literal (lit s : string) : option string :=
  match lit, s with
  | EmptyString, _ => Some s
  | String a lit', String b s' =>
      if Ascii.eqb a b then literal lit' s' else None
  | String _ _, EmptyString => None
  end.

Definition ident_start (c : ascii) : bool :=
  PyStr.isalpha c || Ascii.eqb c "_".

Definition ident_char (c : ascii) : bool :=
  PyStr.isalpha c || PyStr.isdigit c || Ascii.eqb c "_" || Ascii.eqb c "-".

(** IDENTIFIER: a letter or underscore, then letters, digits, underscores
    and dashes. *)
Definition identifier (s : string) : option (string * string) :=
  match s with
  | String c s' =>
      if ident_start c then
        let '(a, b) := PyRe.span ident_char s' in Some (String c a, b)
      else None
  | EmptyString => None
  end.

(** QUOTED_STRING: a quote, characters other than that quote, the same
    quote.  The token text keeps both quotes. *)
Definition quoted_string (s : string) : option (string * string) :=
  match s with
  | String q s' =>
      if PyStr.is_quote q then
        match PyRe.span (fun c => negb (Ascii.eqb c q)) s' with
        | (body, String _ rest) =>
            Some (String q (body +:+ String q EmptyString), rest)
        | (_, EmptyString) => None
        end
      else None
  | EmptyString => None
  end.

Definition is_sign (c : ascii) : bool := Ascii.eqb c "+" || Ascii.eqb c "-".

(** The exponent of [common.FLOAT]: e or E, an optional sign, digits. *)
Definition exponent (s : string) : option (string * string) :=
  match s with
  | String e s1 =>
      if Ascii.eqb e "e" || Ascii.eqb e "E" then
        let '(sign, s2) :=
          match s1 with
          | String c s2 =>
              if is_sign c then (String c EmptyString, s2)
              else (EmptyString, s1)
          | EmptyString => (EmptyString, s1)
          end in
        match PyRe.span PyStr.isdigit s2 with
        | (EmptyString, _) => None
        | (ds, rest) => Some (String e (sign +:+ ds), rest)
        end
      else None
  | EmptyString => None
  end.

Definition with_exponent (text rest : string) : string * string :=
  match exponent rest with
  | Some (e, rest') => (text +:+ e, rest')
  | None => (text, rest)
  end.

(** [common.NUMBER]: digits with an exponent, or a decimal with an
    optional exponent, or digits. *)
Definition number (s : string) : option (string * string) :=
  match PyRe.span PyStr.isdigit s with
  | (EmptyString, String "." s1) =>
      match PyRe.span PyStr.isdigit s1 with
      | (EmptyString, _) => None
      | (d2, rest) => Some (with_exponent ("." +:+ d2) rest)
      end
  | (EmptyString, _) => None
  | (d1, rest) =>
      match exponent rest with
      | Some (e, rest') => Some (d1 +:+ e, rest')
      | None =>
          match rest with
          | String "." s1 =>
              let '(d2, rest') := PyRe.span PyStr.isdigit s1 in
              Some (with_exponent (d1 +:+ "." +:+ d2) rest')
          | _ => Some (d1, rest)
          end
      end
  end.

(** [common.SIGNED_NUMBER] *)
Definition signed_number (s : string) : option (string * string) :=
  match s with
  | String c s' =>
      if is_sign c then
        '(text, rest) ← number s'; Some (String c text, rest)
      else number s
  | EmptyString => None
  end.

(** UUID: it comes after IDENTIFIER and SIGNED_NUMBER in the lexer's
    order, which take every text starting with a letter or a digit. *)
Definition uuid (s : string) : option (string * string) :=
  s1 ← PyRe.hex_run 8 s;
  s2 ← PyRe.dash (Some s1) ≫= PyRe.hex_run 4;
  s3 ← PyRe.dash (Some s2) ≫= PyRe.hex_run 4;
  s4 ← PyRe.dash (Some s3) ≫= PyRe.hex_run 4;
  s5 ← PyRe.dash (Some s4) ≫= PyRe.hex_run 12;
  Some (String.substring 0 36 s, s5).

(** OP: the two-character operators are tried before the others. *)
Definition operators : list string :=
  ["!="; ">="; "<="; "!:"; "=~"; "!~"; "="; ">"; "<"; ":"; "#"].

Fixpoint first_literal (lits : list string) (s : string)
  : option (string * string) :=
  match lits with
  | [] => None
  | lit :: lits' =>
      match literal lit s with
      | Some rest => Some (lit, rest)
      | None => first_literal lits' s
      end
  end.

Definition operator : string → option (string * string) :=
  first_literal operators.

Definition token (type : token_type) (r : option (string * string))
  : option (Token * string) :=
  '(text, rest) ← r; Some ({| tok_type := type; tok_value := text |}, rest).

(** The terminals of [simple_value], in the lexer's order. *)
Definition simple_token (s : string) : option (Token * string) :=
  match token IDENTIFIER (identifier s) with
  | Some r => Some r
  | None =>
  match token QUOTED_STRING (quoted_string s) with
  | Some r => Some r
  | None =>
  match token SIGNED_NUMBER (signed_number s) with
  | Some r => Some r
  | None =>
  match token UUID (uuid s) with
  | Some r => Some r
  | None => token ASTERISK (first_literal ["*"] s)
  end end end end.

(** [("." IDENTIFIER)*] followed by OP. *)
Fixpoint field_tail (fuel : nat) (s : string)
  : option (list string * string * string) :=
  match fuel with
  | 0 => None
  | S fuel =>
      let s := skip_ws s in
      match literal "." s with
      | Some s1 =>
          '(part, s2) ← identifier (skip_ws s1);
          '(more, op, rest) ← field_tail fuel s2;
          Some (part :: more, op, rest)
      | None =>
          '(op, rest) ← operator s; Some ([], op, rest)
      end
  end.

(** [value?] after OP: AND and OR come first in the lexer's order, so a
    text starting with one of them is no value. *)
Definition optional_value (s : string) : option Token * string :=
  let s := skip_ws s in
  match literal "AND" s, literal "OR" s with
  | None, None =>
      match simple_token s with
      | Some (tok, rest) => (Some tok, rest)
      | None => (None, s)
      end
  | _, _ => (None, s)
  end.

(** [comparison | global_search], the items that are no parenthesis. *)
Definition atom (s : string) : option (Tree * string) :=
  '(tok, rest) ← simple_token s;
  match tok_type tok with
  | IDENTIFIER =>
      match field_tail (S (String.length rest)) rest with
      | Some (more, op, rest') =>
          let '(val, rest'') := optional_value rest' in
          Some (tree_comparison (tok_value tok :: more) op val, rest'')
      | None =>
          match literal "." (skip_ws rest) with
          | Some _ => None
          | None => Some (tree_global_search tok, rest)
          end
      end
  | _ => Some (tree_global_search tok, rest)
  end.

Fixpoint expr (fuel : nat) (s : string) {struct fuel}
  : option (Tree * string) :=
  match fuel with
  | 0 => None
  | S fuel => '(lhs, rest) ← term fuel s; expr_rest fuel lhs rest
  end
with expr_rest (fuel : nat) (lhs : Tree) (s : string) {struct fuel}
  : option (Tree * string) :=
  match fuel with
  | 0 => None
  | S fuel =>
      match literal "OR" (skip_ws s) with
      | Some s1 =>
          '(rhs, rest) ← term fuel s1; expr_rest fuel (tree_expr lhs rhs) rest
      | None => Some (lhs, s)
      end
  end
with term (fuel : nat) (s : string) {struct fuel}
  : option (Tree * string) :=
  match fuel with
  | 0 => None
  | S fuel => '(lhs, rest) ← factor fuel s; term_rest fuel lhs rest
  end
with term_rest (fuel : nat) (lhs : Tree) (s : string) {struct fuel}
  : option (Tree * string) :=
  match fuel with
  | 0 => None
  | S fuel =>
      match literal "AND" (skip_ws s) with
      | Some s1 =>
          '(rhs, rest) ← factor fuel s1; term_rest fuel (tree_term lhs rhs) rest
      | None => Some (lhs, s)
      end
  end
with factor (fuel : nat) (s : string) {struct fuel}
  : option (Tree * string) :=
  match fuel with
  | 0 => None
  | S fuel =>
      match literal "NOT" (skip_ws s) with
      | Some s1 => '(t, rest) ← item fuel s1; Some (tree_factor t, rest)
      | None => item fuel s
      end
  end
with item (fuel : nat) (s : string) {struct fuel}
  : option (Tree * string) :=
  match fuel with
  | 0 => None
  | S fuel =>
      let s := skip_ws s in
      match literal "(" s with
      | Some s1 =>
          '(t, rest) ← expr fuel s1;
          rest' ← literal ")" (skip_ws rest);
          Some (t, rest')
      | None => atom s
      end
  end.

(** [parser.parse(text)]; [None] is a [LarkError]. *)
Definition parse (text : string) : option Tree :=
  '(t, rest) ← expr (8 * String.length text + 8) text;
  match skip_ws rest with
  | EmptyString => Some t
  | _ => None
  end.

End Lark.

Section Gclql.

Context {rt : Runtime}.

(** ** Values, fields and AST nodes *)

(** What the transformer's [value] rule can return: [int], [float] or
    [str].  A missing value is [None] at the use sites. *)
Inductive value :=
| VInt (z : Z)
| VFloat (x : pyfloat rt)
| VStr (s : string).

(** Elements of the parameter list handed to the database driver. *)
Inductive param :=
| PNone
| PInt (z : Z)
| PFloat (x : pyfloat rt)
| PStr (s : string)
| PDateTime (d : datetime rt).

Definition param_of_value (v : option value) : param :=
  match v with
  | None => PNone
  | Some (VInt z) => PInt z
  | Some (VFloat x) => PFloat x
  | Some (VStr s) => PStr s
  end.

(** [str(value)] as used by the f-strings. *)
Definition str_value (v : option value) : string :=
  match v with
  | None => "None"
  | Some (VInt z) => PyStr.str_int z
  | Some (VFloat x) => float_str rt x
  | Some (VStr s) => s
  end.

(** [type(value).__name__] *)
Definition type_name (v : value) : string :=
  match v with
  | VInt _ => "int"
  | VFloat _ => "float"
  | VStr _ => "str"
  end.

(** [isinstance(value, int | float)] *)
Definition is_number (v : option value) : bool :=
  match v with
  | Some (VInt _) | Some (VFloat _) => true
  | _ => false
  end.

(** [isinstance(value, str)] *)
Definition is_str (v : option value) : bool :=
  match v with
  | Some (VStr _) => true
  | _ => false
  end.

(** [isinstance(value, int)] *)
Definition is_int (v : option value) : bool :=
  match v with
  | Some (VInt _) => true
  | _ => false
  end.

(** [value == text] *)
Definition value_eq_str (v : option value) (t : string) : bool :=
  match v with
  | Some (VStr s) => String.eqb s t
  | _ => false
  end.

Record Field := { parts : list string }.

Inductive AstNode :=
| Comparison (field : Field) (op : string) (val : option value)
| GlobalSearch (text : string) (is_quoted : bool)
| And (left right : AstNode)
| Or (left right : AstNode)
| Not (term : AstNode).

(** [op in (...)] for an operator that may be [None]. *)
Definition op_in (op : option string) (l : list string) : bool :=
  match op with
  | None => false
  | Some o => existsb (String.eqb o) l
  end.

Definition ordering_ops : list string := [">"; "<"; ">="; "<="].
Definition value_comparison_ops : list string := ["="; "!="; ">"; "<"; ">="; "<="].
Definition numeric_cast_ops : list string :=
  ["="; "!="; ">"; "<"; ">="; "<="; ":"].

(** Truth value of an optional string: [None] and the empty text are
    falsy. *)
Definition truthy (o : option string) : bool :=
  match o with
  | None | Some EmptyString => false
  | Some _ => true
  end.

(** [field in fields], with [fields] a set of names. *)
Definition mem (x : string) (s : gset string) : bool := bool_decide (x ∈ s).

(** ** Field resolution: [Field.to_sql] *)

Definition _validate_metadata_operation
    (op : option string) (val : option value) (field_name : string)
  : result unit :=
  if negb (truthy op) then Ok tt
  else if op_in op ["<"; ">"; "<="; ">="] && is_str val then
    let o := default "" op in
    Raise (SearchValidationError
      ("String comparison with operator '" +:+ o +:+
       "' is not supported for metadata field '" +:+ field_name +:+ "'")
      "invalid_operation"
      (Some field_name)
      op
      (Some ("Cannot use '" +:+ o +:+
             "' to compare text values in field '" +:+ field_name +:+
             "'. Use '=' for exact match, ':' for contains, or '=~' for regex patterns.")))
  else Ok tt.

Definition _validate_operation_compatibility
    (field_name : string) (op : option string) (val : option value)
    (available_metadata_fields string_fields id_fields : gset string)
  : result unit :=
  match val with
  | None => Ok tt
  | Some v =>
    if negb (truthy op) then Ok tt else
    let o := default "" op in
    let is_metadata_field :=
      mem field_name available_metadata_fields
      || String.eqb field_name "metadata" in
    (* string fields *)
    (if mem field_name string_fields && negb is_metadata_field then
       if op_in op ordering_ops && is_number val then
         Raise (SearchValidationError
           ("Cannot use numeric comparison operator '" +:+ o +:+
            "' with string field '" +:+ field_name +:+ "'")
           "invalid_operation"
           (Some field_name)
           op
           (Some ("The field '" +:+ field_name +:+
                  "' contains text values and cannot be compared using '" +:+ o +:+
                  "'. Use '=' for exact match, ':' for contains, or '=~' for pattern matching.")))
       else if op_in op ordering_ops && is_str val then
         Raise (SearchValidationError
           ("String comparison operator '" +:+ o +:+
            "' is not supported for field '" +:+ field_name +:+ "'")
           "invalid_operation"
           (Some field_name)
           op
           (Some ("Cannot compare text values in '" +:+ field_name +:+
                  "' using '" +:+ o +:+
                  "'. Use '=' for exact match, ':' for contains, or '=~' for pattern matching.")))
       else Ok tt
     else Ok tt);;
    (* id fields *)
    (if mem field_name id_fields || PyStr.endswith field_name "_id" then
       if negb (is_int val) && op_in op value_comparison_ops then
         let not_an_int :=
           Raise (SearchValidationError
             ("Field '" +:+ field_name +:+ "' expects integer values, got '" +:+
              str_value val +:+ "' (" +:+ type_name v +:+ ")")
             "invalid_operation"
             (Some field_name)
             op
             (Some ("The field '" +:+ field_name +:+
                    "' expects numeric ID values. Please provide an integer value instead of '" +:+
                    str_value val +:+ "'."))) in
         match v with
         | VInt _ => Ok tt
         | VStr s =>
             match PyStr.int_of_str (int_max_str_digits rt) s with
             | Some _ => Ok tt
             | None => not_an_int
             end
         | VFloat x =>
             match float_to_int rt x with
             | IntOk => Ok tt
             | IntValueError => not_an_int
             | IntOverflowError => Raise OverflowError
             end
         end
       else Ok tt
     else Ok tt);;
    (* metadata fields *)
    if is_metadata_field then _validate_metadata_operation op val field_name
    else Ok tt
  end.

(** The lookup key: the first segment without one trailing [_name]. *)
Definition base_field_of (first : string) : string :=
  if String.eqb (PyStr.last_n 5 first) "_name"
  then PyStr.drop_last_n 5 first
  else first.

Definition quoted_part (part : string) : string := "'" +:+ part +:+ "'".

(** [col->'k1'->...->>'kn'] for a non-empty path; a one-element path has
    no [->] step. *)
Definition json_path_sql (column : string) (path : list string) : string :=
  match path with
  | [p] => column +:+ "->>'" +:+ p +:+ "'"
  | _ =>
      column +:+ "->" +:+ PyStr.join "->" (quoted_part <$> removelast path)
      +:+ "->>'" +:+ List.last path "" +:+ "'"
  end.

Definition numeric_cast (val : option value) (op : option string) : bool :=
  is_number val && op_in op numeric_cast_ops.

Definition sorted_names (l : list string) : list string :=
  merge_sort String.le l.

Definition invalid_field_error
    (f : Field) (schema_mapping : gmap string string)
    (available_metadata_fields : gset string) : exn :=
  let available_fields :=
    (map_to_list schema_mapping).*1 ++ elements available_metadata_fields in
  let field_path := PyStr.join "." (parts f) in
  SearchValidationError
    ("Field '" +:+ field_path +:+
     "' does not exist in the database schema or metadata")
    "invalid_field"
    (Some field_path)
    None
    (Some ("The field '" +:+ field_path +:+
           "' is not available for searching. Available fields include: " +:+
           PyStr.join ", " (take 10 (sorted_names available_fields)) +:+
           (if 10 <? length available_fields then "..." else ""))).

Definition to_sql
    (f : Field) (schema_mapping : gmap string string)
    (val : option value) (op : option string)
    (available_metadata_fields string_fields id_fields entity_fields
       : gset string)
  : result string :=
  match parts f with
  | [] => Raise IndexError
  | first :: rest =>
    let base_field := base_field_of first in
    let sql_column := schema_mapping !! base_field in
    (_validate_operation_compatibility
       base_field op val available_metadata_fields string_fields id_fields;;
     (* inl: the auto-detected metadata expression, returned at once;
        inr: the column the rest of the method works with *)
     col ← (if truthy sql_column then Ok (inr (default "" sql_column))
            else if mem base_field entity_fields then
              Ok (inr ("d." +:+ base_field +:+ "_id"))
            else if mem base_field available_metadata_fields then
              let metadata_column := default "d.metadata" (schema_mapping !! "metadata") in
              let json_field := json_path_sql metadata_column (parts f) in
              Ok (inl (if numeric_cast val op
                       then "(" +:+ json_field +:+ ")::numeric"
                       else json_field))
            else Raise (invalid_field_error f schema_mapping available_metadata_fields));
     match col with
     | inl json_field => Ok json_field
     | inr sql_column =>
         if String.eqb base_field "metadata" && (1 <? length (parts f)) then
           let json_field := json_path_sql sql_column rest in
           if numeric_cast val op
           then Ok ("(" +:+ json_field +:+ ")::numeric")
           else Ok json_field
         else Ok sql_column
     end)
  end.

(** ** [parse_date_string] *)

Definition date_formats : list string :=
  ["%Y-%m-%d"; "%Y-%m-%d %H:%M:%S"; "%Y-%m-%dT%H:%M:%S";
   "%Y-%m-%d %H:%M"; "%Y-%m-%dT%H:%M"].

Fixpoint first_format (date_str : string) (formats : list string)
  : option (datetime rt) :=
  match formats with
  | [] => None
  | fmt :: formats' =>
      match strptime rt date_str fmt with
      | Some d => Some d
      | None => first_format date_str formats'
      end
  end.

Definition parse_date_string (date_str : string) : result (datetime rt) :=
  let date_str := PyStr.strip_quotes date_str in
  match first_format date_str date_formats with
  | Some d => Ok d
  | None => Raise (ValueError ("Unable to parse date string: " +:+ date_str))
  end.

(** ** The [SqlTranslator] object

    The object is threaded explicitly: every method takes the translator
    and returns it, also when it raises, since the mutation of [params]
    and [param_index] done before the exception stays. *)

Record SqlTranslator := {
  t_schema_mapping : gmap string string;
  t_global_search_fields : list string;
  t_available_metadata_fields : gset string;
  t_string_fields : gset string;
  t_id_fields : gset string;
  t_entity_fields : gset string;
  t_params : list param;
  t_param_index : Z;
}.

(** [SqlTranslator.__init__] *)
Definition SqlTranslator_init : SqlTranslator :=
  {| t_schema_mapping := ∅;
     t_global_search_fields := [];
     t_available_metadata_fields := ∅;
     t_string_fields := ∅;
     t_id_fields := ∅;
     t_entity_fields := ∅;
     t_params := [];
     t_param_index := 0 |}.

Definition reset
    (t : SqlTranslator)
    (schema_mapping : gmap string string)
    (global_search_fields : option (list string))
    (available_metadata_fields string_fields id_fields entity_fields
       : option (gset string))
  : SqlTranslator :=
  {| t_schema_mapping := schema_mapping;
     t_global_search_fields :=
       default (t_global_search_fields t) global_search_fields;
     t_available_metadata_fields :=
       default (t_available_metadata_fields t) available_metadata_fields;
     t_string_fields := default (t_string_fields t) string_fields;
     t_id_fields := default (t_id_fields t) id_fields;
     t_entity_fields := default (t_entity_fields t) entity_fields;
     t_params := [];
     t_param_index := 0 |}.

(** [self.param_index += k] *)
Definition add_index (k : Z) (t : SqlTranslator) : SqlTranslator :=
  {| t_schema_mapping := t_schema_mapping t;
     t_global_search_fields := t_global_search_fields t;
     t_available_metadata_fields := t_available_metadata_fields t;
     t_string_fields := t_string_fields t;
     t_id_fields := t_id_fields t;
     t_entity_fields := t_entity_fields t;
     t_params := t_params t;
     t_param_index := (t_param_index t + k)%Z |}.

(** [self.params.append(p)] *)
Definition append_param (p : param) (t : SqlTranslator) : SqlTranslator :=
  {| t_schema_mapping := t_schema_mapping t;
     t_global_search_fields := t_global_search_fields t;
     t_available_metadata_fields := t_available_metadata_fields t;
     t_string_fields := t_string_fields t;
     t_id_fields := t_id_fields t;
     t_entity_fields := t_entity_fields t;
     t_params := t_params t ++ [p];
     t_param_index := t_param_index t |}.

(** [f"${self.param_index}"] *)
Definition placeholder_of (index : Z) : string := "$" +:+ PyStr.str_int index.

Definition _translate_field_exists
    (t : SqlTranslator) (field : Field) (sql_field : string)
  : result string * SqlTranslator :=
  match parts field with
  | [] => (Raise IndexError, t)
  | first :: rest =>
      if String.eqb first "metadata" && (1 <? length (parts field))
         || mem first (t_available_metadata_fields t)
      then
        let json_path :=
          if mem first (t_available_metadata_fields t) then parts field
          else rest in
        match json_path with
        | [key] =>
            let t := add_index 1 t in
            let placeholder := placeholder_of (t_param_index t) in
            let t := append_param (PStr key) t in
            (Ok ("d.metadata ? " +:+ placeholder), t)
        | _ =>
            let path_expression := PyStr.join "." json_path in
            let t := add_index 1 t in
            let placeholder := placeholder_of (t_param_index t) in
            let t := append_param (PStr ("$." +:+ path_expression)) t in
            (Ok ("jsonb_path_exists(d.metadata, " +:+ placeholder +:+ ")"), t)
        end
      else (Ok (sql_field +:+ " IS NOT NULL"), t)
  end.

Definition _translate_field_not_exists
    (t : SqlTranslator) (field : Field) (sql_field : string)
  : result string * SqlTranslator :=
  match parts field with
  | [] => (Raise IndexError, t)
  | first :: rest =>
      if String.eqb first "metadata" && (1 <? length (parts field))
         || mem first (t_available_metadata_fields t)
      then
        let json_path :=
          if mem first (t_available_metadata_fields t) then parts field
          else rest in
        match json_path with
        | [key] =>
            let t := add_index 1 t in
            let placeholder := placeholder_of (t_param_index t) in
            let t := append_param (PStr key) t in
            (Ok ("NOT (d.metadata ? " +:+ placeholder +:+ ")"), t)
        | _ =>
            let path_expression := PyStr.join "." json_path in
            let t := add_index 1 t in
            let placeholder := placeholder_of (t_param_index t) in
            let t := append_param (PStr ("$." +:+ path_expression)) t in
            (Ok ("NOT jsonb_path_exists(d.metadata, " +:+ placeholder +:+ ")"), t)
        end
      else (Ok (sql_field +:+ " IS NULL"), t)
  end.

(** The [(sql_op, param_value)] pair chosen by the operator branches of
    [_translate_comparison]. *)
Definition comparison_operator
    (op : string) (val : option value) (is_last_edited_at : bool)
  : string * param :=
  if String.eqb op ":" then ("ILIKE", PStr ("%" +:+ str_value val +:+ "%"))
  else if String.eqb op "=" then
    if is_str val && negb is_last_edited_at
    then ("ILIKE", param_of_value val)
    else ("=", param_of_value val)
  else if String.eqb op "=~" then ("~*", param_of_value val)
  else if String.eqb op "!~" then ("!~*", param_of_value val)
  else if String.eqb op "!:" then
    ("NOT_ILIKE", PStr ("%" +:+ str_value val +:+ "%"))
  else if String.eqb op "#" then ("SIMILARITY", param_of_value val)
  else if String.eqb op "!=" then
    if is_str val && negb is_last_edited_at
    then ("NOT_ILIKE", param_of_value val)
    else ("!=", param_of_value val)
  else (op, param_of_value val).

(** The date conversion applied to the parameter of a last-edited
    comparison; a text that is no date stays as it is. *)
Definition date_param
    (op : string) (is_last_edited_at : bool) (param_value : param) : param :=
  match param_value with
  | PStr s =>
      if is_last_edited_at && op_in (Some op) value_comparison_ops then
        match parse_date_string s with
        | Ok d => PDateTime d
        | Raise _ => param_value
        end
      else param_value
  | _ => param_value
  end.

Definition null_guarded_ops : list string := [">"; "<"; ">="; "<="; "!="].

Definition comparison_sql
    (op sql_op sql_field placeholder : string) (is_last_edited_at : bool)
  : string :=
  if is_last_edited_at && op_in (Some op) null_guarded_ops then
    if String.eqb sql_op "NOT_ILIKE" then
      "(" +:+ sql_field +:+ " IS NOT NULL AND NOT (" +:+ sql_field +:+
      " ILIKE " +:+ placeholder +:+ "))"
    else if String.eqb sql_op "SIMILARITY" then
      "(" +:+ sql_field +:+ " IS NOT NULL AND similarity(" +:+ placeholder +:+
      ", " +:+ sql_field +:+ ") > 0.7)"
    else
      "(" +:+ sql_field +:+ " IS NOT NULL AND " +:+ sql_field +:+ " " +:+
      sql_op +:+ " " +:+ placeholder +:+ ")"
  else
    if String.eqb sql_op "NOT_ILIKE" then
      "NOT (" +:+ sql_field +:+ " ILIKE " +:+ placeholder +:+ ")"
    else if String.eqb sql_op "SIMILARITY" then
      "similarity(" +:+ placeholder +:+ ", " +:+ sql_field +:+ ") > 0.7"
    else sql_field +:+ " " +:+ sql_op +:+ " " +:+ placeholder.

Definition _translate_comparison
    (t : SqlTranslator) (field : Field) (op : string) (val : option value)
  : result string * SqlTranslator :=
  match to_sql field (t_schema_mapping t) val (Some op)
          (t_available_metadata_fields t) (t_string_fields t)
          (t_id_fields t) (t_entity_fields t) with
  | Raise e => (Raise e, t)
  | Ok sql_field =>
      if String.eqb op ":" && value_eq_str val "*" then
        _translate_field_exists t field sql_field
      else if String.eqb op "!:" && value_eq_str val "*" then
        _translate_field_not_exists t field sql_field
      else
        match parts field with
        | [] => (Raise IndexError, t)
        | first :: _ =>
            let is_last_edited_at :=
              String.eqb first "last_edited_at"
              || PyStr.endswith sql_field "last_edited_at" in
            let t := add_index 1 t in
            let placeholder := placeholder_of (t_param_index t) in
            if String.eqb op ":" && is_last_edited_at
               && (value_eq_str val "" || negb (bool_decide (is_Some val)))
            then (Ok (sql_field +:+ " IS NOT NULL"), add_index (-1) t)
            else
              let '(sql_op, param_value) :=
                comparison_operator op val is_last_edited_at in
              let param_value := date_param op is_last_edited_at param_value in
              let t := append_param param_value t in
              (Ok (comparison_sql op sql_op sql_field placeholder
                     is_last_edited_at), t)
        end
  end.

Definition _build_search_condition
    (field_name placeholder : string) (is_quoted : bool) : string :=
  if PyStr.contains "uuid" (PyStr.lower field_name) then
    if is_quoted then field_name +:+ "::text ~* " +:+ placeholder
    else field_name +:+ "::text ILIKE '%' || " +:+ placeholder +:+ " || '%'"
  else
    if is_quoted then field_name +:+ " ~* " +:+ placeholder
    else field_name +:+ " ILIKE '%' || " +:+ placeholder +:+ " || '%'".

(** Returns the clause and the placeholder used; the empty placeholder
    goes with the clause [TRUE]. *)
Definition _build_global_search_clause
    (search_term : string) (is_quoted : bool) (field_list : list string)
    (param_offset : Z) : string * string :=
  if String.eqb (PyStr.strip search_term) "" then ("TRUE", "")
  else
    let param_index := (param_offset + 1)%Z in
    let placeholder := placeholder_of param_index in
    let conditions :=
      (fun field_name => _build_search_condition field_name placeholder is_quoted)
        <$> field_list in
    match conditions with
    | [] => ("TRUE", "")
    | _ => ("(" +:+ PyStr.join " OR " conditions +:+ ")", placeholder)
    end.

Definition _translate_global_search
    (t : SqlTranslator) (text : string) (is_quoted : bool)
  : result string * SqlTranslator :=
  let search_value := PyStr.strip text in
  if String.eqb search_value "*" || String.eqb search_value "" then
    (Ok "TRUE", t)
  else
    let '(where_clause, placeholder) :=
      _build_global_search_clause search_value is_quoted
        (t_global_search_fields t) (t_param_index t) in
    let t :=
      if String.eqb placeholder "" then t
      else append_param (PStr search_value) (add_index 1 t) in
    (Ok where_clause, t).

Fixpoint translate (node : AstNode) (t : SqlTranslator)
  : result string * SqlTranslator :=
  match node with
  | Comparison field op val => _translate_comparison t field op val
  | GlobalSearch text is_quoted => _translate_global_search t text is_quoted
  | Not term =>
      match translate term t with
      | (Ok s, t) => (Ok ("NOT (" +:+ s +:+ ")"), t)
      | (Raise e, t) => (Raise e, t)
      end
  | And lhs rhs =>
      match translate lhs t with
      | (Ok l, t) =>
          match translate rhs t with
          | (Ok r, t) => (Ok ("(" +:+ l +:+ " AND " +:+ r +:+ ")"), t)
          | (Raise e, t) => (Raise e, t)
          end
      | (Raise e, t) => (Raise e, t)
      end
  | Or lhs rhs =>
      match translate lhs t with
      | (Ok l, t) =>
          match translate rhs t with
          | (Ok r, t) => (Ok ("(" +:+ l +:+ " OR " +:+ r +:+ ")"), t)
          | (Raise e, t) => (Raise e, t)
          end
      | (Raise e, t) => (Raise e, t)
      end
  end.

(** ** [AstTransformer] *)

(** What [simple_value] returns: the quoted pair or a plain value. *)
Inductive simple :=
| SQuoted (s : string)
| SPlain (v : value).

(** [None] is an exception inside the callback, which Lark reports as a
    [VisitError], a subclass of [LarkError]. *)
Definition simple_value (v : Token) : option simple :=
  match tok_type v with
  | QUOTED_STRING =>
      Some (SQuoted (String.substring 1 (String.length (tok_value v) - 2)
                       (tok_value v)))
  | SIGNED_NUMBER =>
      if PyStr.contains "." (tok_value v)
      then Some (SPlain (VFloat (float_of_literal rt (tok_value v))))
      else (fun z => SPlain (VInt z))
           <$> PyStr.int_of_str (int_max_str_digits rt) (tok_value v)
  | IDENTIFIER => Some (SPlain (VStr (tok_value v)))
  | UUID => Some (SPlain (VStr (tok_value v)))
  | ASTERISK => Some (SPlain (VStr "*"))
  end.

Definition transform_value (v : Token) : option value :=
  processed ← simple_value v;
  match processed with
  | SQuoted s => Some (VStr s)
  | SPlain x => Some x
  end.

Definition transform_global_search (v : Token) : option AstNode :=
  processed ← simple_value v;
  match processed with
  | SQuoted s => Some (GlobalSearch s true)
  | SPlain x => Some (GlobalSearch (str_value (Some x)) false)
  end.

Fixpoint transform (tree : Tree) : option AstNode :=
  match tree with
  | tree_expr lhs rhs =>
      l ← transform lhs; r ← transform rhs; Some (Or l r)
  | tree_term lhs rhs =>
      l ← transform lhs; r ← transform rhs; Some (And l r)
  | tree_factor item => Not <$> transform item
  | tree_comparison field op None =>
      Some (Comparison {| parts := field |} op None)
  | tree_comparison field op (Some v) =>
      x ← transform_value v;
      Some (Comparison {| parts := field |} op (Some x))
  | tree_global_search tok => transform_global_search tok
  end.

(** ** [QueryParser] *)

Record TableInfo := {
  table_name : string;
  primary_key : string;
  name_column : string;
}.

Record MainTableSchema := {
  columns : list string;
  main_primary_key : string;
}.

(** The result of the schema discovery's [analyze_navigation_structure]:
    the navigation tables in their dictionary order and the schema of the
    main table. *)
Record NavigationAnalysis := {
  navigation_tables : list (string * TableInfo);
  main_table_schema : MainTableSchema;
}.

Record QueryParser := {
  qp_schema_mapping : gmap string string;
  qp_available_metadata_fields : gset string;
  (** [self.parser.parse]; [None] is a [LarkError] *)
  qp_parser : string → option Tree;
  qp_translator : SqlTranslator;
  qp_from_and_joins : string;
  (** [None] is the empty dictionary of [__init__] *)
  qp_navigation_analysis : option NavigationAnalysis;
  qp_entity_aliases : gmap string string;
  qp_string_fields : gset string;
  qp_id_fields : gset string;
  qp_entity_fields : gset string;
  (** [self.config["application"]["main_table"]], set by [setup] *)
  qp_main_table : string;
}.

(** [QueryParser.__init__] *)
Definition QueryParser_init (parser : string → option Tree) (main_table : string)
  : QueryParser :=
  {| qp_schema_mapping := ∅;
     qp_available_metadata_fields := ∅;
     qp_parser := parser;
     qp_translator := SqlTranslator_init;
     qp_from_and_joins := "";
     qp_navigation_analysis := None;
     qp_entity_aliases := ∅;
     qp_string_fields := ∅;
     qp_id_fields := ∅;
     qp_entity_fields := ∅;
     qp_main_table := main_table |}.

Definition with_translator (qp : QueryParser) (t : SqlTranslator)
  : QueryParser :=
  {| qp_schema_mapping := qp_schema_mapping qp;
     qp_available_metadata_fields := qp_available_metadata_fields qp;
     qp_parser := qp_parser qp;
     qp_translator := t;
     qp_from_and_joins := qp_from_and_joins qp;
     qp_navigation_analysis := qp_navigation_analysis qp;
     qp_entity_aliases := qp_entity_aliases qp;
     qp_string_fields := qp_string_fields qp;
     qp_id_fields := qp_id_fields qp;
     qp_entity_fields := qp_entity_fields qp;
     qp_main_table := qp_main_table qp |}.

(** [self.transformer.transform(self.parser.parse(text))]; [None] is a
    [LarkError]. *)
Definition parse_ast (qp : QueryParser) (text : string) : option AstNode :=
  qp_parser qp text ≫= transform.

(** [self.navigation_analysis["navigation_tables"]] *)
Definition nav_tables (qp : QueryParser) : result (list (string * TableInfo)) :=
  match qp_navigation_analysis qp with
  | Some na => Ok (navigation_tables na)
  | None => Raise (KeyError "navigation_tables")
  end.

(** [self.entity_aliases[entity_key]] *)
Definition alias_of (qp : QueryParser) (entity_key : string) : result string :=
  match qp_entity_aliases qp !! entity_key with
  | Some a => Ok a
  | None => Raise (KeyError entity_key)
  end.

(** A loop that builds one text per navigation table and stops at the
    first exception. *)
Fixpoint for_tables
    (body : string → TableInfo → result string)
    (tables : list (string * TableInfo)) : result (list string) :=
  match tables with
  | [] => Ok []
  | (entity_key, table_info) :: tables' =>
      x ← body entity_key table_info;
      xs ← for_tables body tables';
      Ok (x :: xs)
  end.

Definition newline : string := String "010" EmptyString.

Fixpoint spaces (n : nat) : string :=
  match n with
  | 0 => EmptyString
  | S n => String " " (spaces n)
  end.

Definition _build_dynamic_select_fields (qp : QueryParser) : result string :=
  let main_table_columns :=
    match qp_navigation_analysis qp with
    | Some na => columns (main_table_schema na)
    | None => []
    end in
  let select_fields := (fun column_name => "d." +:+ column_name) <$> main_table_columns in
  tables ← nav_tables qp;
  nav_fields ← for_tables
    (fun entity_key table_info =>
       alias ← alias_of qp entity_key;
       Ok (spaces 20 +:+ alias +:+ "." +:+ name_column table_info +:+ " as "
           +:+ entity_key +:+ "_name"))
    tables;
  Ok (PyStr.join ("," +:+ newline) (select_fields ++ nav_fields)).

Definition _build_dynamic_global_search_fields
    (qp : QueryParser) (search_term : string) : result (list string) :=
  let global_search_fields :=
    ["d.name"; "jsonb_values_to_text(d.metadata)"]
    ++ (if negb (String.eqb search_term "") && is_uuid_format search_term
        then ["d.uuid"] else []) in
  tables ← nav_tables qp;
  nav_fields ← for_tables
    (fun entity_key table_info =>
       alias ← alias_of qp entity_key;
       Ok (alias +:+ "." +:+ name_column table_info))
    tables;
  Ok (global_search_fields ++ nav_fields).

Fixpoint _extract_search_term_from_ast (node : AstNode) : string :=
  match node with
  | GlobalSearch text _ => PyStr.strip text
  | And lhs rhs | Or lhs rhs =>
      let left_term := _extract_search_term_from_ast lhs in
      if negb (String.eqb left_term "") then left_term
      else _extract_search_term_from_ast rhs
  | Not term => _extract_search_term_from_ast term
  | Comparison _ _ _ => ""
  end.

(** The clean-up both fallback builders apply to a text without quoted
    parts, before the final [strip]. *)
Definition clean_search_text (text : string) : string :=
  PyStr.strip (PyRe.sub_spaces (PyRe.sub_assignments (PyRe.sub_keywords text))).

Definition _build_fuzzy_search_clause (qp : QueryParser) (query_string : string)
  : result (string * list param) :=
  let quoted_strings := PyRe.findall_quoted query_string in
  let '(search_term, is_quoted) :=
    match quoted_strings with
    | q :: _ => (PyStr.strip q, true)
    | [] =>
        let cleaned := clean_search_text query_string in
        (if negb (String.eqb cleaned "") then cleaned
         else PyStr.strip query_string, false)
    end in
  field_list ← _build_dynamic_global_search_fields qp search_term;
  let '(where_clause, _) :=
    _build_global_search_clause search_term is_quoted field_list 0 in
  let params :=
    if negb (String.eqb (PyStr.strip search_term) "")
    then [PStr search_term] else [] in
  Ok (where_clause, params).

(** The non-empty stripped parts of the split. *)
Definition hybrid_parts (query_string : string) : list string :=
  filter (fun part => part ≠ "") (PyStr.strip <$> PyRe.split_and query_string).

(** The second loop of [_build_hybrid_search_clause]: parsed parts are
    translated, the others collected; the first exception that is no
    [LarkError] ends the loop. *)
Fixpoint hybrid_loop
    (qp : QueryParser) (part_list : list string) (t : SqlTranslator)
  : result (list string * list string) * SqlTranslator :=
  match part_list with
  | [] => (Ok ([], []), t)
  | part :: part_list' =>
      match parse_ast qp part with
      | Some ast =>
          match translate ast t with
          | (Ok clause, t) =>
              match hybrid_loop qp part_list' t with
              | (Ok (valid_clauses, fuzzy_search_terms), t) =>
                  (Ok (clause :: valid_clauses, fuzzy_search_terms), t)
              | (Raise e, t) => (Raise e, t)
              end
          | (Raise e, t) => (Raise e, t)
          end
      | None =>
          match hybrid_loop qp part_list' t with
          | (Ok (valid_clauses, fuzzy_search_terms), t) =>
              (Ok (valid_clauses, part :: fuzzy_search_terms), t)
          | (Raise e, t) => (Raise e, t)
          end
      end
  end.

Definition primary_search_term_of (all_search_terms : list string) : string :=
  match all_search_terms with
  | [] => ""
  | first :: _ =>
      match PyRe.findall_quoted (PyStr.join " " all_search_terms) with
      | q :: _ => PyStr.strip q
      | [] => clean_search_text first
      end
  end.

Definition _build_hybrid_search_clause (qp : QueryParser) (query_string : string)
  : result (string * list param) * QueryParser :=
  let part_list := hybrid_parts query_string in
  let all_search_terms :=
    filter (fun part => parse_ast qp part = None) part_list in
  let primary_search_term := primary_search_term_of all_search_terms in
  match _build_dynamic_global_search_fields qp primary_search_term with
  | Raise e => (Raise e, qp)
  | Ok global_search_fields =>
      let t := reset (qp_translator qp) (qp_schema_mapping qp)
                 (Some global_search_fields)
                 (Some (qp_available_metadata_fields qp))
                 (Some (qp_string_fields qp))
                 (Some (qp_id_fields qp))
                 (Some (qp_entity_fields qp)) in
      match hybrid_loop qp part_list t with
      | (Raise e, t) => (Raise e, with_translator qp t)
      | (Ok (valid_clauses, fuzzy_search_terms), t) =>
          let all_params := t_params t in
          let param_index := Z.of_nat (length all_params) in
          let '(valid_clauses, all_params) :=
            match fuzzy_search_terms with
            | [] => (valid_clauses, all_params)
            | _ =>
                let fuzzy_phrase :=
                  PyStr.strip (PyStr.join " " fuzzy_search_terms) in
                let is_quoted :=
                  match PyRe.findall_quoted query_string with
                  | [] => false
                  | _ => true
                  end in
                let '(fuzzy_clause, _) :=
                  _build_global_search_clause fuzzy_phrase is_quoted
                    global_search_fields param_index in
                (if String.eqb fuzzy_clause "TRUE" then valid_clauses
                 else valid_clauses ++ [fuzzy_clause],
                 all_params ++ [PStr fuzzy_phrase])
            end in
          let where_clause :=
            match valid_clauses with
            | [] => "TRUE"
            | _ => "(" +:+ PyStr.join " AND " valid_clauses +:+ ")"
            end in
          (Ok (where_clause, all_params), with_translator qp t)
      end
  end.

(** The JSON extraction the ORDER BY clause sorts on, for the path after
    the [metadata.] prefix: the last key is written with [repr]. *)
Definition sort_json_field (path_parts : list string) : string :=
  match path_parts with
  | [key] => "d.metadata->>" +:+ PyStr.repr key
  | _ =>
      "d.metadata->"
      +:+ PyStr.join "->" (quoted_part <$> removelast path_parts)
      +:+ "->>" +:+ PyStr.repr (List.last path_parts "")
  end.

Definition _build_order_by_clause
    (qp : QueryParser) (sort_by sort_order : string) : result string :=
  let primary_key_field : result string :=
    match qp_navigation_analysis qp with
    | Some na => Ok ("d." +:+ main_primary_key (main_table_schema na))
    | None => Raise (KeyError "main_table_schema")
    end in
  let direction := PyStr.upper sort_order in
  if negb (existsb (String.eqb (PyStr.lower sort_order)) ["asc"; "desc"]) then
    Raise (ValueError "sort_order must be 'asc' or 'desc'")
  else if PyStr.startswith sort_by "metadata." then
    let metadata_path := default "" (PyStr.split_char_once "." sort_by !! 1) in
    let path_parts := PyStr.split_char "." metadata_path in
    let json_field := sort_json_field path_parts in
    pk ← primary_key_field;
    Ok ("ORDER BY " +:+ json_field +:+ " " +:+ direction +:+ ", " +:+ pk
        +:+ " " +:+ direction)
  else
    sql_field ← to_sql {| parts := [sort_by] |} (qp_schema_mapping qp)
                  None None
                  (qp_available_metadata_fields qp) (qp_string_fields qp)
                  (qp_id_fields qp) (qp_entity_fields qp);
    pk ← primary_key_field;
    Ok ("ORDER BY " +:+ sql_field +:+ " " +:+ direction +:+ ", " +:+ pk
        +:+ " " +:+ direction).

(** The statement texts around a filter, with the indentation of the
    three places of [parse_query] that build them. *)
Definition unfiltered_select (select_fields from_and_joins order_by : string)
  : string :=
  newline +:+ spaces 16 +:+ "SELECT " +:+ select_fields +:+
  newline +:+ spaces 16 +:+ from_and_joins +:+
  newline +:+ spaces 16 +:+ order_by +:+
  newline +:+ spaces 12.

Definition filtered_select
    (indent : nat) (select_fields from_and_joins where_clause order_by : string)
  : string :=
  newline +:+ spaces (indent + 4) +:+ "SELECT " +:+ select_fields +:+
  newline +:+ spaces (indent + 4) +:+ from_and_joins +:+
  newline +:+ spaces (indent + 4) +:+ "WHERE " +:+ where_clause +:+
  newline +:+ spaces (indent + 4) +:+ order_by +:+
  newline +:+ spaces indent.

Definition filtered_count (from_and_joins where_clause : string) : string :=
  "SELECT COUNT(*) " +:+ from_and_joins +:+ " WHERE " +:+ where_clause.

(** The common end of the two filtered paths. *)
Definition assemble
    (qp : QueryParser) (indent : nat) (where_clause : string)
    (params : list param) (sort_by sort_order : string)
  : result (string * string * list param) :=
  select_fields ← _build_dynamic_select_fields qp;
  order_by ← _build_order_by_clause qp sort_by sort_order;
  Ok (filtered_count (qp_from_and_joins qp) where_clause,
      filtered_select indent select_fields (qp_from_and_joins qp)
        where_clause order_by,
      params).

(** [parse_query] returns [(count_query, select_query, params)] and
    leaves the translator in the state of its last use. *)
Definition parse_query
    (qp : QueryParser) (query_string sort_by sort_order : string)
  : result (string * string * list param) * QueryParser :=
  if bool_decide (qp_schema_mapping qp = ∅) then
    (Raise (RuntimeError "QueryParser not set up."), qp)
  else if String.eqb (PyStr.strip query_string) "" then
    (select_fields ← _build_dynamic_select_fields qp;
     order_by ← _build_order_by_clause qp sort_by sort_order;
     Ok ("SELECT COUNT(*) FROM " +:+ qp_main_table qp,
         unfiltered_select select_fields (qp_from_and_joins qp) order_by,
         []),
     qp)
  else
    match parse_ast qp query_string with
    | Some ast =>
        let search_term := _extract_search_term_from_ast ast in
        match _build_dynamic_global_search_fields qp search_term with
        | Raise e => (Raise e, qp)
        | Ok global_search_fields =>
            let t := reset (qp_translator qp) (qp_schema_mapping qp)
                       (Some global_search_fields)
                       (Some (qp_available_metadata_fields qp))
                       (Some (qp_string_fields qp))
                       (Some (qp_id_fields qp))
                       (Some (qp_entity_fields qp)) in
            match translate ast t with
            | (Raise e, t) => (Raise e, with_translator qp t)
            | (Ok where_clause, t) =>
                (assemble qp 8 where_clause (t_params t) sort_by sort_order,
                 with_translator qp t)
            end
        end
    | None =>
        let '(hybrid, qp) := _build_hybrid_search_clause qp query_string in
        match
          match hybrid with
          | Ok r => Ok r
          | Raise hybrid_error => _build_fuzzy_search_clause qp query_string
          end
        with
        | Raise e => (Raise e, qp)
        | Ok (where_clause, params) =>
            (assemble qp 12 where_clause params sort_by sort_order, qp)
        end
    end.


(** ** Reading the placeholders of a SQL text *)

(** No dollar sign occurs in the text. *)
Fixpoint dollar_free (s : string) : bool :=
  match s with
  | EmptyString => true
  | String c s' => negb (Ascii.eqb c "$") && dollar_free s'
  end.

(** The text is empty or starts with a character that is no digit. *)
Definition no_leading_digit (s : string) : bool :=
  match s with
  | EmptyString => true
  | String c _ => negb (PyStr.isdigit c)
  end.

Definition emit_digits (digits : string) : list string :=
  match digits with
  | EmptyString => []
  | _ => [digits]
  end.

(** The placeholders of a text, in their order of occurrence: every
    dollar sign that is followed by at least one digit, given by its
    digits.  [open] holds the digits read since the last dollar sign. *)
Fixpoint placeholders_go (open : option string) (s : string) : list string :=
  match s with
  | EmptyString => from_option emit_digits [] open
  | String c s' =>
      let start :=
        if Ascii.eqb c "$" then placeholders_go (Some EmptyString) s'
        else placeholders_go None s' in
      match open with
      | Some digits =>
          if PyStr.isdigit c
          then placeholders_go (Some (digits +:+ String c EmptyString)) s'
          else emit_digits digits ++ start
      | None => start
      end
  end.

Definition placeholders : string → list string := placeholders_go None.

(** One copy of each run of equal neighbours. *)
Fixpoint collapse (l : list string) : list string :=
  match l with
  | [] => []
  | x :: l' =>
      match l' with
      | y :: _ => if String.eqb x y then collapse l' else x :: collapse l'
      | [] => [x]
      end
  end.

(** The digits of the placeholders [$(k+1)], ..., [$(k+n)]. *)
Definition numbering (k n : nat) : list string :=
  (fun i => PyStr.str_int (Z.of_nat i)) <$> seq (S k) n.

(** The whole text is one IDENTIFIER token. *)
Definition is_identifier (s : string) : bool :=
  match Lark.identifier s with
  | Some (_, EmptyString) => true
  | _ => false
  end.

(** The shape the grammar gives to every AST: field segments are
    IDENTIFIER tokens, at least one, and operators are OP tokens. *)
Fixpoint grammar_ast (node : AstNode) : bool :=
  match node with
  | Comparison field op _ =>
      negb (bool_decide (parts field = []))
      && forallb is_identifier (parts field)
      && existsb (String.eqb op) Lark.operators
  | GlobalSearch _ _ => true
  | And lhs rhs | Or lhs rhs => grammar_ast lhs && grammar_ast rhs
  | Not term => grammar_ast term
  end.

(** The same shape on parse trees. *)
Fixpoint grammar_tree (tree : Tree) : bool :=
  match tree with
  | tree_expr lhs rhs | tree_term lhs rhs =>
      grammar_tree lhs && grammar_tree rhs
  | tree_factor item => grammar_tree item
  | tree_comparison field op _ =>
      negb (bool_decide (field = []))
      && forallb is_identifier field
      && existsb (String.eqb op) Lark.operators
  | tree_global_search _ => true
  end.

(** The texts of the schema context have no dollar sign. *)
Definition dollar_free_context (t : SqlTranslator) : Prop :=
  (∀ k v, t_schema_mapping t !! k = Some v → dollar_free v = true)
  ∧ Forall (fun x => dollar_free x = true) (t_global_search_fields t).

(** [t'] has the schema context of [t]. *)
Definition same_context (t t' : SqlTranslator) : Prop :=
  t_schema_mapping t' = t_schema_mapping t
  ∧ t_global_search_fields t' = t_global_search_fields t
  ∧ t_available_metadata_fields t' = t_available_metadata_fields t
  ∧ t_string_fields t' = t_string_fields t
  ∧ t_id_fields t' = t_id_fields t
  ∧ t_entity_fields t' = t_entity_fields t.

(** The placeholder counter is the number of parameters. *)
Definition index_in_step (t : SqlTranslator) : Prop :=
  t_param_index t = Z.of_nat (length (t_params t)).

(** [sql] holds the [n] placeholders that follow the parameters of [t],
    in their order, and [t'] has [n] parameters more than [t]. *)
Definition numbered (t : SqlTranslator) (sql : string) (t' : SqlTranslator)
    (n : nat) : Prop :=
  collapse (placeholders sql) = numbering (length (t_params t)) n
  ∧ (∃ extra, t_params t' = t_params t ++ extra ∧ length extra = n)
  ∧ index_in_step t'
  ∧ same_context t t'.

(** The leaves of a query, from left to right: its comparisons and its
    free-text searches. *)
Fixpoint leaves (node : AstNode) : list AstNode :=
  match node with
  | Comparison _ _ _ | GlobalSearch _ _ => [node]
  | And lhs rhs | Or lhs rhs => leaves lhs ++ leaves rhs
  | Not term => leaves term
  end.

(** The leaves translated one after the other, each from the state the
    one before left, as [translate] reaches them: for every leaf its SQL
    text and the parameters it appended to the list. *)
Fixpoint translate_leaves (nodes : list AstNode) (t : SqlTranslator)
  : result (list (string * list param)) * SqlTranslator :=
  match nodes with
  | [] => (Ok [], t)
  | node :: nodes' =>
      match translate node t with
      | (Ok sql, t1) =>
          match translate_leaves nodes' t1 with
          | (Ok steps, t2) =>
              (Ok ((sql, drop (length (t_params t)) (t_params t1)) :: steps),
               t2)
          | (Raise e, t2) => (Raise e, t2)
          end
      | (Raise e, t1) => (Raise e, t1)
      end
  end.

(** Every text holds the placeholders of the places that its own
    parameters take in the list, and no other; [n] parameters come
    before the first text. *)
Fixpoint in_step (n : nat) (steps : list (string * list param)) : Prop :=
  match steps with
  | [] => True
  | (sql, params) :: steps' =>
      collapse (placeholders sql) = numbering n (length params)
      ∧ in_step (n + length params) steps'
  end.

Definition values_dollar_free (m : gmap string string) : bool :=
  forallb (fun entry => dollar_free entry.2) (map_to_list m).

(** No name that [setup] takes from the database has a dollar sign: the
    SQL expressions of the schema mapping, the table aliases, the names
    of the navigation tables and their name columns, the columns and the
    primary key of the main table, the FROM and JOIN text. *)
Definition dollar_free_setup (qp : QueryParser) : bool :=
  values_dollar_free (qp_schema_mapping qp)
  && values_dollar_free (qp_entity_aliases qp)
  && match qp_navigation_analysis qp with
     | Some na =>
         forallb (fun entry => dollar_free entry.1
                               && dollar_free (name_column entry.2))
           (navigation_tables na)
         && forallb dollar_free (columns (main_table_schema na))
         && dollar_free (main_primary_key (main_table_schema na))
     | None => true
     end
  && dollar_free (qp_from_and_joins qp).

(** A text made of digits only. *)
Fixpoint all_digits (s : string) : bool :=
  match s with
  | EmptyString => true
  | String c s' => PyStr.isdigit c && all_digits s'
  end.

End Gclql.


(** A text made of white space only (the empty text included). *)
Fixpoint all_whitespace (s : string) : bool :=
  match s with
  | EmptyString => true
  | String c s' => PyStr.isspace c && all_whitespace s'
  end.

(** ** A concrete set-up for the examples

    The examples use no float literal and no date text, so the runtime
    only has to exist: floats are carried by their literal and no text is
    read as a date. *)

Definition sample_runtime : Runtime :=
  {| pyfloat := string;
     float_of_literal := fun text => text;
     float_str := fun x => x;
     float_to_int := fun _ => IntOk;
     int_max_str_digits := 4300;
     datetime := string;
     strptime := fun _ _ => None |}.

Definition sample_navigation : NavigationAnalysis :=
  {| navigation_tables :=
       [("category",
         {| table_name := "categories";
            primary_key := "category_id";
            name_column := "name" |})];
     main_table_schema :=
       {| columns := ["entity_id"; "name"; "status"; "size"; "metadata";
                      "last_edited_at"; "category_id"];
          main_primary_key := "entity_id" |} |}.

Definition sample_schema_mapping : gmap string string :=
  list_to_map
    [("entity_id", "d.entity_id"); ("name", "d.name");
     ("status", "d.status"); ("size", "d.size");
     ("metadata", "d.metadata"); ("last_edited_at", "d.last_edited_at");
     ("category_id", "d.category_id"); ("category", "cat.name")].

(** A query parser as [setup] leaves it, for a main table [entities] with
    one navigation table. *)
Definition sample_query_parser : @QueryParser sample_runtime :=
  {| qp_schema_mapping := sample_schema_mapping;
     qp_available_metadata_fields := {["tag"; "detector"; "detector.size"]};
     qp_parser := Lark.parse;
     qp_translator := SqlTranslator_init;
     qp_from_and_joins :=
       "FROM entities d" +:+ newline +:+ spaces 12 +:+
       "LEFT JOIN categories cat ON d.category_id = cat.category_id";
     qp_navigation_analysis := Some sample_navigation;
     qp_entity_aliases := {["category" := "cat"]};
     qp_string_fields := {["name"; "status"; "category"; "category_name"]};
     qp_id_fields := {["category_id"]};
     qp_entity_fields := {["category"]};
     qp_main_table := "entities" |}.

(** A translator reset with the context of [sample_query_parser]. *)
Definition sample_translator : @SqlTranslator sample_runtime :=
  reset SqlTranslator_init sample_schema_mapping
    (Some ["d.name"; "jsonb_values_to_text(d.metadata)"; "cat.name"])
    (Some (qp_available_metadata_fields sample_query_parser))
    (Some (qp_string_fields sample_query_parser))
    (Some (qp_id_fields sample_query_parser))
    (Some (qp_entity_fields sample_query_parser)).

(** ** [sql_utils.generate_unique_table_alias] *)

(** The reserved words of [generate_unique_table_alias]. *)
Definition reserved_keyword_list : list string :=
  ["for"; "from"; "where"; "select"; "update"; "delete"; "insert"; "join";
   "on"; "as"; "in"; "or"; "and"; "not"; "if"; "order"; "by"; "group";
   "having"; "union"; "all"; "exists"; "case"; "when"; "then"; "else";
   "end"; "distinct"; "limit"; "offset"; "into"; "values"; "set"; "create";
   "drop"; "alter"; "table"; "index"; "view"; "trigger"; "procedure";
   "function"; "schema"; "database"; "constraint"; "primary"; "foreign";
   "key"; "unique"; "null"; "default"; "check"; "references"].

Definition reserved_keywords : gset string := list_to_set reserved_keyword_list.

(** The [while] loop that looks for a free numeric suffix: the first
    counter from [counter] on whose alias is not in use.  [None]: the fuel
    ran out before the loop ended. *)
Fixpoint first_free_counter
    (fuel : nat) (original_alias : string) (used_aliases : gset string)
    (counter : Z) : option Z :=
  match fuel with
  | 0 => None
  | S fuel =>
      if mem (original_alias +:+ PyStr.str_int counter) used_aliases
      then first_free_counter fuel original_alias used_aliases (counter + 1)
      else Some counter
  end.

(** [None]: the loop ran out of fuel; [Some (Raise _)]: an exception. *)
Definition generate_unique_table_alias
    (entity_key : string) (used_aliases : gset string)
  : option (result string) :=
  let n := String.length entity_key in
  let base_alias :=
    if 3 <? n then String.substring 0 3 entity_key else entity_key in
  let base_alias :=
    if mem (PyStr.lower base_alias) reserved_keywords && (3 <? n)
    then String.substring 0 4 entity_key else base_alias in
  match
    (if mem (PyStr.lower base_alias) reserved_keywords then
       match entity_key with
       | String c _ => Ok (String c "_t")
       | EmptyString => Raise IndexError
       end
     else Ok base_alias)
  with
  | Raise e => Some (Raise e)
  | Ok base_alias =>
      let base_alias :=
        if mem base_alias used_aliases && (3 <? n)
           && (String.length base_alias <? 4)
        then String.substring 0 4 entity_key else base_alias in
      if mem base_alias used_aliases then
        counter ← first_free_counter (S (size used_aliases)) base_alias
                     used_aliases 1;
        Some (Ok (base_alias +:+ PyStr.str_int counter))
      else Some (Ok base_alias)
  end.

(** Only lower-case letters. *)
Fixpoint only_lowercase_letters (s : string) : bool :=
  match s with
  | EmptyString => true
  | String c s' => PyStr.islower c && only_lowercase_letters s'
  end.


(** ** The shape of a UUID text *)

(** Hexadecimal digits only. *)
Fixpoint all_hex (s : string) : bool :=
  match s with
  | EmptyString => true
  | String c s' => PyStr.ishex c && all_hex s'
  end.

(** [n] hexadecimal digits. *)
Definition hex_group (n : nat) (s : string) : Prop :=
  String.length s = n ∧ all_hex s = true.

(** ** [schema_mapping_module._build_navigation_aliases] *)

(** The loop over the navigation tables: [used_aliases] and [mapping]
    are the two local variables it updates. *)
Fixpoint navigation_aliases_loop
    (tables : list (string * TableInfo)) (used_aliases : gset string)
    (mapping : gmap string string) : option (result (gmap string string)) :=
  match tables with
  | [] => Some (Ok mapping)
  | (entity_key, table_info) :: tables' =>
      match generate_unique_table_alias entity_key used_aliases with
      | None => None
      | Some (Raise e) => Some (Raise e)
      | Some (Ok alias) =>
          navigation_aliases_loop tables' ({[alias]} ∪ used_aliases)
            (<[entity_key := alias +:+ "." +:+ name_column table_info]> mapping)
      end
  end.

Definition _build_navigation_aliases (navigation_tables : list (string * TableInfo))
  : option (result (gmap string string)) :=
  navigation_aliases_loop navigation_tables {["d"]} ∅.

(** ** [QueryParser._build_dynamic_joins] *)

(** The JOIN clause of one navigation table. *)
Definition join_clause (entity_key : string) (table_info : TableInfo)
    (alias : string) : string :=
  "LEFT JOIN " +:+ table_name table_info +:+ " " +:+ alias +:+
  " ON d." +:+ entity_key +:+ "_id = " +:+ alias +:+ "." +:+
  primary_key table_info.

(** The loop over the navigation tables.  It returns the JOIN lines and
    the alias dictionary, which keeps the entries written before an
    exception. *)
Fixpoint joins_loop
    (tables : list (string * TableInfo)) (used_aliases : gset string)
    (entity_aliases : gmap string string)
  : option (result (list string) * gmap string string) :=
  match tables with
  | [] => Some (Ok [], entity_aliases)
  | (entity_key, table_info) :: tables' =>
      match generate_unique_table_alias entity_key used_aliases with
      | None => None
      | Some (Raise e) => Some (Raise e, entity_aliases)
      | Some (Ok alias) =>
          let entity_aliases := <[entity_key := alias]> entity_aliases in
          match joins_loop tables' ({[alias]} ∪ used_aliases) entity_aliases with
          | None => None
          | Some (Ok joins, entity_aliases) =>
              Some (Ok ((spaces 12 +:+ join_clause entity_key table_info alias)
                        :: joins),
                    entity_aliases)
          | Some (Raise e, entity_aliases) => Some (Raise e, entity_aliases)
          end
      end
  end.

(** ** [errors_utils.py]: the standard error responses *)

(** The [details] dictionary of an error response; an absent key is
    [None]. *)
Record ErrorDetails := {
  details_error : string;
  details_message : string;
  details_code : option string;
  details_required_role : option string;
  details_validation_errors : option (gmap string (list string));
}.

(** The [detail] dictionary of the exception. *)
Record ErrorBody := {
  body_message : string;
  body_status : Z;
  body_details : ErrorDetails;
}.

(** fastapi's [HTTPException] as the module builds it. *)
Record HTTPException := {
  status_code : Z;
  detail : ErrorBody;
  headers : option (gmap string string);
}.

(** A value that is given and truthy: a non-empty text. *)
Definition given_text (o : option string) : option string :=
  if truthy o then o else None.

(** A dictionary that is given and not empty. *)
Definition given_dict {A} (o : option (gmap string A)) : option (gmap string A) :=
  match o with
  | Some m => if bool_decide (m = ∅) then None else Some m
  | None => None
  end.

Definition create_standard_http_exception
    (status_code : Z) (error_type user_message technical_message : string)
    (code required_role : option string)
    (validation_errors : option (gmap string (list string)))
    (headers : option (gmap string string)) : HTTPException :=
  {| status_code := status_code;
     detail :=
       {| body_message := user_message;
          body_status := status_code;
          body_details :=
            {| details_error := error_type;
               details_message := technical_message;
               details_code := given_text code;
               details_required_role := given_text required_role;
               details_validation_errors := given_dict validation_errors |} |};
     headers := headers |}.

(** The convenience functions take their defaulted arguments as options:
    [None] is an argument left out at the call. *)

Definition validation_error
    (error_type message user_message : option string)
    (validation_errors : option (gmap string (list string))) : HTTPException :=
  create_standard_http_exception 400
    (default "invalid_input" error_type)
    (default "Invalid request data. Please check your input." user_message)
    (default "Request validation failed" message)
    None None validation_errors None.

Definition query_validation_error
    (error_type message user_message : option string)
    (validation_errors : option (gmap string (list string))) : HTTPException :=
  create_standard_http_exception 400
    (default "invalid_query" error_type)
    (default "Invalid search query. Please check your search syntax."
       user_message)
    (default "Query validation failed" message)
    None None validation_errors None.

(** [message] and [user_message] may be [None] or empty: both get the
    default text. *)
Definition field_error
    (field_name : string) (error_type message user_message : option string)
  : HTTPException :=
  let message :=
    if truthy message then default "" message
    else "Field '" +:+ field_name +:+ "' is not valid" in
  let user_message :=
    if truthy user_message then default "" user_message
    else "The field '" +:+ field_name +:+
         "' is not available for searching. Please check the field name and try again." in
  create_standard_http_exception 400
    (default "invalid_field" error_type)
    user_message message None None
    (Some {["field" := ["'" +:+ field_name +:+ "' is not a valid field"]]})
    None.

Definition operation_error
    (operation : string) (field_name error_type message user_message
       : option string) : HTTPException :=
  let message :=
    if truthy message then default "" message
    else if truthy field_name then
      "Operation '" +:+ operation +:+ "' is not supported for field '" +:+
      default "" field_name +:+ "'"
    else "Operation '" +:+ operation +:+ "' is not supported" in
  let user_message :=
    if truthy user_message then default "" user_message
    else if truthy field_name then
      "The operation '" +:+ operation +:+ "' cannot be used with the field '"
      +:+ default "" field_name +:+ "'. Please use a different operator."
    else "The operation '" +:+ operation +:+
         "' is not supported. Please use a different operator." in
  create_standard_http_exception 400
    (default "invalid_operation" error_type)
    user_message message None None
    (Some {["operation" :=
              ["'" +:+ operation +:+ "' is not valid for this context"]]})
    None.

(** ** [entities_router.py]: the query endpoints up to the database call *)

(** How a request handler ends before it reaches the database: with the
    arguments of [perform_search], with an [HTTPException], or with an
    exception no [except] clause of the handler catches. *)
Inductive handled (A : Type) :=
| Proceeds (a : A)
| Responds (e : HTTPException)
| Escapes (e : exn).
Arguments Proceeds {A} a.
Arguments Responds {A} e.
Arguments Escapes {A} e.

(** [x or "unknown"] *)
Definition or_unknown (o : option string) : string :=
  if truthy o then default "" o else "unknown".

(** The two [except] clauses of [execute_gclql_query]. *)
Definition query_error_response {A} (e : exn) : handled A :=
  match e with
  | SearchValidationError message error_type field_name operation user_message =>
      if String.eqb error_type "invalid_field" then
        Responds (field_error (or_unknown field_name) None
                    (Some message) user_message)
      else if String.eqb error_type "invalid_operation" then
        Responds (operation_error (or_unknown operation) field_name None
                    (Some message) user_message)
      else
        Responds (query_validation_error (Some error_type) (Some message)
                    (Some (if truthy user_message then default "" user_message
                           else "Invalid search query. Please check your search syntax."))
                    None)
  | ValueError msg =>
      Responds (validation_error (Some "invalid_query")
                  (Some ("Invalid query: " +:+ msg)) None None)
  | _ => Escapes e
  end.

(** The one [except] clause of [download_filtered_entities]. *)
Definition download_error_response {A} (e : exn) : handled A :=
  match e with
  | ValueError msg =>
      Responds (validation_error (Some "invalid_query")
                  (Some ("Invalid query: " +:+ msg)) None None)
  | _ => Escapes e
  end.

(** A column of a table in the discovered schema. *)
Record ColumnInfo := {
  column_name : string;
  data_type : string;
  is_foreign_key : bool;
}.

Section Setup.

Context {rt : Runtime}.
Implicit Types (qp : @QueryParser rt).

(** The two attributes [_build_dynamic_joins] assigns. *)
Definition with_joins qp (from_and_joins : string)
    (entity_aliases : gmap string string) : QueryParser :=
  {| qp_schema_mapping := qp_schema_mapping qp;
     qp_available_metadata_fields := qp_available_metadata_fields qp;
     qp_parser := qp_parser qp;
     qp_translator := qp_translator qp;
     qp_from_and_joins := from_and_joins;
     qp_navigation_analysis := qp_navigation_analysis qp;
     qp_entity_aliases := entity_aliases;
     qp_string_fields := qp_string_fields qp;
     qp_id_fields := qp_id_fields qp;
     qp_entity_fields := qp_entity_fields qp;
     qp_main_table := qp_main_table qp |}.

Definition _build_dynamic_joins qp : option (result unit * QueryParser) :=
  match nav_tables qp with
  | Raise e => Some (Raise e, qp)
  | Ok tables =>
      match joins_loop tables {["d"]} (qp_entity_aliases qp) with
      | None => None
      | Some (Raise e, entity_aliases) =>
          Some (Raise e, with_joins qp (qp_from_and_joins qp) entity_aliases)
      | Some (Ok joins, entity_aliases) =>
          Some (Ok tt,
                with_joins qp
                  (PyStr.join newline
                     (("FROM " +:+ qp_main_table qp +:+ " d") :: joins))
                  entity_aliases)
      end
  end.

(** ** Field classification: [_is_string_type] and the body of
       [_fetch_field_type_classifications]

    The method reads the schema of all tables and the navigation
    structure from the database; both are arguments here.  A column is
    the dictionary the schema discovery returns for it. *)

Definition string_types : gset string :=
  list_to_set
    ["text"; "varchar"; "character varying"; "character"; "char"; "uuid";
     "name"; "inet"; "cidr"; "macaddr"; "macaddr8"; "xml"].

Definition _is_string_type (data_type : string) : bool :=
  mem data_type string_types
  || existsb
       (fun string_type =>
          PyStr.startswith data_type (string_type +:+ "(")
          || PyStr.startswith data_type (string_type +:+ " ("))
       ["varchar"; "character varying"; "character"; "char"].

(** The first loop: the string fields and the id fields among the
    columns of the main table. *)
Fixpoint classify_columns (columns : list ColumnInfo)
    (string_fields id_fields : gset string) : gset string * gset string :=
  match columns with
  | [] => (string_fields, id_fields)
  | column :: columns' =>
      let name := column_name column in
      let type := PyStr.lower (data_type column) in
      let string_fields :=
        if _is_string_type type then {[name]} ∪ string_fields
        else string_fields in
      let id_fields :=
        if is_foreign_key column || PyStr.endswith name "_id"
        then {[name]} ∪ id_fields else id_fields in
      classify_columns columns' string_fields id_fields
  end.

(** The second loop: every navigation entity is a string field, with
    and without the [_name] suffix, and an entity field. *)
Fixpoint classify_entities (tables : list (string * TableInfo))
    (string_fields entity_fields : gset string) : gset string * gset string :=
  match tables with
  | [] => (string_fields, entity_fields)
  | (entity_key, _) :: tables' =>
      classify_entities tables'
        ({[entity_key +:+ "_name"]} ∪ ({[entity_key]} ∪ string_fields))
        ({[entity_key]} ∪ entity_fields)
  end.

(** The three attributes the classification assigns. *)
Definition with_classification qp
    (string_fields id_fields entity_fields : gset string) : QueryParser :=
  {| qp_schema_mapping := qp_schema_mapping qp;
     qp_available_metadata_fields := qp_available_metadata_fields qp;
     qp_parser := qp_parser qp;
     qp_translator := qp_translator qp;
     qp_from_and_joins := qp_from_and_joins qp;
     qp_navigation_analysis := qp_navigation_analysis qp;
     qp_entity_aliases := qp_entity_aliases qp;
     qp_string_fields := string_fields;
     qp_id_fields := id_fields;
     qp_entity_fields := entity_fields;
     qp_main_table := qp_main_table qp |}.

(** [schema_tables] is [schema["tables"]], from table name to columns;
    [navigation_tables] is what [analyze_navigation_structure] returned. *)
Definition _fetch_field_type_classifications qp
    (schema_tables : gmap string (list ColumnInfo))
    (navigation_tables : list (string * TableInfo))
  : result unit * QueryParser :=
  match schema_tables !! qp_main_table qp with
  | None =>
      (Raise (ValueError ("Main table '" +:+ qp_main_table qp +:+
                          "' not found in schema")), qp)
  | Some columns =>
      let '(string_fields, id_fields) := classify_columns columns ∅ ∅ in
      let '(string_fields, entity_fields) :=
        classify_entities navigation_tables string_fields ∅ in
      (Ok tt, with_classification qp string_fields id_fields entity_fields)
  end.

(** ** The query endpoints

    Both endpoints check the sort order, call [parse_query] with the sort
    order in lower case and hand the statements to [perform_search]; they
    differ in the exceptions they catch. *)

Definition endpoint_statements
    (on_error : exn → handled (string * string * list param))
    qp (q sort_by sort_order : string)
  : handled (string * string * list param) * QueryParser :=
  if negb (existsb (String.eqb (PyStr.lower sort_order)) ["asc"; "desc"]) then
    (Responds (validation_error (Some "invalid_sort_order")
                 (Some "sort_order must be 'asc' or 'desc'") None None), qp)
  else
    match parse_query qp q sort_by (PyStr.lower sort_order) with
    | (Ok statements, qp) => (Proceeds statements, qp)
    | (Raise e, qp) => (on_error e, qp)
    end.

(** [execute_gclql_query] *)
Definition execute_gclql_query := endpoint_statements query_error_response.

(** [download_filtered_entities] *)
Definition download_filtered_entities :=
  endpoint_statements download_error_response.

(** ** [search_module.perform_search]: the statement of one page

    The function runs the count query with [params] and the search
    query, extended by LIMIT and OFFSET, with [params], [limit] and
    [offset]. *)

Definition paginated_query (search_query : string)
    (params : list (@param rt)) : string :=
  search_query +:+ " LIMIT $"
  +:+ PyStr.str_int (Z.of_nat (length params) + 1) +:+ " OFFSET $"
  +:+ PyStr.str_int (Z.of_nat (length params) + 2).

Definition paginated_arguments (params : list (@param rt))
    (limit offset : Z) : list param :=
  params ++ [PInt limit; PInt offset].

(** The texts of the free-text searches of a node, from left to right. *)
Fixpoint global_texts (node : @AstNode rt) : list string :=
  match node with
  | GlobalSearch text _ => [text]
  | And lhs rhs | Or lhs rhs => global_texts lhs ++ global_texts rhs
  | Not term => global_texts term
  | Comparison _ _ _ => []
  end.

(** ** Queries that differ in their texts only *)

(** A compared text that is neither the existence marker nor empty. *)
Definition plain_text (s : string) : Prop := s ≠ "*" ∧ s ≠ "".

(** Two compared values: the same value, or two plain texts. *)
Definition alike_values (v1 v2 : option (@value rt)) : Prop :=
  v1 = v2
  ∨ ∃ s1 s2, v1 = Some (VStr s1) ∧ v2 = Some (VStr s2)
             ∧ plain_text s1 ∧ plain_text s2.

(** Two search texts: the same text, or two texts that are plain once
    stripped. *)
Definition alike_searches (s1 s2 : string) : Prop :=
  s1 = s2 ∨ (plain_text (PyStr.strip s1) ∧ plain_text (PyStr.strip s2)).

(** The two nodes have the same structure, fields, operators and
    quoting, and alike values. *)
Fixpoint same_shape (n1 n2 : @AstNode rt) : Prop :=
  match n1, n2 with
  | Comparison f1 op1 v1, Comparison f2 op2 v2 =>
      f1 = f2 ∧ op1 = op2 ∧ alike_values v1 v2
  | GlobalSearch s1 q1, GlobalSearch s2 q2 =>
      q1 = q2 ∧ alike_searches s1 s2
  | And l1 r1, And l2 r2 | Or l1 r1, Or l2 r2 =>
      same_shape l1 l2 ∧ same_shape r1 r2
  | Not a1, Not a2 => same_shape a1 a2
  | _, _ => False
  end.

(** Two translators with the same schema context, the same placeholder
    counter and as many parameters. *)
Definition agree (t t' : @SqlTranslator rt) : Prop :=
  same_context t t'
  ∧ t_param_index t' = t_param_index t
  ∧ length (t_params t') = length (t_params t).

End Setup.

(** ** [search_module.py]: the statements of the generic search *)

(** [s.replace(old, new)] for a non-empty [old]: the occurrences are
    replaced from left to right, without overlap. *)
Fixpoint replace_go (fuel : nat) (old new s : string) : string :=
  match fuel with
  | 0 => s
  | S fuel =>
      match s with
      | EmptyString => EmptyString
      | String c s' =>
          match Lark.literal old s with
          | Some rest => new +:+ replace_go fuel old new rest
          | None => String c (replace_go fuel old new s')
          end
      end
  end.

Definition replace (old new s : string) : string :=
  replace_go (String.length s) old new s.

(** An element of [navigation_analysis["navigation_entities"]]. *)
Record NavigationEntity := {
  key : string;
  referenced_table : string;
  entity_column_name : string;
}.

(** The navigation analysis as the generic search reads it. *)
Record SearchNavigation := {
  navigation_entities : list NavigationEntity;
  search_navigation_tables : list (string * TableInfo);
  search_columns : list ColumnInfo;
  search_primary_key : string;
}.

(** [navigation_tables[entity_key]] *)
Definition table_info_of (tables : list (string * TableInfo))
    (entity_key : string) : result TableInfo :=
  match list_find (fun entry => entry.1 = entity_key) tables with
  | Some (_, (_, table_info)) => Ok table_info
  | None => Raise (KeyError entity_key)
  end.

(** The loop of [_build_search_query_parts]; the three lists and the set
    are its local variables. *)
Fixpoint search_query_parts_loop
    (tables : list (string * TableInfo)) (entities : list NavigationEntity)
    (used_aliases : gset string) (entity_aliases : gmap string string)
  : option (result (list string * list string * gmap string string)) :=
  match entities with
  | [] => Some (Ok ([], [], entity_aliases))
  | entity :: entities' =>
      let entity_key := key entity in
      match generate_unique_table_alias entity_key used_aliases with
      | None => None
      | Some (Raise e) => Some (Raise e)
      | Some (Ok table_alias) =>
          let entity_aliases := <[entity_key := table_alias]> entity_aliases in
          match table_info_of tables entity_key with
          | Raise e => Some (Raise e)
          | Ok table_info =>
              let query_part :=
                ", " +:+ table_alias +:+ "." +:+ name_column table_info
                +:+ " as " +:+ entity_key +:+ "_name" in
              let join_part :=
                "LEFT JOIN " +:+ referenced_table entity +:+ " " +:+ table_alias
                +:+ " ON d." +:+ entity_column_name entity +:+ " = "
                +:+ table_alias +:+ "." +:+ primary_key table_info in
              match search_query_parts_loop tables entities'
                      ({[table_alias]} ∪ used_aliases) entity_aliases with
              | None => None
              | Some (Raise e) => Some (Raise e)
              | Some (Ok (query_parts, join_parts, entity_aliases)) =>
                  Some (Ok (query_part :: query_parts, join_part :: join_parts,
                            entity_aliases))
              end
          end
      end
  end.

Definition _build_search_query_parts (na : SearchNavigation)
  : option (result (list string * list string * gmap string string)) :=
  search_query_parts_loop (search_navigation_tables na)
    (navigation_entities na) ∅ ∅.

(** [conditions] and [params] are the two lists the caller passes in;
    the function returns them extended. *)
Fixpoint _add_filter_conditions
    (tables : list (string * TableInfo)) (filters : list (string * string))
    (conditions params : list string) (entity_aliases : gmap string string)
  : result (list string * list string) :=
  match filters with
  | [] => Ok (conditions, params)
  | (filter_key, filter_value) :: filters' =>
      if PyStr.endswith filter_key "_name" then
        let entity_key := replace "_name" "" filter_key in
        if bool_decide (entity_key ∈ tables.*1) then
          (* the default of [get] is evaluated first *)
          fallback ← match entity_key with
                      | String c _ => Ok (String c EmptyString)
                      | EmptyString => Raise IndexError
                      end;
          let table_alias := default fallback (entity_aliases !! entity_key) in
          table_info ← table_info_of tables entity_key;
          _add_filter_conditions tables filters'
            (conditions ++
               [table_alias +:+ "." +:+ name_column table_info +:+ " = $"
                +:+ PyStr.str_int (Z.of_nat (length params) + 1)])
            (params ++ [filter_value]) entity_aliases
        else _add_filter_conditions tables filters' conditions params
               entity_aliases
      else _add_filter_conditions tables filters' conditions params
             entity_aliases
  end.

(** [any(text_type in data_type.lower() for text_type in ...)] *)
Definition is_text_column (column : ColumnInfo) : bool :=
  existsb (fun text_type => PyStr.contains text_type
                              (PyStr.lower (data_type column)))
    ["text"; "varchar"; "character"].

Definition _add_search_conditions
    (columns : list ColumnInfo) (search : string)
    (conditions params : list string) : list string * list string :=
  let search_conditions :=
    (fun col => "d." +:+ column_name col +:+ " ILIKE $"
                +:+ PyStr.str_int (Z.of_nat (length params) + 1))
      <$> filter (fun col => is_text_column col = true) columns in
  match search_conditions with
  | [] => (conditions, params)
  | _ =>
      (conditions ++ ["(" +:+ PyStr.join " OR " search_conditions +:+ ")"],
       params ++ ["%" +:+ search +:+ "%"])
  end.

Definition _build_search_conditions
    (na : SearchNavigation) (filters : list (string * string))
    (search : string) (entity_aliases : gmap string string)
  : result (list string * list string) :=
  '(conditions, params) ←
    _add_filter_conditions (search_navigation_tables na) filters [] []
      entity_aliases;
  if negb (String.eqb search "") then
    Ok (_add_search_conditions (search_columns na) search conditions params)
  else Ok (conditions, params).

Definition _assemble_base_query
    (query_parts join_parts conditions : list string) (primary_key : string)
  : string :=
  let query := PyStr.join "" query_parts +:+ PyStr.join "" join_parts in
  let query :=
    match conditions with
    | [] => query
    | _ => query +:+ " WHERE " +:+ PyStr.join " AND " conditions
    end in
  query +:+ " ORDER BY d." +:+ primary_key +:+ " DESC".

(** [l.index(x)] *)
Definition index_of (x : string) (l : list string) : result nat :=
  match list_find (fun y => y = x) l with
  | Some (i, _) => Ok i
  | None => Raise (ValueError (PyStr.repr x +:+ " is not in list"))
  end.

Definition _build_count_query
    (base_query : string) (query_parts : list string) (main_table : string)
  : result string :=
  stop ← index_of (" FROM " +:+ main_table +:+ " d") query_parts;
  let select_part :=
    "SELECT d.*" +:+ PyStr.join "" (drop 1 (take stop query_parts)) in
  Ok (replace select_part "SELECT COUNT(*)" base_query).

(** [search_entities] up to its first database call: the count query,
    the base query and the parameters. *)
Definition search_entities_statements
    (main_table : string) (na : SearchNavigation)
    (filters : list (string * string)) (search : string)
  : option (result (string * string * list string)) :=
  match _build_search_query_parts na with
  | None => None
  | Some (Raise e) => Some (Raise e)
  | Some (Ok (query_parts, join_parts, entity_aliases)) =>
      Some (
        '(conditions, params) ←
          _build_search_conditions na filters search entity_aliases;
        let base_query :=
          _assemble_base_query query_parts join_parts conditions
            (search_primary_key na) in
        count_query ← _build_count_query base_query query_parts main_table;
        Ok (count_query, base_query, params))
  end.

(** The conditions hold the placeholders of the parameters, one
    condition per parameter. *)
Definition conditions_numbered (conditions params : list string) : Prop :=
  length conditions = length params
  ∧ collapse (placeholders (PyStr.join " AND " conditions))
    = numbering 0 (length params).

(** [perform_search] after the database has reported the undefined
    column [missing_column]: the exception for a column the statements
    take from the main table, or else the count and search statements of
    the second attempt. *)
Definition fallback_statements
    (missing_column count_query search_query : string)
  : result (string * string) :=
  let reference := "d." +:+ missing_column in
  if PyStr.contains reference search_query
     || PyStr.contains reference count_query
  then
    Raise (SearchValidationError
             ("Field '" +:+ missing_column +:+
              "' does not exist in the database schema")
             "invalid_field" (Some missing_column) None
             (Some ("The field '" +:+ missing_column +:+
                    "' is not available for searching. Please check the field name and try again.")))
  else
    let access := "d.metadata->>'" +:+ missing_column +:+ "'" in
    Ok (replace reference access count_query,
        replace reference access search_query).

(** ** [sql_utils.py]: column names, identifiers and ORDER BY *)

(** A text between double quotes. *)
Definition quoted (s : string) : string :=
  String PyStr.dquote (s +:+ String PyStr.dquote EmptyString).

(** The characters that make [build_safe_column_name] quote a name. *)
Definition special_characters : list ascii :=
  [" "; "-"; "."; ":"; ";"; "("; ")"]%char.

(** The reserved words of [build_safe_column_name]. *)
Definition column_reserved_keyword_list : list string :=
  ["order"; "by"; "group"; "having"; "where"; "select"; "from"; "join";
   "on"; "as"; "in"; "or"; "and"; "not"; "case"; "when"; "then"; "else";
   "end"; "distinct"; "limit"; "offset"; "union"; "all"; "exists"].

Definition column_reserved_keywords : gset string :=
  list_to_set column_reserved_keyword_list.

Definition build_safe_column_name (column_name : string) : string :=
  if existsb (fun char => PyStr.contains (String char EmptyString) column_name)
       special_characters
  then quoted column_name
  else if mem (PyStr.lower column_name) column_reserved_keywords
  then quoted column_name
  else column_name.

Definition escape_sql_identifier (identifier : string) : string :=
  let escaped :=
    replace (String PyStr.dquote EmptyString)
      (String PyStr.dquote (String PyStr.dquote EmptyString)) identifier in
  quoted escaped.

(** The [while] loop of [build_order_by_clause]: it appends [ASC] until
    there is a direction for each of the [n] columns.  [None]: the fuel
    ran out before the loop ended. *)
Fixpoint pad_directions (fuel : nat) (sort_directions : list string) (n : nat)
  : option (list string) :=
  match fuel with
  | 0 => None
  | S fuel =>
      if length sort_directions <? n
      then pad_directions fuel (sort_directions ++ ["ASC"]) n
      else Some sort_directions
  end.

(** The [for] loop of [build_order_by_clause], from column number [i]
    on; [sort_directions[i]] raises IndexError out of range. *)
Fixpoint order_parts (sort_columns sort_directions : list string) (i : nat)
  : result (list string) :=
  match sort_columns with
  | [] => Ok []
  | column :: sort_columns' =>
      match sort_directions !! i with
      | None => Raise IndexError
      | Some direction =>
          let direction := PyStr.upper direction in
          let direction :=
            if existsb (String.eqb direction) ["ASC"; "DESC"] then direction
            else "ASC" in
          parts ← order_parts sort_columns' sort_directions (S i);
          Ok ((build_safe_column_name column +:+ " " +:+ direction) :: parts)
      end
  end.

(** [sort_directions] is [None] when the argument is left out. *)
Definition build_order_by_clause
    (sort_columns : list string) (sort_directions : option (list string))
  : option (result string) :=
  match sort_columns with
  | [] => Some (Ok "")
  | _ =>
      let sort_directions :=
        match sort_directions with
        | None => replicate (length sort_columns) "ASC"
        | Some sort_directions => sort_directions
        end in
      sort_directions ← pad_directions (S (length sort_columns))
                          sort_directions (length sort_columns);
      Some (order_parts ← order_parts sort_columns sort_directions 0;
            Ok ("ORDER BY " +:+ PyStr.join ", " order_parts))
  end.

(** ** The schema of the examples *)

(** The columns of the main table of [sample_query_parser] that the
    examples classify. *)
Definition sample_columns : list ColumnInfo :=
  [{| column_name := "name"; data_type := "text"; is_foreign_key := false |};
   {| column_name := "status"; data_type := "character varying(32)";
      is_foreign_key := false |};
   {| column_name := "size"; data_type := "integer"; is_foreign_key := false |};
   {| column_name := "category_id"; data_type := "integer";
      is_foreign_key := true |}].

Definition sample_schema_tables : gmap string (list ColumnInfo) :=
  {["entities" := sample_columns]}.

(** The navigation analysis of the examples as the generic search reads
    it. *)
Definition sample_search_navigation : SearchNavigation :=
  {| navigation_entities :=
       [{| key := "category"; referenced_table := "categories";
           entity_column_name := "category_id" |}];
     search_navigation_tables := navigation_tables sample_navigation;
     search_columns := sample_columns;
     search_primary_key := "entity_id" |}.

(** * Properties *)


Example strip_spaces : PyStr.strip "  a b  " = "a b".
Proof. reflexivity. Qed.

Example last5_short : PyStr.last_n 5 "name" = "name".
Proof. reflexivity. Qed.

Example drop5_name : PyStr.drop_last_n 5 "category_name" = "category".
Proof. reflexivity. Qed.

Example repr_plain : PyStr.repr "key" = "'key'".
Proof. reflexivity. Qed.

Example int_of_str_ok : PyStr.int_of_str 4300 " -1_000 " = Some (-1000)%Z.
Proof. reflexivity. Qed.

Example int_of_str_exp : PyStr.int_of_str 4300 "1e5" = None.
Proof. reflexivity. Qed.

(** [int] does not skip the separator FS, which [str.strip] removes. *)
Example int_of_str_separator :
  PyStr.int_of_str 4300 (String "028"%char "12") = None
  ∧ PyStr.strip (String "028"%char "12") = "12".
Proof. split; reflexivity. Qed.

(** [int] and [str.strip] skip the no-break space. *)
Example int_of_str_no_break_space :
  PyStr.int_of_str 4300 (String "160"%char "12") = Some 12%Z
  ∧ PyStr.strip (String "160"%char "12") = "12".
Proof. split; reflexivity. Qed.

Example int_of_str_underscores :
  PyStr.int_of_str 4300 "0_1" = Some 1%Z
  ∧ PyStr.int_of_str 4300 "1__0" = None
  ∧ PyStr.int_of_str 4300 "1_" = None
  ∧ PyStr.int_of_str 4300 "+ 1" = None
  ∧ PyStr.int_of_str 4300 "" = None.
Proof. repeat split. Qed.

Example lower_latin1 :
  PyStr.lower (String "201"%char "A") = String "233"%char "a".
Proof. reflexivity. Qed.

Example findall_two :
  PyRe.findall_quoted "a 'b c' d 'e'" = ["b c"; "e"].
Proof. reflexivity. Qed.

Example findall_unterminated : PyRe.findall_quoted "foo 'bar baz" = [].
Proof. reflexivity. Qed.

Example sub_keywords_ex :
  PyRe.sub_keywords "a AND b or c android" = "a   b   c android".
Proof. reflexivity. Qed.

Example sub_assignments_ex :
  PyRe.sub_assignments "x name = 'v' y" = "x   y".
Proof. reflexivity. Qed.

Example sub_spaces_ex : PyRe.sub_spaces "a   b  c" = "a b c".
Proof. reflexivity. Qed.

Example split_and_ex :
  PyRe.split_and "a=1  and  b AND AND c" = ["a=1"; "b"; "AND c"].
Proof. reflexivity. Qed.

Example uuid_ex :
  is_uuid_format " 123e4567-e89b-12d3-a456-426614174000 " = true.
Proof. reflexivity. Qed.

(** ** Text lemmas *)

Lemma append_cons (c : ascii) (a b : string) :
  String c a +:+ b = String c (a +:+ b).
Proof. reflexivity. Qed.

Lemma append_empty_l (a : string) : "" +:+ a = a.
Proof. reflexivity. Qed.

Lemma append_empty_r (a : string) : a +:+ "" = a.
Proof. induction a as [|c a IH]; [reflexivity|]. by rewrite append_cons, IH. Qed.

Lemma append_assoc (a b c : string) : (a +:+ b) +:+ c = a +:+ (b +:+ c).
Proof.
  induction a as [|x a IH]; [reflexivity|]. by rewrite !append_cons, IH.
Qed.

Lemma length_append (a b : string) :
  String.length (a +:+ b) = String.length a + String.length b.
Proof.
  induction a as [|x a IH]; [reflexivity|]. rewrite append_cons. simpl. lia.
Qed.

Lemma substring_skip (a b : string) (m : nat) :
  String.substring (String.length a) m (a +:+ b) = String.substring 0 m b.
Proof. induction a as [|x a IH]; [reflexivity|]. rewrite append_cons. exact IH. Qed.

Lemma substring_whole (b : string) :
  String.substring 0 (String.length b) b = b.
Proof. induction b as [|x b IH]; [reflexivity|]. simpl. by rewrite IH. Qed.

Lemma substring_prefix (a b : string) :
  String.substring 0 (String.length a) (a +:+ b) = a.
Proof.
  induction a as [|x a IH]; [by destruct b|]. rewrite append_cons. simpl.
  by rewrite IH.
Qed.

Lemma last_n_app (a b : string) :
  PyStr.last_n (String.length b) (a +:+ b) = b.
Proof.
  unfold PyStr.last_n. rewrite length_append.
  replace (String.length a + String.length b - String.length b)
    with (String.length a) by lia.
  rewrite substring_skip. apply substring_whole.
Qed.

Lemma drop_last_n_app (a b : string) :
  PyStr.drop_last_n (String.length b) (a +:+ b) = a.
Proof.
  unfold PyStr.drop_last_n. rewrite length_append.
  replace (String.length a + String.length b - String.length b)
    with (String.length a) by lia.
  apply substring_prefix.
Qed.

(** ** Placeholders in a text *)

Lemma dollar_free_app (a b : string) :
  dollar_free (a +:+ b) = dollar_free a && dollar_free b.
Proof.
  induction a as [|c a IH]; [reflexivity|].
  rewrite append_cons. cbn [dollar_free]. by rewrite IH, andb_assoc.
Qed.

Lemma dollar_free_app_intro (a b : string) :
  dollar_free a = true → dollar_free b = true → dollar_free (a +:+ b) = true.
Proof. intros Ha Hb. by rewrite dollar_free_app, Ha, Hb. Qed.

Lemma placeholders_go_dollar_free (a x : string) :
  dollar_free a = true →
  placeholders_go None (a +:+ x) = placeholders_go None x.
Proof.
  induction a as [|c a IH]; [reflexivity|].
  cbn [dollar_free]. intros [Hc Ha]%andb_true_iff.
  rewrite append_cons. cbn [placeholders_go].
  apply negb_true_iff in Hc. rewrite Hc. by apply IH.
Qed.

Lemma placeholders_dollar_free (a x : string) :
  dollar_free a = true → placeholders (a +:+ x) = placeholders x.
Proof. apply placeholders_go_dollar_free. Qed.

Lemma placeholders_none (a : string) :
  dollar_free a = true → placeholders a = [].
Proof.
  intros H. rewrite <- (append_empty_r a).
  by rewrite placeholders_dollar_free.
Qed.

Lemma placeholders_go_app (open : option string) (x r : string) :
  no_leading_digit r = true →
  placeholders_go open (x +:+ r)
  = placeholders_go open x ++ placeholders_go None r.
Proof.
  intros Hr. revert open. induction x as [|c x IH]; intros open.
  - rewrite append_empty_l. destruct r as [|c r].
    + cbn. by rewrite app_nil_r.
    + cbn [no_leading_digit] in Hr. apply negb_true_iff in Hr.
      destruct open as [digits|]; cbn [placeholders_go from_option].
      * by rewrite Hr.
      * reflexivity.
  - rewrite append_cons. cbn [placeholders_go].
    destruct open as [digits|].
    + destruct (PyStr.isdigit c); [apply IH|].
      rewrite <- app_assoc. f_equal.
      destruct (Ascii.eqb c "$"); apply IH.
    + destruct (Ascii.eqb c "$"); apply IH.
Qed.

Lemma placeholders_app (x r : string) :
  no_leading_digit r = true →
  placeholders (x +:+ r) = placeholders x ++ placeholders r.
Proof. apply placeholders_go_app. Qed.

Lemma placeholders_go_digits (acc ds r : string) :
  all_digits ds = true → no_leading_digit r = true →
  placeholders_go (Some acc) (ds +:+ r)
  = emit_digits (acc +:+ ds) ++ placeholders_go None r.
Proof.
  intros Hds Hr. revert acc. induction ds as [|c ds IH]; intros acc.
  - rewrite append_empty_l, append_empty_r.
    rewrite <- (append_empty_l r) at 1.
    rewrite (placeholders_go_app (Some acc) "" r Hr). reflexivity.
  - cbn [all_digits] in Hds. apply andb_true_iff in Hds as [Hc Hds].
    rewrite append_cons. cbn [placeholders_go]. rewrite Hc.
    rewrite (IH Hds). by rewrite append_assoc.
Qed.

Lemma pretty_N_char_digit (x : N) : (x < 10)%N → PyStr.isdigit (pretty_N_char x) = true.
Proof.
  intros H. unfold pretty_N_char.
  destruct x as [|p]; [reflexivity|].
  do 4 (destruct p as [p|p|]; try reflexivity; try lia).
Qed.

Lemma pretty_N_go_digits (x : N) (s : string) :
  all_digits s = true → all_digits (pretty_N_go x s) = true.
Proof.
  revert s. induction (N.lt_wf_0 x) as [x _ IH]; intros s Hs.
  assert (x = 0 ∨ 0 < x)%N as [-> | Hx] by lia; [by rewrite pretty_N_go_0|].
  rewrite pretty_N_go_step by done.
  apply IH; [by apply N.div_lt|].
  cbn [all_digits]. rewrite Hs, andb_true_r.
  apply pretty_N_char_digit. by apply N.mod_lt.
Qed.

Lemma pretty_N_go_nonempty (x : N) (s : string) :
  s ≠ "" → pretty_N_go x s ≠ "".
Proof.
  revert s. induction (N.lt_wf_0 x) as [x _ IH]; intros s Hs.
  assert (x = 0 ∨ 0 < x)%N as [-> | Hx] by lia; [by rewrite pretty_N_go_0|].
  rewrite pretty_N_go_step by done.
  apply IH; [by apply N.div_lt|done].
Qed.

Lemma str_int_digits (z : Z) :
  (0 ≤ z)%Z → all_digits (PyStr.str_int z) = true ∧ PyStr.str_int z ≠ "".
Proof.
  intros Hz. unfold PyStr.str_int, pretty, pretty_Z.
  destruct z as [|p|p]; [done| |lia].
  unfold pretty, pretty_positive, pretty, pretty_N.
  case_decide; [done|]. split.
  - by apply pretty_N_go_digits.
  - rewrite pretty_N_go_step by lia. by apply pretty_N_go_nonempty.
Qed.

Lemma placeholders_placeholder (n : Z) (r : string) :
  (0 ≤ n)%Z → no_leading_digit r = true →
  placeholders (placeholder_of n +:+ r) = PyStr.str_int n :: placeholders r.
Proof.
  intros Hn Hr. destruct (str_int_digits n Hn) as [Hd Hne].
  unfold placeholder_of, placeholders. rewrite append_assoc.
  change ("$" +:+ ?x) with (String "$" x). cbn [placeholders_go Ascii.eqb Bool.eqb].
  rewrite (placeholders_go_digits "" _ r Hd Hr). rewrite append_empty_l.
  destruct (PyStr.str_int n); done.
Qed.

Lemma placeholders_placeholder_end (n : Z) :
  (0 ≤ n)%Z → placeholders (placeholder_of n) = [PyStr.str_int n].
Proof.
  intros Hn. rewrite <- (append_empty_r (placeholder_of n)).
  by rewrite placeholders_placeholder.
Qed.

Lemma dollar_free_placeholders_app (a r : string) :
  dollar_free a = true → placeholders (a +:+ r) = placeholders r.
Proof. apply placeholders_dollar_free. Qed.

(** collapse *)
Lemma collapse_elem (l : list string) (x : string) : x ∈ collapse l ↔ x ∈ l.
Proof.
  induction l as [|a l IH]; [done|].
  cbn [collapse]. destruct l as [|b l]; [done|].
  destruct (String.eqb_spec a b) as [-> | Hne].
  - rewrite IH. rewrite !elem_of_cons. tauto.
  - rewrite !elem_of_cons, IH, !elem_of_cons. tauto.
Qed.

Lemma collapse_cons_ne (x : string) (l : list string) :
  head l ≠ Some x → collapse (x :: l) = x :: collapse l.
Proof.
  destruct l as [|y l]; [done|]. cbn [head collapse]. intros H.
  destruct (String.eqb_spec x y) as [-> | ?]; [done|reflexivity].
Qed.

Lemma collapse_head (l : list string) : head (collapse l) = head l.
Proof.
  induction l as [|a l IH]; [done|].
  cbn [collapse]. destruct l as [|b l]; [done|].
  destruct (String.eqb_spec a b) as [-> | Hne]; [|done].
  by rewrite IH.
Qed.

Lemma collapse_app (l1 l2 : list string) :
  (∀ x, x ∈ l1 → x ∉ l2) →
  collapse (l1 ++ l2) = collapse l1 ++ collapse l2.
Proof.
  intros Hdisj. induction l1 as [|a l1 IH]; [done|].
  assert (∀ x, x ∈ l1 → x ∉ l2) as Hdisj' by (intros x Hx; apply Hdisj; by right).
  destruct l1 as [|b l1].
  - cbn [app]. destruct l2 as [|c l2]; [done|].
    rewrite collapse_cons_ne; [done|].
    cbn. intros [= Hca]. subst. eapply Hdisj; by left.
  - change ((a :: b :: l1) ++ l2) with (a :: (b :: l1) ++ l2).
    cbn [collapse]. change ((b :: l1) ++ l2) with (b :: (l1 ++ l2)) at 1.
    cbn iota. destruct (String.eqb a b).
    + by rewrite (IH Hdisj').
    + change (b :: (l1 ++ l2)) with ((b :: l1) ++ l2). by rewrite (IH Hdisj').
Qed.

Lemma collapse_replicate (n : nat) (x : string) :
  collapse (replicate (S n) x) = [x].
Proof.
  induction n as [|n IH]; [done|].
  change (replicate (S (S n)) x) with (x :: replicate (S n) x).
  cbn [collapse]. change (replicate (S n) x) with (x :: replicate n x) at 1.
  cbn iota. by rewrite String.eqb_refl.
Qed.

Lemma numbering_app (k n m : nat) :
  numbering k (n + m) = numbering k n ++ numbering (k + n) m.
Proof.
  unfold numbering. rewrite seq_app, fmap_app. do 3 f_equal. 
Qed.

Lemma numbering_elem (k n : nat) (x : string) :
  x ∈ numbering k n ↔ ∃ i, k < i ≤ k + n ∧ x = PyStr.str_int (Z.of_nat i).
Proof.
  unfold numbering. rewrite list_elem_of_fmap. setoid_rewrite elem_of_seq.
  split; intros (i & ? & ?); exists i; split; try done; lia.
Qed.

Lemma numbering_disjoint (k n m : nat) (x : string) :
  x ∈ numbering k n → x ∉ numbering (k + n) m.
Proof.
  rewrite !numbering_elem. intros (i & Hi & ->) (j & Hj & Heq).
  apply (inj pretty) in Heq. lia.
Qed.

(** dollar-freeness of the pieces *)
Lemma dollar_free_substring (n m : nat) (s : string) :
  dollar_free s = true → dollar_free (String.substring n m s) = true.
Proof.
  revert n m. induction s as [|c s IH]; intros n m H.
  - by destruct n, m.
  - cbn [dollar_free] in H. apply andb_true_iff in H as [Hc Hs].
    destruct n as [|n]; [destruct m as [|m]; [done|]|]; cbn [String.substring].
    + cbn [dollar_free]. by rewrite Hc, IH.
    + by apply IH.
Qed.

Lemma dollar_free_base_field (first : string) :
  dollar_free first = true → dollar_free (base_field_of first) = true.
Proof.
  intros H. unfold base_field_of, PyStr.drop_last_n.
  case_match; [by apply dollar_free_substring|done].
Qed.

Lemma dollar_free_join (sep : string) (l : list string) :
  dollar_free sep = true → Forall (fun x => dollar_free x = true) l →
  dollar_free (PyStr.join sep l) = true.
Proof.
  intros Hsep Hl. unfold PyStr.join.
  induction Hl as [|x l Hx Hl IH]; [done|].
  cbn [String.concat]. destruct l as [|y l]; [done|].
  rewrite !dollar_free_app, Hx, Hsep. by rewrite IH.
Qed.

Lemma span_forall (p : ascii → bool) (s a : string) (q : ascii → bool) :
  (∀ c, p c = true → q c = true) →
  PyRe.span p s = (a, "") →
  (fix all s := match s with "" => true | String c s' => q c && all s' end) s = true.
Proof.
  intros Hpq. revert a. induction s as [|c s IH]; intros a; [done|].
  cbn [PyRe.span]. destruct (p c) eqn:Hc; [|done].
  destruct (PyRe.span p s) as [a' b'] eqn:Hs. intros [= <- ->].
  rewrite (Hpq c Hc). by apply (IH a').
Qed.

Lemma ident_char_no_dollar (c : ascii) :
  Lark.ident_char c = true → negb (Ascii.eqb c "$") = true.
Proof.
  destruct (Ascii.eqb_spec c "$") as [-> | ?]; [|done].
  vm_compute. done.
Qed.

Lemma ident_start_no_dollar (c : ascii) :
  Lark.ident_start c = true → negb (Ascii.eqb c "$") = true.
Proof.
  destruct (Ascii.eqb_spec c "$") as [-> | ?]; [|done].
  vm_compute. done.
Qed.

Lemma identifier_dollar_free (s : string) :
  is_identifier s = true → dollar_free s = true.
Proof.
  unfold is_identifier, Lark.identifier.
  destruct s as [|c s]; [done|].
  destruct (Lark.ident_start c) eqn:Hc; [|done].
  destruct (PyRe.span Lark.ident_char s) as [a b] eqn:Hs.
  destruct b; [|done]. intros _.
  cbn [dollar_free]. rewrite (ident_start_no_dollar c Hc).
  exact (span_forall _ s a (fun c => negb (Ascii.eqb c "$"))
           ident_char_no_dollar Hs).
Qed.

Lemma operator_dollar_free (op : string) :
  existsb (String.eqb op) Lark.operators = true → dollar_free op = true.
Proof.
  intros (x & Hx & Heq)%existsb_exists. apply String.eqb_eq in Heq as ->.
  unfold Lark.operators in Hx. cbn [In] in Hx.
  repeat (destruct Hx as [<- | Hx]; [reflexivity|]). done.
Qed.

Lemma identifiers_dollar_free (l : list string) :
  forallb is_identifier l = true → Forall (fun x => dollar_free x = true) l.
Proof.
  intros H. apply Forall_forall. intros x Hx.
  apply identifier_dollar_free.
  rewrite forallb_forall in H. apply H. by apply list_elem_of_In.
Qed.

Lemma values_dollar_free_lookup (m : gmap string string) (k v : string) :
  values_dollar_free m = true → m !! k = Some v → dollar_free v = true.
Proof.
  unfold values_dollar_free. rewrite forallb_forall. intros H Hkv.
  apply (H (k, v)). apply list_elem_of_In. by apply elem_of_map_to_list.
Qed.

Lemma Forall_removelast {A} (P : A → Prop) (l : list A) :
  Forall P l → Forall P (removelast l).
Proof.
  induction 1 as [|x l Hx Hl IH]; [constructor|].
  cbn [removelast]. destruct l; [constructor|]. by constructor.
Qed.

Lemma Forall_last {A} (P : A → Prop) (l : list A) (d : A) :
  P d → Forall P l → P (List.last l d).
Proof.
  intros Hd. induction 1 as [|x l Hx Hl IH]; [done|].
  cbn [List.last]. by destruct l.
Qed.

Lemma dollar_free_json_path (column : string) (path : list string) :
  dollar_free column = true →
  Forall (fun x => dollar_free x = true) path →
  dollar_free (json_path_sql column path) = true.
Proof.
  intros Hc Hp. unfold json_path_sql.
  assert (dollar_free
            (column +:+ "->" +:+ PyStr.join "->" (quoted_part <$> removelast path)
             +:+ "->>'" +:+ List.last path "" +:+ "'") = true) as Hlong.
  { rewrite !dollar_free_app, Hc.
    rewrite dollar_free_join; [|done|].
    - by rewrite (Forall_last (fun x => dollar_free x = true) path "").
    - apply Forall_fmap. eapply Forall_impl; [by apply Forall_removelast|].
      intros x Hx. cbn. unfold quoted_part. by rewrite !dollar_free_app, Hx. }
  destruct path as [|p [|p' path]]; [done| |done].
  apply Forall_inv in Hp. by rewrite !dollar_free_app, Hc, Hp.
Qed.

Lemma dollar_free_spaces (n : nat) : dollar_free (spaces n) = true.
Proof. induction n as [|n IH]; [done|]. exact IH. Qed.

Lemma dollar_free_map (g : ascii → ascii) (s : string) :
  (∀ c, Ascii.eqb (g c) "$" = Ascii.eqb c "$") →
  dollar_free (PyStr.map g s) = dollar_free s.
Proof.
  intros Hg. induction s as [|c s IH]; [done|].
  cbn [PyStr.map dollar_free]. by rewrite Hg, IH.
Qed.

Lemma upper_char_dollar (c : ascii) :
  Ascii.eqb (PyStr.upper_char c) "$" = Ascii.eqb c "$".
Proof. destruct c as [[] [] [] [] [] [] [] []]; reflexivity. Qed.

Lemma lower_char_dollar (c : ascii) :
  Ascii.eqb (PyStr.lower_char c) "$" = Ascii.eqb c "$".
Proof. destruct c as [[] [] [] [] [] [] [] []]; reflexivity. Qed.

Lemma dollar_free_upper (s : string) :
  dollar_free (PyStr.upper s) = dollar_free s.
Proof. apply dollar_free_map, upper_char_dollar. Qed.

Lemma dollar_free_lower (s : string) :
  dollar_free (PyStr.lower s) = dollar_free s.
Proof. apply dollar_free_map, lower_char_dollar. Qed.

Lemma dollar_free_split_char (d : ascii) (s : string) :
  dollar_free s = true →
  Forall (fun x => dollar_free x = true) (PyStr.split_char d s).
Proof.
  induction s as [|c s IH]; [by repeat constructor|].
  cbn [dollar_free PyStr.split_char]. intros [Hc Hs]%andb_true_iff.
  specialize (IH Hs). destruct (Ascii.eqb c d); [by constructor|].
  destruct (PyStr.split_char d s) as [|w ws]; [by repeat constructor; cbn; rewrite Hc|].
  apply Forall_cons in IH as [Hw Hws]. constructor; [|done].
  cbn [dollar_free]. by rewrite Hc, Hw.
Qed.

Lemma dollar_free_split_char_once (d : ascii) (s : string) :
  dollar_free s = true →
  Forall (fun x => dollar_free x = true) (PyStr.split_char_once d s).
Proof.
  induction s as [|c s IH]; [by repeat constructor|].
  cbn [dollar_free PyStr.split_char_once]. intros [Hc Hs]%andb_true_iff.
  specialize (IH Hs). destruct (Ascii.eqb c d); [by repeat constructor|].
  destruct (PyStr.split_char_once d s) as [|w ws]; [by repeat constructor; cbn; rewrite Hc|].
  apply Forall_cons in IH as [Hw Hws]. constructor; [|done].
  cbn [dollar_free]. by rewrite Hc, Hw.
Qed.

Lemma repr_escape_dollar_free (c : ascii) :
  negb (Ascii.eqb c "$") = true →
  negb (Ascii.eqb (PyStr.hex_digit (PyStr.code c / 16)) "$") = true
  ∧ negb (Ascii.eqb (PyStr.hex_digit (PyStr.code c mod 16)) "$") = true.
Proof. destruct c as [[] [] [] [] [] [] [] []]; by vm_compute. Qed.

Lemma dollar_free_repr_body (q : ascii) (s : string) :
  negb (Ascii.eqb q "$") = true → dollar_free s = true →
  dollar_free (PyStr.repr_body q s) = true.
Proof.
  intros Hq. induction s as [|c s IH]; [done|].
  cbn [dollar_free PyStr.repr_body]. intros [Hc Hs]%andb_true_iff.
  specialize (IH Hs). destruct (repr_escape_dollar_free c Hc) as [H1 H2].
  repeat case_match; cbn [dollar_free]; by rewrite ?Hc, ?H1, ?H2, ?IH.
Qed.

Lemma dollar_free_repr (s : string) :
  dollar_free s = true → dollar_free (PyStr.repr s) = true.
Proof.
  intros Hs. unfold PyStr.repr.
  case_match; cbn [dollar_free]; rewrite dollar_free_app,
    dollar_free_repr_body; done.
Qed.

Arguments json_path_sql : simpl never.


(** ** The parser of the examples yields grammar-shaped trees *)

Lemma span_fst (p : ascii → bool) (s a b : string) :
  PyRe.span p s = (a, b) → PyRe.span p a = (a, "").
Proof.
  revert a b. induction s as [|c s IH]; intros a b; cbn [PyRe.span].
  - by intros [= <- <-].
  - destruct (p c) eqn:Hc; [|by intros [= <- <-]].
    destruct (PyRe.span p s) as [a' b'] eqn:Hs. intros [= <- <-].
    cbn [PyRe.span]. by rewrite Hc, (IH a' b' eq_refl).
Qed.

Lemma identifier_is_identifier (s v r : string) :
  Lark.identifier s = Some (v, r) → is_identifier v = true.
Proof.
  unfold is_identifier, Lark.identifier. destruct s as [|c s]; [done|].
  destruct (Lark.ident_start c) eqn:Hc; [|done].
  destruct (PyRe.span Lark.ident_char s) as [a b] eqn:Hs.
  intros [= <- <-]. by rewrite Hc, (span_fst _ _ _ _ Hs).
Qed.

Lemma first_literal_In (lits : list string) (s lit rest : string) :
  Lark.first_literal lits s = Some (lit, rest) → In lit lits.
Proof.
  induction lits as [|l lits IH]; [done|]. cbn [Lark.first_literal].
  destruct (Lark.literal l s); [intros [= <- <-]; by left|].
  intros H. right. by apply IH.
Qed.

Lemma operator_is_operator (s op rest : string) :
  Lark.operator s = Some (op, rest) →
  existsb (String.eqb op) Lark.operators = true.
Proof.
  intros H%first_literal_In. apply existsb_exists. exists op.
  split; [done|apply String.eqb_refl].
Qed.

Lemma token_inv (type : token_type) (r : option (string * string))
    (tok : Token) (rest : string) :
  Lark.token type r = Some (tok, rest) →
  tok_type tok = type ∧ r = Some (tok_value tok, rest).
Proof.
  unfold Lark.token. destruct r as [[text rest']|]; [|done].
  cbv [mbind option_bind]. by intros [= <- <-].
Qed.

Lemma simple_token_identifier (s rest : string) (tok : Token) :
  Lark.simple_token s = Some (tok, rest) →
  tok_type tok = IDENTIFIER →
  is_identifier (tok_value tok) = true.
Proof.
  intros H Htype. unfold Lark.simple_token in H.
  repeat case_match; simplify_eq;
    match goal with
    | Ht : Lark.token _ _ = Some _ |- _ => apply token_inv in Ht as [Ht1 Ht2]
    end; try congruence.
  by eapply identifier_is_identifier.
Qed.

Lemma field_tail_grammar (fuel : nat) (s : string) (more : list string)
    (op rest : string) :
  Lark.field_tail fuel s = Some (more, op, rest) →
  forallb is_identifier more = true
  ∧ existsb (String.eqb op) Lark.operators = true.
Proof.
  revert s more op rest. induction fuel as [|fuel IH]; intros s more op rest;
    [done|].
  cbn [Lark.field_tail].
  destruct (Lark.literal "." (Lark.skip_ws s)) as [s1|].
  - destruct (Lark.identifier (Lark.skip_ws s1)) as [[part s2]|] eqn:Hid;
      [|done].
    cbv [mbind option_bind]; cbv beta iota.
    destruct (Lark.field_tail fuel s2) as [[[m o] r]|] eqn:Hft; [|done].
    cbv [mbind option_bind]; cbv beta iota. intros [= <- <- <-].
    destruct (IH _ _ _ _ Hft) as [Hm Ho]. split; [|done].
    cbn [forallb]. by rewrite (identifier_is_identifier _ _ _ Hid), Hm.
  - destruct (Lark.operator (Lark.skip_ws s)) as [[o r]|] eqn:Hop; [|done].
    cbv [mbind option_bind]; cbv beta iota. intros [= <- <- <-].
    split; [done|]. by eapply operator_is_operator.
Qed.

Lemma atom_grammar (s rest : string) (tree : Tree) :
  Lark.atom s = Some (tree, rest) → grammar_tree tree = true.
Proof.
  unfold Lark.atom.
  destruct (Lark.simple_token s) as [[tok r]|] eqn:Htok; [|done].
  cbv [mbind option_bind]; cbv beta iota.
  destruct (tok_type tok) eqn:Htype; try by intros [= <- <-].
  destruct (Lark.field_tail _ r) as [[[more op] r']|] eqn:Hft.
  - destruct (Lark.optional_value r') as [val r'']. intros [= <- <-].
    destruct (field_tail_grammar _ _ _ _ _ Hft) as [Hm Ho].
    cbn [grammar_tree forallb].
    by rewrite (simple_token_identifier _ _ _ Htok Htype), Hm, Ho.
  - destruct (Lark.literal "." _); [done|]. by intros [= <- <-].
Qed.

Lemma parser_grammar (fuel : nat) :
  (∀ s t r, Lark.expr fuel s = Some (t, r) → grammar_tree t = true)
  ∧ (∀ lhs s t r, grammar_tree lhs = true →
       Lark.expr_rest fuel lhs s = Some (t, r) → grammar_tree t = true)
  ∧ (∀ s t r, Lark.term fuel s = Some (t, r) → grammar_tree t = true)
  ∧ (∀ lhs s t r, grammar_tree lhs = true →
       Lark.term_rest fuel lhs s = Some (t, r) → grammar_tree t = true)
  ∧ (∀ s t r, Lark.factor fuel s = Some (t, r) → grammar_tree t = true)
  ∧ (∀ s t r, Lark.item fuel s = Some (t, r) → grammar_tree t = true).
Proof.
  induction fuel as [|fuel (IHe & IHer & IHt & IHtr & IHf & IHi)];
    [by repeat split|].
  repeat split.
  - intros s t r. cbn [Lark.expr].
    destruct (Lark.term fuel s) as [[lhs rest]|] eqn:Hl; [|done].
    cbv [mbind option_bind]; cbv beta iota. apply IHer. by eapply IHt.
  - intros lhs s t r Hlhs. cbn [Lark.expr_rest].
    destruct (Lark.literal "OR" _) as [s1|]; [|by intros [= <- <-]].
    destruct (Lark.term fuel s1) as [[rhs rest]|] eqn:Hr; [|done].
    cbv [mbind option_bind]; cbv beta iota. apply IHer. cbn [grammar_tree].
    by rewrite Hlhs, (IHt _ _ _ Hr).
  - intros s t r. cbn [Lark.term].
    destruct (Lark.factor fuel s) as [[lhs rest]|] eqn:Hl; [|done].
    cbv [mbind option_bind]; cbv beta iota. apply IHtr. by eapply IHf.
  - intros lhs s t r Hlhs. cbn [Lark.term_rest].
    destruct (Lark.literal "AND" _) as [s1|]; [|by intros [= <- <-]].
    destruct (Lark.factor fuel s1) as [[rhs rest]|] eqn:Hr; [|done].
    cbv [mbind option_bind]; cbv beta iota. apply IHtr. cbn [grammar_tree].
    by rewrite Hlhs, (IHf _ _ _ Hr).
  - intros s t r. cbn [Lark.factor].
    destruct (Lark.literal "NOT" _) as [s1|]; [|apply IHi].
    destruct (Lark.item fuel s1) as [[i rest]|] eqn:Hi; [|done].
    cbv [mbind option_bind]; cbv beta iota. intros [= <- <-].
    cbn [grammar_tree]. by eapply IHi.
  - intros s t r. cbn [Lark.item].
    destruct (Lark.literal "(" _) as [s1|]; [|apply atom_grammar].
    destruct (Lark.expr fuel s1) as [[e rest]|] eqn:He; [|done].
    cbv [mbind option_bind]; cbv beta iota.
    destruct (Lark.literal ")" _); [|done].
    cbv [mbind option_bind]; cbv beta iota. intros [= <- <-]. by eapply IHe.
Qed.

Lemma parse_grammar (text : string) (tree : Tree) :
  Lark.parse text = Some tree → grammar_tree tree = true.
Proof.
  unfold Lark.parse.
  destruct (Lark.expr _ text) as [[t rest]|] eqn:He; [|done].
  cbv [mbind option_bind]; cbv beta iota. destruct (Lark.skip_ws rest); [|done].
  intros [= <-]. by eapply (proj1 (parser_grammar _)).
Qed.


(** Blank texts are rejected by the parser. *)
Lemma rstrip_empty (p : ascii → bool) (s : string) :
  PyStr.rstrip_by p s = "" →
  (fix all s := match s with "" => true | String c s' => p c && all s' end) s
  = true.
Proof.
  induction s as [|c s IH]; [done|]. cbn [PyStr.rstrip_by].
  destruct (PyStr.rstrip_by p s) as [|d r]; [|done].
  destruct (p c); [|done]. intros _. by rewrite IH.
Qed.

Lemma strip_empty_all_whitespace (s : string) :
  PyStr.strip s = "" → all_whitespace s = true.
Proof.
  unfold PyStr.strip, PyStr.strip_by.
  induction s as [|c s IH]; [done|].
  cbn [PyStr.lstrip_by all_whitespace].
  destruct (PyStr.isspace c) eqn:Hc; [exact IH|].
  intros H%rstrip_empty. cbn in H. by rewrite Hc in H.
Qed.

Lemma all_whitespace_span (p : ascii → bool) (s : string) :
  all_whitespace s = true → all_whitespace (PyRe.span p s).2 = true.
Proof.
  induction s as [|c s IH]; [done|]. cbn [all_whitespace PyRe.span].
  intros [Hc Hs]%andb_true_iff. destruct (p c).
  - destruct (PyRe.span p s) as [a b]. by apply IH.
  - cbn [snd all_whitespace]. by rewrite Hc, Hs.
Qed.

Lemma space_char_starts_no_token (c : ascii) :
  PyStr.isspace c = true →
  Lark.ident_start c = false ∧ PyStr.is_quote c = false
  ∧ Lark.is_sign c = false ∧ PyStr.isdigit c = false
  ∧ PyStr.ishex c = false ∧ Ascii.eqb "." c = false
  ∧ Ascii.eqb "*" c = false ∧ Ascii.eqb "(" c = false
  ∧ Ascii.eqb "N" c = false.
Proof. destruct c as [[] [] [] [] [] [] [] []]; by vm_compute. Qed.

Lemma simple_token_blank (s : string) :
  all_whitespace s = true → Lark.simple_token s = None.
Proof.
  destruct s as [|c s]; [done|]. cbn [all_whitespace].
  intros [Hc _]%andb_true_iff.
  destruct (space_char_starts_no_token c Hc)
    as (H1 & H2 & H3 & H4 & H5 & H6 & H7 & _).
  unfold Lark.simple_token, Lark.identifier, Lark.quoted_string,
    Lark.signed_number, Lark.number, Lark.uuid.
  cbn [PyRe.span PyRe.hex_run Lark.first_literal Lark.literal].
  rewrite H1, H2, H3, H4, H5, H7. cbn.
  destruct (Ascii.eqb_spec c ".") as [-> | Hne]; [done|].
  destruct c as [[] [] [] [] [] [] [] []]; done.
Qed.

Lemma factor_blank (fuel : nat) (s : string) :
  all_whitespace s = true → Lark.factor fuel s = None.
Proof.
  intros Hs. destruct fuel as [|fuel]; [done|]. cbn [Lark.factor].
  pose proof (all_whitespace_span Lark.is_ws s Hs) as Hskip.
  fold (Lark.skip_ws s) in Hskip.
  assert (∀ lit c, all_whitespace (Lark.skip_ws s) = true →
            Ascii.eqb c "N" = true ∨ Ascii.eqb c "(" = true →
            Lark.literal (String c lit) (Lark.skip_ws s) = None) as Hlit.
  { intros lit c0 Hw Hc0. destruct (Lark.skip_ws s) as [|c r]; [done|].
    cbn [all_whitespace] in Hw. apply andb_true_iff in Hw as [Hc _].
    destruct (space_char_starts_no_token c Hc)
      as (_ & _ & _ & _ & _ & _ & _ & H8 & H9).
    cbn [Lark.literal].
    destruct Hc0 as [->%Ascii.eqb_eq | ->%Ascii.eqb_eq]; by rewrite ?H8, ?H9. }
  rewrite (Hlit "OT" "N"%char) by (done || by left).
  destruct fuel as [|fuel]; [done|]. cbn [Lark.item].
  rewrite (Hlit "" "("%char) by (done || by right).
  unfold Lark.atom. by rewrite simple_token_blank.
Qed.

Lemma expr_blank (fuel : nat) (s : string) :
  all_whitespace s = true → Lark.expr fuel s = None.
Proof.
  intros Hs. destruct fuel as [|fuel]; [done|]. cbn [Lark.expr].
  destruct fuel as [|fuel]; [done|]. cbn [Lark.term].
  by rewrite factor_blank.
Qed.

Lemma parse_blank (text : string) :
  PyStr.strip text = "" → Lark.parse text = None.
Proof.
  intros H%strip_empty_all_whitespace. unfold Lark.parse.
  by rewrite expr_blank.
Qed.

Section Properties.

Context {rt : Runtime}.
Implicit Types (t : @SqlTranslator rt) (qp : @QueryParser rt).
Implicit Types (f : Field) (v : @value rt) (node : @AstNode rt).
Implicit Types (val : option (@value rt)).

(** ** The lookup key *)

Lemma base_field_of_suffix (X : string) : base_field_of (X +:+ "_name") = X.
Proof.
  unfold base_field_of.
  change 5 with (String.length "_name").
  rewrite last_n_app, drop_last_n_app. reflexivity.
Qed.

Lemma base_field_of_plain (X : string) :
  PyStr.last_n 5 X ≠ "_name" → base_field_of X = X.
Proof.
  intros H. unfold base_field_of.
  destruct (String.eqb_spec (PyStr.last_n 5 X) "_name"); [done|reflexivity].
Qed.

Lemma to_sql_name_suffix (X : string) (rest : list string)
    (sm : gmap string string) val (op : option string)
    (amf sf idf ef : gset string) :
  PyStr.last_n 5 X ≠ "_name" →
  truthy (sm !! X) = true ∨ X ∈ ef →
  to_sql {| parts := (X +:+ "_name") :: rest |} sm val op amf sf idf ef
  = to_sql {| parts := X :: rest |} sm val op amf sf idf ef.
Proof.
  intros Hplain Hknown. unfold to_sql. cbn [parts].
  rewrite base_field_of_suffix, (base_field_of_plain X Hplain).
  destruct (_validate_operation_compatibility X op val amf sf idf);
    [|reflexivity].
  cbn [mbind result_bind rbind].
  destruct (truthy (sm !! X)) eqn:Htruthy; [reflexivity|].
  destruct Hknown as [?|Hef]; [done|].
  unfold mem. rewrite (bool_decide_eq_true_2 _ Hef). reflexivity.
Qed.

(** C8 (amended).  A first segment [X_name] is looked up under the key
    [X]: exactly one trailing [_name] is removed before the schema
    lookup.  When [X] does not itself end in [_name], the field named [X]
    has the same lookup key, and the two fields resolve to the same SQL
    whenever that key is a column of the schema mapping or a navigation
    entity. *)
Theorem name_suffix_stripped_once (X : string) (rest : list string)
    (sm : gmap string string) val (op : option string)
    (amf sf idf ef : gset string) :
  base_field_of (X +:+ "_name") = X
  ∧ (PyStr.last_n 5 X ≠ "_name" →
     base_field_of (X +:+ "_name") = base_field_of X
     ∧ (truthy (sm !! X) = true ∨ X ∈ ef →
        to_sql {| parts := (X +:+ "_name") :: rest |} sm val op amf sf idf ef
        = to_sql {| parts := X :: rest |} sm val op amf sf idf ef)).
Proof.
  split; [apply base_field_of_suffix|].
  intros H. split.
  - by rewrite base_field_of_suffix, base_field_of_plain.
  - by apply to_sql_name_suffix.
Qed.

(** ** Validation *)




(** What the validation can raise: an [invalid_operation] error or the
    overflow of [int] on an infinite float. *)
Lemma validation_error_kind
    (name : string) (op : option string) val
    (amf sf idf : gset string) (e : exn) :
  _validate_operation_compatibility name op val amf sf idf = Raise e →
  error_type_of e = Some "invalid_operation" ∨ e = OverflowError.
Proof.
  unfold _validate_operation_compatibility, _validate_metadata_operation.
  intros H.
  repeat (case_match; simplify_eq/=; try (by left); try (by right)).
Qed.

Lemma validation_without_comparison
    (name : string) (op : option string) val
    (amf sf idf : gset string) :
  op = None ∨ val = None →
  _validate_operation_compatibility name op val amf sf idf = Ok tt.
Proof.
  intros [-> | ->]; unfold _validate_operation_compatibility;
    by repeat case_match.
Qed.

(** ** Unknown fields *)

Lemma sorted_names_elem (l : list string) (x : string) :
  x ∈ sorted_names l ↔ x ∈ l.
Proof. unfold sorted_names. by rewrite merge_sort_Permutation. Qed.

Lemma to_sql_unknown f (first : string) (rest : list string)
    (sm : gmap string string) val (op : option string)
    (amf sf idf ef : gset string) :
  parts f = first :: rest →
  sm !! base_field_of first = None →
  base_field_of first ∉ ef →
  base_field_of first ∉ amf →
  to_sql f sm val op amf sf idf ef
  = match _validate_operation_compatibility
            (base_field_of first) op val amf sf idf with
    | Ok _ => Raise (invalid_field_error f sm amf)
    | Raise e => Raise e
    end.
Proof.
  intros Hparts Hsm Hef Hamf. unfold to_sql. rewrite Hparts, Hsm.
  destruct (_validate_operation_compatibility _ _ _ _ _ _); [|reflexivity].
  cbn [mbind result_bind rbind truthy]. unfold mem.
  by rewrite (bool_decide_eq_false_2 _ Hef), (bool_decide_eq_false_2 _ Hamf).
Qed.

(** What the validation can raise: an [invalid_operation] error that
    names the field and the operator, or the overflow of [int] on an
    infinite float. *)
Lemma validation_error_shape
    (name : string) (op : option string) val
    (amf sf idf : gset string) (e : exn) :
  _validate_operation_compatibility name op val amf sf idf = Raise e →
  (∃ message user_message,
     e = SearchValidationError message "invalid_operation" (Some name) op
           (Some user_message))
  ∨ (e = OverflowError
     ∧ ∃ x, val = Some (VFloat x) ∧ float_to_int rt x = IntOverflowError).
Proof.
  unfold _validate_operation_compatibility, _validate_metadata_operation.
  intros H.
  repeat (case_match; simplify_eq/=; eauto).
Qed.

(** C6 (amended).  A field whose lookup key is no key of the schema
    mapping, no navigation entity and no metadata field never resolves to
    SQL: [to_sql] raises.  The validation of operator and value runs
    first.  When it accepts (always when there is no operator or no
    value), the error is [invalid_field], names the dotted path in its
    message and as its field name, and its user message lists the first
    ten of the known field names in sorted order (all of them when there
    are at most ten, followed by [...] when there are more).  When it
    rejects, its own error is raised instead: an [invalid_operation]
    error naming the lookup key and the operator, or, on the one input
    left aside, an infinite float compared on an id field, the overflow
    of [int]. *)
Theorem unknown_field_is_rejected f (first : string) (rest : list string)
    (sm : gmap string string) val (op : option string)
    (amf sf idf ef : gset string) :
  parts f = first :: rest →
  sm !! base_field_of first = None →
  base_field_of first ∉ ef →
  base_field_of first ∉ amf →
  let path := PyStr.join "." (parts f) in
  let known := (map_to_list sm).*1 ++ elements amf in
  let validation :=
    _validate_operation_compatibility (base_field_of first) op val amf sf idf in
  ∃ e, to_sql f sm val op amf sf idf ef = Raise e
    ∧ (validation = Ok tt →
       ∃ suggestions : list string,
         e = SearchValidationError
               ("Field '" +:+ path +:+
                "' does not exist in the database schema or metadata")
               "invalid_field" (Some path) None
               (Some ("The field '" +:+ path +:+
                      "' is not available for searching. Available fields include: "
                      +:+ PyStr.join ", " suggestions
                      +:+ (if 10 <? length known then "..." else "")))
         ∧ suggestions = take 10 (sorted_names known)
         ∧ length suggestions = length known `min` 10
         ∧ ∀ x, x ∈ suggestions → x ∈ dom sm ∨ x ∈ amf)
    ∧ (∀ e', validation = Raise e' →
         e = e'
         ∧ ((∃ message user_message,
               e' = SearchValidationError message "invalid_operation"
                      (Some (base_field_of first)) op (Some user_message))
            ∨ (e' = OverflowError
               ∧ ∃ x, val = Some (VFloat x)
                      ∧ float_to_int rt x = IntOverflowError)))
    ∧ (op = None ∨ val = None → validation = Ok tt).
Proof.
  intros Hparts Hsm Hef Hamf path known validation.
  pose proof (to_sql_unknown f first rest sm val op amf sf idf ef
                Hparts Hsm Hef Hamf) as Hto.
  fold validation in Hto.
  destruct validation as [[]|e0] eqn:Hval.
  - eexists. split; [exact Hto|]. split; [|split; [done|]].
    + intros _. exists (take 10 (sorted_names known)).
      split; [reflexivity|]. split; [reflexivity|]. split.
      * rewrite length_take. unfold sorted_names.
        rewrite merge_sort_Permutation. lia.
      * intros x Hx. apply elem_of_take in Hx as (i & Hx & _).
        apply list_elem_of_lookup_2 in Hx.
        apply sorted_names_elem, elem_of_app in Hx as [Hx|Hx].
        -- left. apply list_elem_of_fmap in Hx as ([k w] & -> & Hkw).
           apply elem_of_map_to_list in Hkw. apply elem_of_dom. by exists w.
        -- right. by apply elem_of_elements in Hx.
    + intros _. reflexivity.
  - exists e0. split; [exact Hto|]. split; [done|]. split.
    + intros e' [= <-]. split; [done|].
      eapply validation_error_shape. exact Hval.
    + intros Hnone.
      pose proof (validation_without_comparison (base_field_of first) op val
                    amf sf idf Hnone) as Hok.
      unfold validation in Hval. congruence.
Qed.

(** ** Existence tests on metadata keys *)




(** ** The NULL guard of the last-edited field *)

Lemma null_guarded_op_cases (op : string) :
  op ∈ null_guarded_ops →
  op = ">" ∨ op = "<" ∨ op = ">=" ∨ op = "<=" ∨ op = "!=".
Proof.
  unfold null_guarded_ops. rewrite !elem_of_cons, elem_of_nil. tauto.
Qed.

(** C2 (amended).  On the last-edited field (first segment
    [last_edited_at], or a resolved expression ending in it) with a
    value, once the field resolves to [F]: the operators [>], [<], [>=],
    [<=] and [!=] give [(F IS NOT NULL AND F op $n)]; the operators [=],
    [=~] and [!~] give the bare predicates [F = $n], [F ~* $n] and
    [F !~* $n], without a guard.  In each case one placeholder is taken
    and one parameter appended. *)
Theorem last_edited_null_guard t f (first : string) (rest : list string)
    (op : string) v (F : string) :
  parts f = first :: rest →
  first = "last_edited_at" ∨ PyStr.endswith F "last_edited_at" = true →
  to_sql f (t_schema_mapping t) (Some v) (Some op)
    (t_available_metadata_fields t) (t_string_fields t) (t_id_fields t)
    (t_entity_fields t) = Ok F →
  let placeholder := placeholder_of (t_param_index t + 1) in
  ∃ p,
    (op ∈ null_guarded_ops →
     translate (Comparison f op (Some v)) t
     = (Ok ("(" +:+ F +:+ " IS NOT NULL AND " +:+ F +:+ " " +:+ op +:+ " "
            +:+ placeholder +:+ ")"),
        append_param p (add_index 1 t)))
    ∧ (op = "=" →
       translate (Comparison f op (Some v)) t
       = (Ok (F +:+ " = " +:+ placeholder), append_param p (add_index 1 t)))
    ∧ (op = "=~" →
       translate (Comparison f op (Some v)) t
       = (Ok (F +:+ " ~* " +:+ placeholder), append_param p (add_index 1 t)))
    ∧ (op = "!~" →
       translate (Comparison f op (Some v)) t
       = (Ok (F +:+ " !~* " +:+ placeholder), append_param p (add_index 1 t))).
Proof.
  intros Hparts Hlast Hto placeholder.
  assert (String.eqb first "last_edited_at"
          || PyStr.endswith F "last_edited_at" = true) as Hflag.
  { destruct Hlast as [-> | ->]; [reflexivity|apply orb_true_r]. }
  exists (date_param op true (comparison_operator op (Some v) true).2).
  cbn [translate]. unfold _translate_comparison. rewrite Hto, Hparts, Hflag.
  split; [intros Hop; apply null_guarded_op_cases in Hop
          as [-> | [-> | [-> | [-> | ->]]]]|];
    [by destruct v..|].
  split; [|split]; intros ->; by destruct v.
Qed.

(** ** Determinism *)

(** C9.  Two translations of the same node, each from a translator reset
    with the same schema context, give the same SQL text and the same
    parameter list, whatever state the two translator objects were in
    before their reset. *)
Theorem translate_after_reset_deterministic node t1 t2
    (sm : gmap string string) (gsf : list string)
    (amf sf idf ef : gset string) :
  let fresh t := reset t sm (Some gsf) (Some amf) (Some sf) (Some idf) (Some ef) in
  (translate node (fresh t1)).1 = (translate node (fresh t2)).1
  ∧ t_params (translate node (fresh t1)).2
    = t_params (translate node (fresh t2)).2.
Proof. split; reflexivity. Qed.

(** The same at the level of [parse_query]: what it returns does not
    depend on the state its translator object was left in. *)
Lemma reset_with_translator qp t (sm : gmap string string) (gsf : list string)
    (amf sf idf ef : gset string) :
  reset (qp_translator (with_translator qp t)) sm (Some gsf) (Some amf)
    (Some sf) (Some idf) (Some ef)
  = reset SqlTranslator_init sm (Some gsf) (Some amf) (Some sf) (Some idf)
      (Some ef).
Proof. reflexivity. Qed.

Lemma hybrid_loop_with_translator qp t0 (part_list : list string) t :
  hybrid_loop (with_translator qp t0) part_list t = hybrid_loop qp part_list t.
Proof.
  revert t. induction part_list as [|part part_list IH]; intros t;
    [reflexivity|].
  cbn [hybrid_loop].
  change (parse_ast (with_translator qp t0) part) with (parse_ast qp part).
  destruct (parse_ast qp part) as [ast|].
  - destruct (translate ast t) as [[clause|e] t1]; [|reflexivity].
    by rewrite IH.
  - by rewrite IH.
Qed.

Lemma hybrid_result_parser qp (query_string : string) :
  ∃ t, (_build_hybrid_search_clause qp query_string).2 = with_translator qp t.
Proof.
  unfold _build_hybrid_search_clause.
  destruct (_build_dynamic_global_search_fields qp _) as [gsf|e].
  - destruct (hybrid_loop qp _ _) as [[[vc fs]|e] t]; [|by eexists].
    exists t. by repeat case_match.
  - exists (qp_translator qp). by destruct qp.
Qed.

Lemma hybrid_ignores_translator_state qp t1 t2 (query_string : string) :
  (_build_hybrid_search_clause (with_translator qp t1) query_string).1
  = (_build_hybrid_search_clause (with_translator qp t2) query_string).1.
Proof.
  unfold _build_hybrid_search_clause.
  change (hybrid_parts query_string) with (hybrid_parts query_string).
  change (parse_ast (with_translator qp t1)) with (parse_ast qp).
  change (parse_ast (with_translator qp t2)) with (parse_ast qp).
  change (_build_dynamic_global_search_fields (with_translator qp t1))
    with (_build_dynamic_global_search_fields qp).
  change (_build_dynamic_global_search_fields (with_translator qp t2))
    with (_build_dynamic_global_search_fields qp).
  destruct (_build_dynamic_global_search_fields qp _) as [gsf|e];
    [|reflexivity].
  rewrite !hybrid_loop_with_translator.
  cbn [qp_schema_mapping qp_available_metadata_fields qp_string_fields
         qp_id_fields qp_entity_fields with_translator].
  rewrite !reset_with_translator.
  destruct (hybrid_loop qp _ _) as [[[vc fs]|e] t]; [|reflexivity].
  by repeat case_match.
Qed.

Lemma parse_query_ignores_translator_state qp t1 t2
    (query_string sort_by sort_order : string) :
  (parse_query (with_translator qp t1) query_string sort_by sort_order).1
  = (parse_query (with_translator qp t2) query_string sort_by sort_order).1.
Proof.
  unfold parse_query. cbn [qp_schema_mapping with_translator].
  destruct (bool_decide _); [reflexivity|].
  destruct (String.eqb _ _); [reflexivity|].
  change (parse_ast (with_translator qp t1) query_string)
    with (parse_ast qp query_string).
  change (parse_ast (with_translator qp t2) query_string)
    with (parse_ast qp query_string).
  destruct (parse_ast qp query_string) as [ast|].
  - change (_build_dynamic_global_search_fields (with_translator qp t1))
      with (_build_dynamic_global_search_fields qp).
    change (_build_dynamic_global_search_fields (with_translator qp t2))
      with (_build_dynamic_global_search_fields qp).
    destruct (_build_dynamic_global_search_fields qp _) as [gsf|e];
      [|reflexivity].
    cbn [qp_available_metadata_fields qp_string_fields qp_id_fields
           qp_entity_fields with_translator].
    rewrite !reset_with_translator.
    destruct (translate ast _) as [[where_clause|e] t]; reflexivity.
  - pose proof (hybrid_ignores_translator_state qp t1 t2 query_string) as Hh.
    destruct (hybrid_result_parser (with_translator qp t1) query_string)
      as [t1' H1].
    destruct (hybrid_result_parser (with_translator qp t2) query_string)
      as [t2' H2].
    destruct (_build_hybrid_search_clause (with_translator qp t1) query_string)
      as [h1 q1].
    destruct (_build_hybrid_search_clause (with_translator qp t2) query_string)
      as [h2 q2].
    cbn [fst snd] in Hh, H1, H2. subst h2 q1 q2.
    change (_build_fuzzy_search_clause
              (with_translator (with_translator qp t1) t1'))
      with (_build_fuzzy_search_clause qp).
    change (_build_fuzzy_search_clause
              (with_translator (with_translator qp t2) t2'))
      with (_build_fuzzy_search_clause qp).
    destruct (match h1 with Ok r => Ok r | Raise _ => _ end) as [[w ps]|e];
      reflexivity.
Qed.

(** ** [parse_query] before [setup] *)

(** C10.  While the schema mapping is empty, [parse_query] raises the
    runtime error at once, for every query and sort arguments; no SQL is
    built and the parser object is left as it was. *)
Theorem parse_query_requires_setup qp (query_string sort_by sort_order : string) :
  qp_schema_mapping qp = ∅ →
  parse_query qp query_string sort_by sort_order
  = (Raise (RuntimeError "QueryParser not set up."), qp).
Proof.
  intros H. unfold parse_query. by rewrite (bool_decide_eq_true_2 _ H).
Qed.

(** ** The empty query *)

Lemma strip_all_whitespace (s : string) :
  all_whitespace s = true → PyStr.strip s = "".
Proof.
  unfold PyStr.strip, PyStr.strip_by.
  induction s as [|c s IH]; [reflexivity|].
  cbn [all_whitespace PyStr.lstrip_by].
  intros [Hc Hs]%andb_true_iff. rewrite Hc. by apply IH.
Qed.

Lemma order_by_name_asc qp (na : NavigationAnalysis) (col : string) :
  qp_schema_mapping qp !! "name" = Some col →
  col ≠ "" →
  qp_navigation_analysis qp = Some na →
  _build_order_by_clause qp "name" "asc"
  = Ok ("ORDER BY " +:+ col +:+ " ASC, d."
        +:+ main_primary_key (main_table_schema na) +:+ " ASC").
Proof.
  intros Hcol Hne Hna. unfold _build_order_by_clause, to_sql.
  rewrite Hna. cbn [parts].
  change (base_field_of "name") with "name". rewrite Hcol.
  destruct col as [|c col]; [done|]. cbn.
  by rewrite !append_assoc.
Qed.

(** C4.  For an empty or all-whitespace query, sorted by [name]
    ascending, on a parser that is set up ([name] is a column of the
    schema mapping, the navigation analysis is there and the select list
    builds): the parameter list is empty, the count query is the bare
    [SELECT COUNT] on the main table, the search query consists of the
    SELECT list, the FROM and JOIN text and the ORDER BY clause, with no
    WHERE part in between, and the ORDER BY clause is the name column
    ascending, then the main table's primary key ascending. *)
Theorem empty_query_is_unfiltered qp (query_string : string)
    (na : NavigationAnalysis) (col select_fields : string) :
  all_whitespace query_string = true →
  qp_schema_mapping qp !! "name" = Some col →
  col ≠ "" →
  qp_navigation_analysis qp = Some na →
  _build_dynamic_select_fields qp = Ok select_fields →
  parse_query qp query_string "name" "asc"
  = (Ok ("SELECT COUNT(*) FROM " +:+ qp_main_table qp,
         unfiltered_select select_fields (qp_from_and_joins qp)
           ("ORDER BY " +:+ col +:+ " ASC, d."
            +:+ main_primary_key (main_table_schema na) +:+ " ASC"),
         []),
     qp).
Proof.
  intros Hws Hcol Hne Hna Hsel. unfold parse_query.
  rewrite bool_decide_eq_false_2.
  2:{ intros Hempty. rewrite Hempty, lookup_empty in Hcol. done. }
  rewrite (strip_all_whitespace _ Hws). cbn [String.eqb].
  rewrite Hsel, (order_by_name_asc qp na col Hcol Hne Hna). reflexivity.
Qed.

(** ** Recovery *)

Lemma for_tables_ext (body1 body2 : string → TableInfo → result string)
    (tables : list (string * TableInfo)) :
  (∀ k i, body1 k i = body2 k i) →
  for_tables body1 tables = for_tables body2 tables.
Proof.
  intros H. induction tables as [|[k i] tables IH]; [reflexivity|].
  cbn [for_tables]. by rewrite H, IH.
Qed.

(** Whether the loop over the navigation tables succeeds depends on the
    aliases only, not on the text built for each table. *)
Lemma for_tables_alias_ok qp (text1 text2 : string → string → TableInfo → string)
    (tables : list (string * TableInfo)) (l1 : list string) :
  for_tables (fun k i => alias ← alias_of qp k; Ok (text1 alias k i)) tables
  = Ok l1 →
  ∃ l2,
    for_tables (fun k i => alias ← alias_of qp k; Ok (text2 alias k i)) tables
    = Ok l2.
Proof.
  revert l1. induction tables as [|[k i] tables IH]; intros l1.
  - eauto.
  - cbn [for_tables]. destruct (alias_of qp k) as [a|e]; [|done].
    cbn [mbind result_bind rbind].
    destruct (for_tables _ tables) as [l|e] eqn:H1; [|done].
    destruct (IH l eq_refl) as [l2 ->]. eauto.
Qed.

Lemma global_search_fields_ok qp (term1 term2 : string) (l1 : list string) :
  _build_dynamic_global_search_fields qp term1 = Ok l1 →
  (∃ l2, _build_dynamic_global_search_fields qp term2 = Ok l2)
  ∧ (∃ select_fields, _build_dynamic_select_fields qp = Ok select_fields).
Proof.
  unfold _build_dynamic_global_search_fields, _build_dynamic_select_fields.
  destruct (nav_tables qp) as [tables|e]; [|done].
  cbn [mbind result_bind rbind].
  destruct (for_tables _ tables) as [l|e] eqn:Hl; [|done]. intros _.
  split; [eauto|].
  destruct (for_tables_alias_ok qp
              (fun alias _ i => alias +:+ "." +:+ name_column i)
              (fun alias k i => spaces 20 +:+ alias +:+ "." +:+ name_column i
                                +:+ " as " +:+ k +:+ "_name")
              tables l Hl) as [l2 ->].
  eauto.
Qed.






Lemma assemble_with_translator qp t (indent : nat) (where_clause : string)
    (params : list param) (sort_by sort_order : string) :
  assemble (with_translator qp t) indent where_clause params sort_by sort_order
  = assemble qp indent where_clause params sort_by sort_order.
Proof. reflexivity. Qed.


(** On the main path, when the whole query parses, an error raised by the
    translation is raised by [parse_query]. *)
Lemma main_path_raises_validation_errors qp
    (query_string sort_by sort_order : string) (ast : AstNode)
    (global_search_fields : list string) t' (e : exn) :
  qp_schema_mapping qp ≠ ∅ →
  PyStr.strip query_string ≠ "" →
  parse_ast qp query_string = Some ast →
  _build_dynamic_global_search_fields qp (_extract_search_term_from_ast ast)
  = Ok global_search_fields →
  translate ast
    (reset (qp_translator qp) (qp_schema_mapping qp) (Some global_search_fields)
       (Some (qp_available_metadata_fields qp)) (Some (qp_string_fields qp))
       (Some (qp_id_fields qp)) (Some (qp_entity_fields qp)))
  = (Raise e, t') →
  parse_query qp query_string sort_by sort_order
  = (Raise e, with_translator qp t').
Proof.
  intros Hsm Hq Hparse Hfields Htr. unfold parse_query.
  rewrite (bool_decide_eq_false_2 _ Hsm).
  assert (String.eqb (PyStr.strip query_string) "" = false) as ->
    by by apply String.eqb_neq.
  by rewrite Hparse, Hfields, Htr.
Qed.


(** ** Placeholders and parameters *)

Lemma transform_grammar (tree : Tree) (ast : @AstNode rt) :
  grammar_tree tree = true → transform tree = Some ast →
  grammar_ast ast = true.
Proof.
  revert ast. induction tree as [l IHl r IHr|l IHl r IHr|i IH|field op val|tok];
    intros ast Hg; cbn [transform grammar_tree] in *.
  - apply andb_true_iff in Hg as [Hl Hr].
    destruct (transform l) as [al|]; [|done].
    destruct (transform r) as [ar|]; [|done].
    cbv [mbind option_bind]; cbv beta iota. intros [= <-]. cbn [grammar_ast].
    by rewrite (IHl al), (IHr ar).
  - apply andb_true_iff in Hg as [Hl Hr].
    destruct (transform l) as [al|]; [|done].
    destruct (transform r) as [ar|]; [|done].
    cbv [mbind option_bind]; cbv beta iota. intros [= <-]. cbn [grammar_ast].
    by rewrite (IHl al), (IHr ar).
  - destruct (transform i) as [ai|]; [|done].
    cbn [fmap option_fmap option_map]. intros [= <-]. cbn [grammar_ast].
    by apply IH.
  - destruct val as [v|].
    + destruct (transform_value v) as [x|]; [|done].
      cbv [mbind option_bind]; cbv beta iota. by intros [= <-].
    + by intros [= <-].
  - unfold transform_global_search.
    destruct (simple_value tok) as [[s|x]|]; [| |done];
      cbn [mbind option_bind]; by intros [= <-].
Qed.

Lemma to_sql_dollar_free (f : Field) (sm : gmap string string) val
    (op : option string) (amf sf idf ef : gset string) (F : string) :
  (∀ (k v : string), sm !! k = Some v → dollar_free v = true) →
  Forall (fun x => dollar_free x = true) (parts f) →
  to_sql f sm val op amf sf idf ef = Ok F →
  dollar_free F = true.
Proof.
  intros Hsm Hparts. unfold to_sql.
  destruct (parts f) as [|first rest] eqn:Hf; [done|].
  destruct (_validate_operation_compatibility _ _ _ _ _ _); [|done].
  cbn [mbind result_bind rbind].
  assert (dollar_free first = true) as Hfirst by by apply Forall_inv in Hparts.
  assert (Forall (fun x => dollar_free x = true) rest) as Hrest
    by by apply Forall_inv_tail in Hparts.
  assert (dollar_free (default "d.metadata" (sm !! "metadata")) = true) as Hmeta.
  { destruct (sm !! "metadata") eqn:Hm; [by eapply Hsm|done]. }
  assert (∀ col, dollar_free col = true →
            (if String.eqb (base_field_of first) "metadata"
                && (1 <? length (first :: rest))
             then if numeric_cast val op
                  then Ok ("(" +:+ json_path_sql col rest +:+ ")::numeric")
                  else Ok (json_path_sql col rest)
             else Ok col) = Ok F → dollar_free F = true) as Hexplicit.
  { intros col Hcol.
    pose proof (dollar_free_json_path col rest Hcol Hrest) as Hjson.
    repeat case_match; intros [= <-]; [|done..].
    by rewrite !dollar_free_app, Hjson. }
  destruct (truthy (sm !! base_field_of first)) eqn:Htruthy.
  - destruct (sm !! base_field_of first) as [col|] eqn:Hcol; [|done].
    cbn [mbind result_bind rbind default]. apply Hexplicit. by eapply Hsm.
  - destruct (mem (base_field_of first) ef).
    + cbn [mbind result_bind rbind]. apply Hexplicit.
      by rewrite !dollar_free_app, dollar_free_base_field.
    + destruct (mem (base_field_of first) amf); [|done].
      cbn [mbind result_bind rbind].
      pose proof (dollar_free_json_path _ _ Hmeta Hparts) as Hjson.
      intros [= <-]. destruct (numeric_cast val op); [|exact Hjson].
      by apply dollar_free_app_intro; [|apply dollar_free_app_intro].
Qed.


Lemma same_context_refl t : same_context t t.
Proof. by repeat split. Qed.

Lemma numbered_none t (sql : string) :
  dollar_free sql = true → index_in_step t → numbered t sql t 0.
Proof.
  intros Hsql Ht. split; [by rewrite placeholders_none|].
  split; [exists []; by rewrite app_nil_r|]. split; [done|apply same_context_refl].
Qed.

Lemma numbered_one t (sql : string) (p : param) :
  index_in_step t →
  collapse (placeholders sql) = [PyStr.str_int (t_param_index t + 1)] →
  numbered t sql (append_param p (add_index 1 t)) 1.
Proof.
  intros Ht Hsql. split; [|split; [|split]].
  - rewrite Hsql, Ht. unfold numbering. cbn [seq fmap list_fmap collapse].
    do 2 f_equal. lia.
  - by exists [p].
  - unfold index_in_step in *. cbn. rewrite Ht, length_app. cbn. lia.
  - by repeat split.
Qed.

Ltac scan :=
  repeat first
    [ rewrite placeholders_dollar_free by (reflexivity || assumption)
    | rewrite placeholders_placeholder by (lia || reflexivity || assumption)
    | rewrite placeholders_placeholder_end by lia
    | rewrite placeholders_none by (reflexivity || assumption) ].

Lemma field_exists_numbered t f (F sql : string) t' :
  dollar_free F = true → index_in_step t →
  _translate_field_exists t f F = (Ok sql, t') →
  ∃ n, numbered t sql t' n.
Proof.
  intros HF Ht. unfold _translate_field_exists.
  assert (0 ≤ t_param_index t + 1)%Z as Hpos by (rewrite Ht; lia).
  repeat case_match; intros [= <- <-]; (try by (exists 0; apply numbered_none;
    [by rewrite dollar_free_app, HF|done]));
    (exists 1; apply numbered_one; [done|]; cbn [t_param_index add_index]; by scan).
Qed.

Lemma field_not_exists_numbered t f (F sql : string) t' :
  dollar_free F = true → index_in_step t →
  _translate_field_not_exists t f F = (Ok sql, t') →
  ∃ n, numbered t sql t' n.
Proof.
  intros HF Ht. unfold _translate_field_not_exists.
  assert (0 ≤ t_param_index t + 1)%Z as Hpos by (rewrite Ht; lia).
  repeat case_match; intros [= <- <-]; (try by (exists 0; apply numbered_none;
    [by rewrite dollar_free_app, HF|done]));
    (exists 1; apply numbered_one; [done|]; cbn [t_param_index add_index]; by scan).
Qed.


Lemma comparison_sql_placeholders (op sql_op F : string) (n : Z) (flag : bool) :
  dollar_free F = true → dollar_free sql_op = true → (0 ≤ n)%Z →
  placeholders (comparison_sql op sql_op F (placeholder_of n) flag)
  = [PyStr.str_int n].
Proof.
  intros HF Hop Hn. unfold comparison_sql. repeat case_match; by scan.
Qed.

Lemma comparison_operator_dollar_free (op : string) val (flag : bool) :
  dollar_free op = true →
  dollar_free (comparison_operator op val flag).1 = true.
Proof. intros Hop. unfold comparison_operator. by repeat case_match. Qed.

Lemma comparison_numbered t f (op : string) val (sql : string) t' :
  dollar_free_context t → index_in_step t →
  forallb is_identifier (parts f) = true →
  existsb (String.eqb op) Lark.operators = true →
  _translate_comparison t f op val = (Ok sql, t') →
  ∃ n, numbered t sql t' n.
Proof.
  intros [Hsm _] Ht Hparts Hop. unfold _translate_comparison.
  destruct (to_sql _ _ _ _ _ _ _ _) as [F|e] eqn:Hto; [|done].
  assert (dollar_free F = true) as HF.
  { eapply to_sql_dollar_free; [exact Hsm| |exact Hto].
    by apply identifiers_dollar_free. }
  assert (0 ≤ t_param_index t + 1)%Z as Hpos by (rewrite Ht; lia).
  destruct (_ && value_eq_str val "*"); [by apply field_exists_numbered|].
  destruct (_ && value_eq_str val "*"); [by apply field_not_exists_numbered|].
  destruct (parts f) as [|first rest]; [done|].
  set (flag := String.eqb first "last_edited_at" || _).
  destruct (_ && flag && _).
  - intros [= <- <-]. exists 0.
    destruct (numbered_none t (F +:+ " IS NOT NULL")) as (H1 & H2 & H3 & H4);
      [by rewrite dollar_free_app, HF|done|].
    split; [done|]. split; [done|]. split; [|done].
    unfold index_in_step in *. cbn. lia.
  - destruct (comparison_operator op val flag) as [sql_op param_value] eqn:Hco.
    intros [= <- <-]. exists 1. apply numbered_one; [done|].
    cbn [t_param_index add_index].
    rewrite comparison_sql_placeholders; [done|done| |done].
    pose proof (comparison_operator_dollar_free op val flag
                  (operator_dollar_free op Hop)) as Hd.
    by rewrite Hco in Hd.
Qed.

Lemma search_condition_placeholders (field : string) (n : Z) (q : bool)
    (r : string) :
  dollar_free field = true → (0 ≤ n)%Z → no_leading_digit r = true →
  placeholders (_build_search_condition field (placeholder_of n) q +:+ r)
  = PyStr.str_int n :: placeholders r.
Proof.
  intros Hf Hn Hr. unfold _build_search_condition.
  repeat case_match; rewrite !append_assoc; by scan.
Qed.

Lemma joined_conditions_placeholders (conditions : list string)
    (d r : string) :
  Forall (fun c => ∀ r', no_leading_digit r' = true →
                     placeholders (c +:+ r') = d :: placeholders r')
         conditions →
  no_leading_digit r = true →
  placeholders (PyStr.join " OR " conditions +:+ r)
  = replicate (length conditions) d ++ placeholders r.
Proof.
  intros Hc Hr. unfold PyStr.join.
  induction Hc as [|x l Hx Hl IH]; [done|].
  cbn [String.concat length replicate]. destruct l as [|y l].
  - by rewrite Hx.
  - rewrite !append_assoc, Hx by done.
    rewrite placeholders_dollar_free by done. by rewrite IH.
Qed.

Lemma search_conditions_placeholders (fields : list string) (n : Z) (q : bool)
    (r : string) :
  Forall (fun x => dollar_free x = true) fields → (0 ≤ n)%Z →
  no_leading_digit r = true →
  placeholders
    (PyStr.join " OR "
       ((fun field => _build_search_condition field (placeholder_of n) q)
          <$> fields) +:+ r)
  = replicate (length fields) (PyStr.str_int n) ++ placeholders r.
Proof.
  intros Hfields Hn Hr.
  rewrite (joined_conditions_placeholders _ (PyStr.str_int n)); [|
    |done].
  - by rewrite length_fmap.
  - apply Forall_fmap. eapply Forall_impl; [exact Hfields|].
    intros x Hx r' Hr'. by apply search_condition_placeholders.
Qed.

Lemma global_search_numbered t (text : string) (q : bool) (sql : string) t' :
  dollar_free_context t → index_in_step t →
  _translate_global_search t text q = (Ok sql, t') →
  ∃ n, numbered t sql t' n.
Proof.
  intros [_ Hgsf] Ht. unfold _translate_global_search.
  assert (0 ≤ t_param_index t + 1)%Z as Hpos by (rewrite Ht; lia).
  destruct (_ || _).
  { intros [= <- <-]. exists 0. by apply numbered_none. }
  unfold _build_global_search_clause.
  destruct (String.eqb (PyStr.strip (PyStr.strip text)) "").
  { intros [= <- <-]. exists 0. by apply numbered_none. }
  destruct (_ <$> t_global_search_fields t) as [|c cs] eqn:Hconds.
  { intros [= <- <-]. exists 0. by apply numbered_none. }
  assert (String.eqb (placeholder_of (t_param_index t + 1)) "" = false) as ->
    by done.
  intros [= <- <-]. exists 1. apply numbered_one; [done|].
  change (match cs with [] => c | _ :: _ => _ end)
    with (PyStr.join " OR " (c :: cs)).
  rewrite <- Hconds.
  rewrite placeholders_dollar_free by done.
  rewrite search_conditions_placeholders by done.
  apply (f_equal length) in Hconds. rewrite length_fmap in Hconds.
  rewrite Hconds. cbn [length]. scan. rewrite app_nil_r.
  apply collapse_replicate.
Qed.

Lemma numbered_same_context t (sql : string) t' (n : nat) :
  numbered t sql t' n → dollar_free_context t → dollar_free_context t'.
Proof.
  intros (_ & _ & _ & Hsm & Hgsf & _) [H1 H2]. split.
  - by rewrite Hsm.
  - by rewrite Hgsf.
Qed.

Lemma numbered_seq t t1 t2 (l r : string) (n m : nat)
    (before between after : string) :
  dollar_free before = true → dollar_free between = true →
  dollar_free after = true →
  (∀ x, no_leading_digit (between +:+ x) = true) →
  no_leading_digit after = true →
  numbered t l t1 n → numbered t1 r t2 m →
  numbered t (before +:+ l +:+ between +:+ r +:+ after) t2 (n + m).
Proof.
  intros Hb Hm Ha Hm' Ha' (Hl & (e1 & He1 & Hn) & _ & Hc1)
    (Hr & (e2 & He2 & Hm2) & Hi2 & Hc2).
  assert (length (t_params t1) = length (t_params t) + n) as Hlen
    by (rewrite He1, length_app; lia).
  split; [|split; [|split]].
  - rewrite placeholders_dollar_free by done.
    rewrite placeholders_app by done.
    rewrite placeholders_dollar_free by done.
    rewrite placeholders_app by done.
    rewrite (placeholders_none after) by done. rewrite app_nil_r.
    rewrite Hlen in Hr.
    rewrite collapse_app, Hl, Hr, numbering_app; [done|].
    intros x Hx%collapse_elem. rewrite <- collapse_elem, Hr.
    rewrite Hl in Hx. by apply numbering_disjoint.
  - exists (e1 ++ e2). rewrite He2, He1, <- app_assoc. split; [done|].
    rewrite length_app. lia.
  - done.
  - destruct Hc1 as (?&?&?&?&?&?), Hc2 as (?&?&?&?&?&?).
    repeat split; congruence.
Qed.

Lemma numbered_wrap t t1 (l : string) (n : nat) (before after : string) :
  dollar_free before = true → dollar_free after = true →
  no_leading_digit after = true →
  numbered t l t1 n → numbered t (before +:+ l +:+ after) t1 n.
Proof.
  intros Hb Ha Ha' (Hl & He & Hi & Hc).
  split; [|done].
  rewrite placeholders_dollar_free by done.
  rewrite placeholders_app by done.
  rewrite (placeholders_none after) by done. by rewrite app_nil_r.
Qed.

Lemma translate_numbered (node : AstNode) t (sql : string) t' :
  grammar_ast node = true → dollar_free_context t → index_in_step t →
  translate node t = (Ok sql, t') →
  ∃ n, numbered t sql t' n.
Proof.
  revert t sql t'.
  induction node as [f op val|text q|lhs IHl rhs IHr|lhs IHl rhs IHr|term IH];
    intros t sql t' Hg Hctx Ht; cbn [translate].
  - cbn [grammar_ast] in Hg.
    apply andb_true_iff in Hg as [[_ Hparts]%andb_true_iff Hop].
    by apply comparison_numbered.
  - by apply global_search_numbered.
  - cbn [grammar_ast] in Hg. apply andb_true_iff in Hg as [Hgl Hgr].
    destruct (translate lhs t) as [[l|e] t1] eqn:Hl; [|done].
    destruct (translate rhs t1) as [[r|e] t2] eqn:Hr; [|done].
    intros [= <- <-].
    destruct (IHl _ _ _ Hgl Hctx Ht Hl) as [n Hn].
    pose proof (numbered_same_context _ _ _ _ Hn Hctx) as Hctx1.
    destruct (IHr _ _ _ Hgr Hctx1 (proj1 (proj2 (proj2 Hn))) Hr) as [m Hm].
    exists (n + m). by apply (numbered_seq t t1 t2 l r n m "(" " AND " ")").
  - cbn [grammar_ast] in Hg. apply andb_true_iff in Hg as [Hgl Hgr].
    destruct (translate lhs t) as [[l|e] t1] eqn:Hl; [|done].
    destruct (translate rhs t1) as [[r|e] t2] eqn:Hr; [|done].
    intros [= <- <-].
    destruct (IHl _ _ _ Hgl Hctx Ht Hl) as [n Hn].
    pose proof (numbered_same_context _ _ _ _ Hn Hctx) as Hctx1.
    destruct (IHr _ _ _ Hgr Hctx1 (proj1 (proj2 (proj2 Hn))) Hr) as [m Hm].
    exists (n + m). by apply (numbered_seq t t1 t2 l r n m "(" " OR " ")").
  - destruct (translate term t) as [[s|e] t1] eqn:Hs; [|done].
    intros [= <- <-].
    destruct (IH _ _ _ Hg Hctx Ht Hs) as [n Hn].
    exists n. by apply (numbered_wrap t t1 s n "NOT (" ")").
Qed.


(** *** The order of the parameters *)

Lemma translate_leaves_app (l1 l2 : list AstNode) t t1 t2
    (s1 s2 : list (string * list (@param rt))) :
  translate_leaves l1 t = (Ok s1, t1) →
  translate_leaves l2 t1 = (Ok s2, t2) →
  translate_leaves (l1 ++ l2) t = (Ok (s1 ++ s2), t2).
Proof.
  revert t s1. induction l1 as [|x l1 IH]; intros t s1.
  - cbn. by intros [= <- <-].
  - cbn [translate_leaves app].
    destruct (translate x t) as [[sql|e] u]; [|done].
    destruct (translate_leaves l1 u) as [[s|e] u'] eqn:Hl1; [|done].
    intros [= <- <-] H2. by rewrite (IH _ _ Hl1 H2).
Qed.

Lemma in_step_app (n : nat) (s1 s2 : list (string * list (@param rt))) :
  in_step n s1 → in_step (n + length (concat s1.*2)) s2 →
  in_step n (s1 ++ s2).
Proof.
  revert n. induction s1 as [|[sql ps] s1 IH]; intros n.
  - cbn. by rewrite Nat.add_0_r.
  - cbn [in_step app fmap list_fmap snd concat]. intros [H1 H2] H3.
    split; [done|]. apply IH; [done|].
    by rewrite length_app, Nat.add_assoc in H3.
Qed.

Lemma leaf_steps node t (sql : string) t' (n : nat) :
  leaves node = [node] →
  numbered t sql t' n →
  translate node t = (Ok sql, t') →
  ∃ steps,
    translate_leaves (leaves node) t = (Ok steps, t')
    ∧ t_params t' = t_params t ++ concat steps.*2
    ∧ (∀ r, no_leading_digit r = true →
         placeholders (sql +:+ r)
         = concat (placeholders <$> steps.*1) ++ placeholders r)
    ∧ in_step (length (t_params t)) steps.
Proof.
  intros -> (Hsql & (extra & Hextra & Hlen) & _) Htr.
  cbn [translate_leaves]. rewrite Htr.
  eexists. split; [reflexivity|].
  rewrite Hextra, drop_app_length.
  cbn [fmap list_fmap fst snd concat]. rewrite !app_nil_r.
  split; [done|]. split.
  - intros r Hr. by apply placeholders_app.
  - cbn [in_step]. by rewrite Hlen.
Qed.

Lemma binary_steps t t1 t2 (l r glue : string)
    (sl sr : list (string * list (@param rt))) (ll lr : list AstNode) :
  dollar_free glue = true →
  (∀ x, no_leading_digit (glue +:+ x) = true) →
  translate_leaves ll t = (Ok sl, t1) →
  t_params t1 = t_params t ++ concat sl.*2 →
  (∀ x, no_leading_digit x = true →
     placeholders (l +:+ x) = concat (placeholders <$> sl.*1) ++ placeholders x) →
  in_step (length (t_params t)) sl →
  translate_leaves lr t1 = (Ok sr, t2) →
  t_params t2 = t_params t1 ++ concat sr.*2 →
  (∀ x, no_leading_digit x = true →
     placeholders (r +:+ x) = concat (placeholders <$> sr.*1) ++ placeholders x) →
  in_step (length (t_params t1)) sr →
  ∃ steps,
    translate_leaves (ll ++ lr) t = (Ok steps, t2)
    ∧ t_params t2 = t_params t ++ concat steps.*2
    ∧ (∀ x, no_leading_digit x = true →
         placeholders (("(" +:+ l +:+ glue +:+ r +:+ ")") +:+ x)
         = concat (placeholders <$> steps.*1) ++ placeholders x)
    ∧ in_step (length (t_params t)) steps.
Proof.
  intros Hglue Hglue' Hl Hpl Htl Hsl Hr Hpr Htr Hsr.
  exists (sl ++ sr). split; [by eapply translate_leaves_app|].
  split; [|split].
  - rewrite Hpr, Hpl, fmap_app, concat_app. by rewrite app_assoc.
  - intros x Hx. rewrite !append_assoc.
    rewrite (placeholders_dollar_free "(") by done.
    rewrite Htl by apply Hglue'.
    rewrite placeholders_dollar_free by done.
    rewrite Htr by done.
    rewrite (placeholders_dollar_free ")") by done.
    by rewrite !fmap_app, concat_app, app_assoc.
  - apply in_step_app; [done|].
    by rewrite Hpl, length_app in Hsr.
Qed.

Lemma translate_steps node t (sql : string) t' :
  grammar_ast node = true → dollar_free_context t → index_in_step t →
  translate node t = (Ok sql, t') →
  ∃ steps,
    translate_leaves (leaves node) t = (Ok steps, t')
    ∧ t_params t' = t_params t ++ concat steps.*2
    ∧ (∀ r, no_leading_digit r = true →
         placeholders (sql +:+ r)
         = concat (placeholders <$> steps.*1) ++ placeholders r)
    ∧ in_step (length (t_params t)) steps.
Proof.
  revert t sql t'.
  induction node as [f op val|text q|lhs IHl rhs IHr|lhs IHl rhs IHr|term IH];
    intros t sql t' Hg Hctx Ht Htr.
  - destruct (translate_numbered _ _ _ _ Hg Hctx Ht Htr) as [n Hn].
    by apply (leaf_steps _ _ _ _ n).
  - destruct (translate_numbered _ _ _ _ Hg Hctx Ht Htr) as [n Hn].
    by apply (leaf_steps _ _ _ _ n).
  - cbn [grammar_ast] in Hg. apply andb_true_iff in Hg as [Hgl Hgr].
    cbn [translate leaves] in *.
    destruct (translate lhs t) as [[l|e] t1] eqn:Hl; [|done].
    destruct (translate rhs t1) as [[r|e] t2] eqn:Hr; [|done].
    injection Htr as <- <-.
    destruct (translate_numbered _ _ _ _ Hgl Hctx Ht Hl) as [n Hn].
    pose proof (numbered_same_context _ _ _ _ Hn Hctx) as Hctx1.
    destruct Hn as (_ & _ & Ht1 & _).
    destruct (IHl _ _ _ Hgl Hctx Ht Hl) as (sl & H1 & H2 & H3 & H4).
    destruct (IHr _ _ _ Hgr Hctx1 Ht1 Hr) as (sr & H5 & H6 & H7 & H8).
    by apply (binary_steps t t1 t2 l r " AND " sl sr).
  - cbn [grammar_ast] in Hg. apply andb_true_iff in Hg as [Hgl Hgr].
    cbn [translate leaves] in *.
    destruct (translate lhs t) as [[l|e] t1] eqn:Hl; [|done].
    destruct (translate rhs t1) as [[r|e] t2] eqn:Hr; [|done].
    injection Htr as <- <-.
    destruct (translate_numbered _ _ _ _ Hgl Hctx Ht Hl) as [n Hn].
    pose proof (numbered_same_context _ _ _ _ Hn Hctx) as Hctx1.
    destruct Hn as (_ & _ & Ht1 & _).
    destruct (IHl _ _ _ Hgl Hctx Ht Hl) as (sl & H1 & H2 & H3 & H4).
    destruct (IHr _ _ _ Hgr Hctx1 Ht1 Hr) as (sr & H5 & H6 & H7 & H8).
    by apply (binary_steps t t1 t2 l r " OR " sl sr).
  - cbn [grammar_ast] in Hg. cbn [translate leaves] in *.
    destruct (translate term t) as [[s|e] t1] eqn:Hs; [|done].
    injection Htr as <- <-.
    destruct (IH _ _ _ Hg Hctx Ht Hs) as (steps & H1 & H2 & H3 & H4).
    exists steps. split; [done|]. split; [done|]. split; [|done].
    intros r Hr. rewrite !append_assoc.
    rewrite (placeholders_dollar_free "NOT (") by done.
    rewrite H3 by done.
    by rewrite (placeholders_dollar_free ")") by done.
Qed.


Lemma for_tables_Forall (P : string → Prop) (Q : string * TableInfo → Prop)
    (body : string → TableInfo → result string)
    (tables : list (string * TableInfo)) (l : list string) :
  (∀ k i x, Q (k, i) → body k i = Ok x → P x) →
  Forall Q tables →
  for_tables body tables = Ok l → Forall P l.
Proof.
  intros Hbody Htables. revert l.
  induction Htables as [|[k i] tables Hki Htables IH]; intros l.
  - by intros [= <-].
  - cbn [for_tables]. destruct (body k i) as [x|e] eqn:Hx; [|done].
    cbn [mbind result_bind rbind].
    destruct (for_tables body tables) as [xs|e]; [|done].
    intros [= <-]. constructor; [by eapply Hbody|by apply IH].
Qed.

Lemma nav_tables_Some qp (tables : list (string * TableInfo)) :
  nav_tables qp = Ok tables →
  ∃ na, qp_navigation_analysis qp = Some na ∧ tables = navigation_tables na.
Proof.
  unfold nav_tables. destruct (qp_navigation_analysis qp) as [na|]; [|done].
  intros [= <-]. eauto.
Qed.

Lemma dollar_free_setup_inv qp :
  dollar_free_setup qp = true →
  (∀ (k v : string), qp_schema_mapping qp !! k = Some v → dollar_free v = true)
  ∧ (∀ k a, qp_entity_aliases qp !! k = Some a → dollar_free a = true)
  ∧ (∀ na, qp_navigation_analysis qp = Some na →
       Forall (fun entry => dollar_free entry.1 = true
                            ∧ dollar_free (name_column entry.2) = true)
              (navigation_tables na)
       ∧ Forall (fun c => dollar_free c = true) (columns (main_table_schema na))
       ∧ dollar_free (main_primary_key (main_table_schema na)) = true)
  ∧ dollar_free (qp_from_and_joins qp) = true.
Proof.
  unfold dollar_free_setup.
  intros [[[Hsm Hal]%andb_true_iff Hnav]%andb_true_iff Hfj]%andb_true_iff.
  split; [intros k v; by apply values_dollar_free_lookup|].
  split; [intros k v; by apply values_dollar_free_lookup|].
  split; [|done]. intros na Hna. rewrite Hna in Hnav.
  apply andb_true_iff in Hnav as [[Ht Hc]%andb_true_iff Hpk].
  split; [|split; [|done]].
  - apply Forall_forall. intros x Hx. rewrite forallb_forall in Ht.
    apply andb_true_iff, Ht. by apply list_elem_of_In.
  - apply Forall_forall. intros x Hx. rewrite forallb_forall in Hc.
    apply Hc. by apply list_elem_of_In.
Qed.

Lemma alias_of_dollar_free qp (k a : string) :
  dollar_free_setup qp = true → alias_of qp k = Ok a → dollar_free a = true.
Proof.
  intros (_ & Halias & _)%dollar_free_setup_inv H. unfold alias_of in H.
  destruct (qp_entity_aliases qp !! k) as [a'|] eqn:Ha; [|done].
  injection H as <-. by eapply Halias.
Qed.

Lemma global_search_fields_dollar_free qp (term : string) (l : list string) :
  dollar_free_setup qp = true →
  _build_dynamic_global_search_fields qp term = Ok l →
  Forall (fun x => dollar_free x = true) l.
Proof.
  intros Hsetup. unfold _build_dynamic_global_search_fields.
  destruct (nav_tables qp) as [tables|e] eqn:Hnav; [|done].
  destruct (nav_tables_Some _ _ Hnav) as (na & Hna & ->).
  cbn [mbind result_bind rbind].
  destruct (for_tables _ _) as [nav_fields|e] eqn:Hft; [|done].
  intros [= <-]. do 2 (constructor; [done|]). apply Forall_app. split.
  - case_match; by repeat constructor.
  - destruct (dollar_free_setup_inv _ Hsetup) as (H1 & H2 & H3 & H4).
    destruct (H3 na Hna) as (Htables & _).
    eapply for_tables_Forall; [|exact Htables|exact Hft].
    intros k i x [Hk Hi]. cbn [fst snd] in *.
    destruct (alias_of qp k) as [a|e] eqn:Ha; [|done].
    cbn [mbind result_bind rbind]. intros [= <-].
    rewrite !dollar_free_app, Hi.
    by rewrite (alias_of_dollar_free qp k a).
Qed.

Lemma select_fields_dollar_free qp (select_fields : string) :
  dollar_free_setup qp = true →
  _build_dynamic_select_fields qp = Ok select_fields →
  dollar_free select_fields = true.
Proof.
  intros Hsetup. unfold _build_dynamic_select_fields.
  destruct (nav_tables qp) as [tables|e] eqn:Hnav; [|done].
  destruct (nav_tables_Some _ _ Hnav) as (na & Hna & ->).
  cbn [mbind result_bind rbind]. rewrite Hna.
  destruct (for_tables _ _) as [nav_fields|e] eqn:Hft; [|done].
  intros [= <-].
  destruct (dollar_free_setup_inv _ Hsetup) as (H1 & H2 & H3 & H4).
  destruct (H3 na Hna) as (Htables & Hcols & _).
  apply dollar_free_join; [done|]. apply Forall_app. split.
  - apply Forall_fmap. eapply Forall_impl; [exact Hcols|].
    intros c Hc. cbn. by rewrite dollar_free_app, Hc.
  - eapply for_tables_Forall; [|exact Htables|exact Hft].
    intros k i x [Hk Hi]. cbn [fst snd] in *.
    destruct (alias_of qp k) as [a|e] eqn:Ha; [|done].
    cbn [mbind result_bind rbind]. intros [= <-].
    rewrite !dollar_free_app, Hi, Hk.
    by rewrite (alias_of_dollar_free qp k a).
Qed.

Lemma dollar_free_sort_json_field (path_parts : list string) :
  Forall (fun x => dollar_free x = true) path_parts →
  dollar_free (sort_json_field path_parts) = true.
Proof.
  intros Hparts. unfold sort_json_field.
  assert (dollar_free
            ("d.metadata->" +:+
             PyStr.join "->" (quoted_part <$> removelast path_parts)
             +:+ "->>" +:+ PyStr.repr (List.last path_parts ""))
          = true) as Hlong.
  { rewrite !dollar_free_app. rewrite dollar_free_join; [|done|].
    - rewrite dollar_free_repr; [done|].
      by apply (Forall_last (fun x => dollar_free x = true)).
    - apply Forall_fmap. eapply Forall_impl; [by apply Forall_removelast|].
      intros x Hx. cbn. unfold quoted_part. by rewrite !dollar_free_app, Hx. }
  destruct path_parts as [|p [|p' ps]]; [done| |done].
  apply Forall_inv in Hparts.
  by rewrite dollar_free_app, dollar_free_repr.
Qed.

Lemma order_by_dollar_free qp (sort_by sort_order order_by : string) :
  dollar_free_setup qp = true → dollar_free sort_by = true →
  _build_order_by_clause qp sort_by sort_order = Ok order_by →
  dollar_free order_by = true.
Proof.
  intros Hsetup Hsort. unfold _build_order_by_clause.
  destruct (negb _) eqn:Horder; [done|].
  assert (dollar_free (PyStr.upper sort_order) = true) as Hdir.
  { rewrite dollar_free_upper, <- dollar_free_lower.
    apply negb_false_iff in Horder. cbn [existsb] in Horder.
    repeat (apply orb_true_iff in Horder as [Horder|Horder]);
      [apply String.eqb_eq in Horder..|done]; by rewrite Horder. }
  destruct (dollar_free_setup_inv _ Hsetup) as (H1 & H2 & H3 & H4).
  assert (∀ pk, match qp_navigation_analysis qp with
                | Some na => Ok ("d." +:+ main_primary_key (main_table_schema na))
                | None => Raise (KeyError "main_table_schema")
                end = Ok pk → dollar_free pk = true) as Hpk.
  { intros pk. destruct (qp_navigation_analysis qp) as [na|] eqn:Hna; [|done].
    intros [= <-]. destruct (H3 na eq_refl) as (_ & _ & Hp).
    by rewrite dollar_free_app, Hp. }
  destruct (PyStr.startswith sort_by "metadata.").
  - destruct (match qp_navigation_analysis qp with Some _ => _ | None => _ end)
      as [pk|e] eqn:Hpkeq; [|done].
    cbn [mbind result_bind rbind]. intros [= <-].
    set (path := default "" (PyStr.split_char_once "." sort_by !! 1)).
    assert (dollar_free path = true) as Hpath.
    { unfold path.
      pose proof (dollar_free_split_char_once "." sort_by Hsort) as Hall.
      destruct (PyStr.split_char_once "." sort_by !! 1) as [x|] eqn:Hx; [|done].
      by eapply (Forall_lookup_1 _ _ _ _ Hall) in Hx. }
    pose proof (dollar_free_sort_json_field _
                  (dollar_free_split_char "." path Hpath)) as Hj.
    revert Hj. generalize (sort_json_field (PyStr.split_char "." path)).
    intros j Hj. rewrite !dollar_free_app, Hj, Hdir.
    by rewrite (Hpk pk).
  - destruct (to_sql _ _ _ _ _ _ _ _) as [F|e] eqn:Hto; [|done].
    cbn [mbind result_bind rbind].
    destruct (match qp_navigation_analysis qp with Some _ => _ | None => _ end)
      as [pk|e] eqn:Hpkeq; [|done].
    cbn [mbind result_bind rbind]. intros [= <-].
    assert (dollar_free F = true) as HF.
    { eapply to_sql_dollar_free; [exact H1| |exact Hto]. by repeat constructor. }
    rewrite !dollar_free_app, HF, Hdir. by rewrite (Hpk pk).
Qed.


Lemma placeholders_filtered_select (indent : nat)
    (select_fields from_and_joins where_clause order_by : string) :
  dollar_free select_fields = true → dollar_free from_and_joins = true →
  dollar_free order_by = true →
  placeholders (filtered_select indent select_fields from_and_joins
                  where_clause order_by)
  = placeholders where_clause.
Proof.
  intros Hs Hf Ho. unfold filtered_select.
  repeat rewrite placeholders_dollar_free
    by (reflexivity || assumption || apply dollar_free_spaces).
  rewrite placeholders_app by reflexivity.
  rewrite (placeholders_none (newline +:+ _)); [by rewrite app_nil_r|].
  by rewrite !dollar_free_app, !dollar_free_spaces, Ho.
Qed.

Lemma placeholders_filtered_count (from_and_joins where_clause : string) :
  dollar_free from_and_joins = true →
  placeholders (filtered_count from_and_joins where_clause)
  = placeholders where_clause.
Proof.
  intros Hf. unfold filtered_count.
  by repeat rewrite placeholders_dollar_free by (reflexivity || assumption).
Qed.

Lemma numbering_NoDup (k n : nat) : NoDup (numbering k n).
Proof.
  unfold numbering. apply NoDup_fmap_2; [|apply NoDup_seq].
  intros i j Hij. apply (inj pretty) in Hij. lia.
Qed.

Lemma numbering_length (k n : nat) : length (numbering k n) = n.
Proof. unfold numbering. by rewrite length_fmap, length_seq. Qed.

Lemma placeholders_match_parameters qp
    (query_string sort_by sort_order : string) (ast : AstNode)
    (count_query search_query : string) (params : list param) :
  PyStr.strip query_string ≠ "" →
  parse_ast qp query_string = Some ast →
  grammar_ast ast = true →
  dollar_free_setup qp = true →
  dollar_free sort_by = true →
  (parse_query qp query_string sort_by sort_order).1
  = Ok (count_query, search_query, params) →
  collapse (placeholders search_query) = numbering 0 (length params)
  ∧ length (collapse (placeholders search_query)) = length params
  ∧ NoDup (collapse (placeholders search_query))
  ∧ collapse (placeholders count_query) = numbering 0 (length params).
Proof.
  intros Hq Hparse Hgrammar Hsetup Hsort. unfold parse_query.
  destruct (bool_decide _); [done|].
  assert (String.eqb (PyStr.strip query_string) "" = false) as ->
    by by apply String.eqb_neq.
  rewrite Hparse.
  destruct (_build_dynamic_global_search_fields qp _) as [gsf|e] eqn:Hgsf;
    [|done].
  set (t := reset _ _ _ _ _ _ _).
  destruct (translate ast t) as [[where_clause|e] t'] eqn:Htr; [|done].
  cbn [fst]. unfold assemble.
  destruct (_build_dynamic_select_fields qp) as [sel|e] eqn:Hsel; [|done].
  destruct (_build_order_by_clause qp sort_by sort_order) as [ob|e] eqn:Hob;
    [|done].
  cbn [mbind result_bind rbind]. intros [= <- <- <-].
  destruct (translate_numbered ast t where_clause t' Hgrammar)
    as (n & Hnum & (extra & Hextra & Hlen) & _); [|done|exact Htr|].
  { split; [apply (dollar_free_setup_inv _ Hsetup)|].
    by eapply global_search_fields_dollar_free. }
  cbn in Hextra, Hnum. rewrite Hextra, Hlen.
  destruct (dollar_free_setup_inv _ Hsetup) as (_ & _ & _ & Hfj).
  rewrite placeholders_filtered_select;
    [|exact (select_fields_dollar_free _ _ Hsetup Hsel)|done
     |exact (order_by_dollar_free _ _ _ _ Hsetup Hsort Hob)].
  rewrite placeholders_filtered_count by done. rewrite Hnum.
  split; [done|]. split; [apply numbering_length|].
  split; [apply numbering_NoDup|done].
Qed.


Lemma main_path_steps qp
    (query_string sort_by sort_order : string) (ast : AstNode)
    (count_query search_query : string) (params : list param) :
  PyStr.strip query_string ≠ "" →
  parse_ast qp query_string = Some ast →
  grammar_ast ast = true →
  dollar_free_setup qp = true →
  dollar_free sort_by = true →
  (parse_query qp query_string sort_by sort_order).1
  = Ok (count_query, search_query, params) →
  ∃ global_search_fields steps,
    _build_dynamic_global_search_fields qp (_extract_search_term_from_ast ast)
    = Ok global_search_fields
    ∧ (translate_leaves (leaves ast)
         (reset (qp_translator qp) (qp_schema_mapping qp)
            (Some global_search_fields)
            (Some (qp_available_metadata_fields qp))
            (Some (qp_string_fields qp)) (Some (qp_id_fields qp))
            (Some (qp_entity_fields qp)))).1 = Ok steps
    ∧ params = concat steps.*2
    ∧ placeholders search_query = concat (placeholders <$> steps.*1)
    ∧ in_step 0 steps.
Proof.
  intros Hq Hparse Hgrammar Hsetup Hsort. unfold parse_query.
  destruct (bool_decide _); [done|].
  assert (String.eqb (PyStr.strip query_string) "" = false) as ->
    by by apply String.eqb_neq.
  rewrite Hparse.
  destruct (_build_dynamic_global_search_fields qp _) as [gsf|e] eqn:Hgsf;
    [|done].
  set (t := reset _ _ _ _ _ _ _).
  destruct (translate ast t) as [[where_clause|e] t'] eqn:Htr; [|done].
  cbn [fst]. unfold assemble.
  destruct (_build_dynamic_select_fields qp) as [sel|e] eqn:Hsel; [|done].
  destruct (_build_order_by_clause qp sort_by sort_order) as [ob|e] eqn:Hob;
    [|done].
  cbn [mbind result_bind rbind]. intros [= <- <- <-].
  destruct (translate_steps ast t where_clause t' Hgrammar)
    as (steps & Hsteps & Hparams & Htext & Hin); [|done|exact Htr|].
  { split; [apply (dollar_free_setup_inv _ Hsetup)|].
    by eapply global_search_fields_dollar_free. }
  exists gsf, steps. split; [done|]. fold t. rewrite Hsteps.
  split; [done|]. split; [exact Hparams|]. split; [|exact Hin].
  destruct (dollar_free_setup_inv _ Hsetup) as (_ & _ & _ & Hfj).
  rewrite placeholders_filtered_select;
    [|exact (select_fields_dollar_free _ _ Hsetup Hsel)|done
     |exact (order_by_dollar_free _ _ _ _ Hsetup Hsort Hob)].
  rewrite <- (append_empty_r where_clause).
  rewrite Htext by done. by rewrite app_nil_r.
Qed.

(** C3 (amended).  With the grammar's parser, for every query text that
    parses and whose translation succeeds, provided the names taken from
    the database and the sort key have no dollar sign: the placeholders
    of the returned search query, read in order and with repetitions of
    one placeholder counted once (the global search uses one placeholder
    for all its fields), are exactly [$1], ..., [$n], where [n] is the
    length of the returned parameter list, and the count query has the
    same placeholders.  The numbering follows the order in which the
    parameters are appended: the placeholders of the search query are
    those of the texts of the query's leaves, taken from left to right,
    the parameter list is made of the parameters the leaves appended, in
    the same order, and the text of each leaf holds exactly the
    placeholders of the places its own parameters take in the list. *)
Theorem grammar_query_placeholders qp
    (query_string sort_by sort_order : string) (ast : AstNode)
    (count_query search_query : string) (params : list param) :
  qp_parser qp = Lark.parse →
  parse_ast qp query_string = Some ast →
  dollar_free_setup qp = true →
  dollar_free sort_by = true →
  (parse_query qp query_string sort_by sort_order).1
  = Ok (count_query, search_query, params) →
  collapse (placeholders search_query) = numbering 0 (length params)
  ∧ length (collapse (placeholders search_query)) = length params
  ∧ NoDup (collapse (placeholders search_query))
  ∧ collapse (placeholders count_query) = numbering 0 (length params)
  ∧ ∃ global_search_fields steps,
      _build_dynamic_global_search_fields qp
        (_extract_search_term_from_ast ast) = Ok global_search_fields
      ∧ (translate_leaves (leaves ast)
           (reset (qp_translator qp) (qp_schema_mapping qp)
              (Some global_search_fields)
              (Some (qp_available_metadata_fields qp))
              (Some (qp_string_fields qp)) (Some (qp_id_fields qp))
              (Some (qp_entity_fields qp)))).1 = Ok steps
      ∧ params = concat steps.*2
      ∧ placeholders search_query = concat (placeholders <$> steps.*1)
      ∧ in_step 0 steps.
Proof.
  intros Hparser Hparse Hsetup Hsort Hquery.
  assert (PyStr.strip query_string ≠ "" ∧ grammar_ast ast = true)
    as [Hq Hgrammar].
  { unfold parse_ast in Hparse. rewrite Hparser in Hparse.
    destruct (Lark.parse query_string) as [tree|] eqn:Htree; [|done].
    cbn [mbind option_bind] in Hparse. split.
    - intros Hblank. by rewrite (parse_blank _ Hblank) in Htree.
    - eapply transform_grammar; [|exact Hparse]. by eapply parse_grammar. }
  destruct (placeholders_match_parameters qp query_string sort_by sort_order
              ast count_query search_query params Hq Hparse Hgrammar Hsetup
              Hsort Hquery) as (H1 & H2 & H3 & H4).
  split; [exact H1|]. split; [exact H2|]. split; [exact H3|].
  split; [exact H4|].
  by apply (main_path_steps qp query_string sort_by sort_order ast
              count_query search_query params).
Qed.

End Properties.

(** C8, as stated, fails when [X] itself ends in [_name]: the keys of
    [a_name_name] and [a_name] differ. *)
Lemma name_suffix_counterexample :
  base_field_of ("a_name" +:+ "_name") ≠ base_field_of "a_name".
Proof. vm_compute. discriminate. Qed.

Lemma name_suffix_stripped_once_witness :
  PyStr.last_n 5 "category" ≠ "_name"
  ∧ base_field_of ("category" +:+ "_name") = base_field_of "category".
Proof.
  split; [vm_compute; discriminate|].
  apply (proj2 (name_suffix_stripped_once (rt:=sample_runtime) "category" []
                  sample_schema_mapping None None ∅ ∅ ∅ ∅)).
  vm_compute; discriminate.
Defined.

(** ** Witnesses and counterexamples on the sample set-up *)



(** C6, as stated, fails when the validation rejects the comparison
    first: the unknown field [foo_id] compared with a text that is no
    integer raises [invalid_operation], not [invalid_field]. *)
Lemma unknown_field_counterexample :
  sample_schema_mapping !! base_field_of "foo_id" = None
  ∧ (base_field_of "foo_id" ∉ qp_entity_fields sample_query_parser)
  ∧ (base_field_of "foo_id" ∉ qp_available_metadata_fields sample_query_parser)
  ∧ ∃ e,
      to_sql (rt:=sample_runtime) {| parts := ["foo_id"] |}
        sample_schema_mapping (Some (VStr "abc")) (Some "=")
        (qp_available_metadata_fields sample_query_parser)
        (qp_string_fields sample_query_parser)
        (qp_id_fields sample_query_parser)
        (qp_entity_fields sample_query_parser) = Raise e
      ∧ error_type_of e = Some "invalid_operation".
Proof.
  split; [compute_done|]. split; [compute_done|]. split; [compute_done|].
  eexists. split; vm_compute; reflexivity.
Qed.

Lemma unknown_field_is_rejected_witness :
  ∃ e,
    to_sql (rt:=sample_runtime) {| parts := ["nonexistent_field"] |}
      sample_schema_mapping (Some (VInt 1)) (Some "=")
      (qp_available_metadata_fields sample_query_parser)
      (qp_string_fields sample_query_parser)
      (qp_id_fields sample_query_parser)
      (qp_entity_fields sample_query_parser) = Raise e
    ∧ error_type_of e = Some "invalid_field".
Proof.
  destruct (unknown_field_is_rejected (rt:=sample_runtime)
              {| parts := ["nonexistent_field"] |} "nonexistent_field" []
              sample_schema_mapping (Some (VInt 1)) (Some "=")
              (qp_available_metadata_fields sample_query_parser)
              (qp_string_fields sample_query_parser)
              (qp_id_fields sample_query_parser)
              (qp_entity_fields sample_query_parser))
    as (e & He & Hfield & _); [compute_done..|].
  exists e. split; [exact He|].
  destruct Hfield as (l & -> & _); [vm_compute; reflexivity|].
  reflexivity.
Defined.


(** C2, as stated, fails for [=~] (and likewise for [=] and [!~]): the
    predicate on the last-edited field has no NULL guard. *)
Lemma last_edited_null_guard_counterexample :
  ∃ sql t',
    translate (Comparison {| parts := ["last_edited_at"] |} "=~"
                 (Some (VStr "2025"))) sample_translator
    = (Ok sql, t')
    ∧ sql = "d.last_edited_at ~* $1"
    ∧ PyStr.contains "IS NOT NULL" sql = false.
Proof. eexists _, _. split; [|split]; vm_compute; reflexivity. Qed.

Lemma last_edited_null_guard_witness :
  ∃ p,
    translate (Comparison {| parts := ["last_edited_at"] |} ">"
                 (Some (VStr "2025"))) sample_translator
    = (Ok "(d.last_edited_at IS NOT NULL AND d.last_edited_at > $1)",
       append_param p (add_index 1 sample_translator)).
Proof.
  destruct (last_edited_null_guard sample_translator
              {| parts := ["last_edited_at"] |} "last_edited_at" [] ">"
              (VStr "2025") "d.last_edited_at")
    as (p & Hguard & _); [reflexivity|by left|vm_compute; reflexivity|].
  exists p. apply Hguard. compute_done.
Defined.

Lemma parse_query_requires_setup_witness :
  parse_query (QueryParser_init (rt:=sample_runtime) Lark.parse "entities")
    "status=active" "name" "asc"
  = (Raise (RuntimeError "QueryParser not set up."),
     QueryParser_init Lark.parse "entities").
Proof. apply parse_query_requires_setup. reflexivity. Defined.

Lemma empty_query_is_unfiltered_witness :
  ∃ search_query,
    parse_query sample_query_parser "   " "name" "asc"
    = (Ok ("SELECT COUNT(*) FROM entities", search_query, []),
       sample_query_parser)
    ∧ PyStr.contains "WHERE" search_query = false
    ∧ PyStr.endswith (PyStr.strip search_query)
        "ORDER BY d.name ASC, d.entity_id ASC" = true.
Proof.
  eexists. split; [|split].
  - eapply (empty_query_is_unfiltered sample_query_parser "   "
              sample_navigation "d.name");
      [reflexivity|compute_done|compute_done|reflexivity
      |vm_compute; reflexivity].
  - vm_compute; reflexivity.
  - vm_compute; reflexivity.
Defined.



(** C3, as stated, fails when the sort key has a dollar sign: the path
    of a metadata sort key is written into the ORDER BY clause as it is,
    and the search query then holds a placeholder without a parameter. *)
Lemma placeholders_counterexample :
  parse_ast sample_query_parser "status=active"
  = Some (Comparison {| parts := ["status"] |} "=" (Some (VStr "active")))
  ∧ ∃ count_query search_query params,
      (parse_query sample_query_parser "status=active"
         "metadata.k'||$2||'.z" "asc").1
      = Ok (count_query, search_query, params)
      ∧ params = [PStr "active"]
      ∧ placeholders search_query = ["1"; "2"].
Proof.
  split; [vm_compute; reflexivity|].
  eexists _, _, _. split; [vm_compute; reflexivity|]. split; reflexivity.
Qed.

(** The leaves of a query with their texts and parameters. *)
Example steps_of_two_comparisons :
  let ast := And (Comparison {| parts := ["status"] |} "=" (Some (VStr "active")))
                 (Not (Comparison {| parts := ["size"] |} ">" (Some (VInt 100)))) in
  (translate ast sample_translator).1
  = Ok "(d.status ILIKE $1 AND NOT (d.size > $2))"
  ∧ (translate_leaves (leaves ast) sample_translator).1
    = Ok [("d.status ILIKE $1", [PStr "active"]);
          ("d.size > $2", [PInt 100])].
Proof. split; vm_compute; reflexivity. Qed.

Lemma grammar_query_placeholders_witness :
  ∃ count_query search_query params,
    (parse_query sample_query_parser
       "status=active AND size>100 AND 'beam test' OR tag:*"
       "last_edited_at" "desc").1
    = Ok (count_query, search_query, params)
    ∧ length params = 4
    ∧ collapse (placeholders search_query) = ["1"; "2"; "3"; "4"].
Proof.
  eexists _, _, _. split; [vm_compute; reflexivity|]. split; [reflexivity|].
  etransitivity.
  - eapply (proj1 (grammar_query_placeholders sample_query_parser
                     "status=active AND size>100 AND 'beam test' OR tag:*"
                     "last_edited_at" "desc" _ _ _ _
                     eq_refl ltac:(vm_compute; reflexivity) eq_refl eq_refl
                     ltac:(vm_compute; reflexivity))).
  - vm_compute. reflexivity.
Defined.

(** ** The scenarios of the specification on the sample set-up *)

Example scenario_status_equals :
  (translate (Comparison {| parts := ["status"] |} "=" (Some (VStr "active")))
     sample_translator).1 = Ok "d.status ILIKE $1".
Proof. vm_compute. reflexivity. Qed.

Example scenario_size_greater :
  let r := translate (Comparison {| parts := ["size"] |} ">" (Some (VInt 100)))
             sample_translator in
  r.1 = Ok "d.size > $1" ∧ t_params r.2 = [PInt 100].
Proof. split; vm_compute; reflexivity. Qed.

Example scenario_quoted_search :
  let r := translate (GlobalSearch "hello world" true) sample_translator in
  r.1 = Ok "(d.name ~* $1 OR jsonb_values_to_text(d.metadata) ~* $1 OR cat.name ~* $1)"
  ∧ t_params r.2 = [PStr "hello world"].
Proof. split; vm_compute; reflexivity. Qed.

(** The global search writes its one placeholder once per search field:
    three occurrences here, for one parameter. *)
Example global_search_repeats_placeholder :
  let r := translate (GlobalSearch "hello world" true) sample_translator in
  (sql ← r.1; Ok (placeholders sql)) = Ok ["1"; "1"; "1"]
  ∧ length (t_params r.2) = 1.
Proof. split; vm_compute; reflexivity. Qed.

Example scenario_unterminated_quote :
  ∃ count_query search_query,
    (parse_query sample_query_parser "foo AND 'bar baz" "name" "asc").1
    = Ok (count_query, search_query, [PStr "foo"; PStr "'bar baz"]).
Proof. eexists _, _. vm_compute. reflexivity. Qed.

Example scenario_unknown_field :
  ∃ message user_message,
    (parse_query sample_query_parser "nonexistent_field=1" "name" "asc").1
    = Raise (SearchValidationError message "invalid_field"
               (Some "nonexistent_field") None (Some user_message)).
Proof. eexists _, _. vm_compute. reflexivity. Qed.

(** Without a reset in between, a second translation of the same node
    goes on counting: the reset is what makes translations repeatable. *)
Example second_translation_without_reset :
  let node := Comparison {| parts := ["size"] |} ">" (Some (VInt 100)) in
  let first := translate node sample_translator in
  first.1 = Ok "d.size > $1"
  ∧ (translate node first.2).1 = Ok "d.size > $2".
Proof. split; vm_compute; reflexivity. Qed.

(** ** Table aliases *)

Example alias_category : generate_unique_table_alias "category" ∅ = Some (Ok "cat").
Proof. vm_compute. reflexivity. Qed.

Example alias_category_taken :
  generate_unique_table_alias "category" {["cat"]} = Some (Ok "cate").
Proof. vm_compute. reflexivity. Qed.

Example alias_category_taken_twice :
  generate_unique_table_alias "category" {["cat"; "cate"; "cate1"]}
  = Some (Ok "cate2").
Proof. vm_compute. reflexivity. Qed.

Example alias_from : generate_unique_table_alias "from" ∅ = Some (Ok "fro").
Proof. vm_compute. reflexivity. Qed.

Example alias_on : generate_unique_table_alias "on" ∅ = Some (Ok "o_t").
Proof. vm_compute. reflexivity. Qed.

Example alias_reserved_after_collision :
  generate_unique_table_alias "fromage" {["d"; "fro"]} = Some (Ok "from").
Proof. vm_compute. reflexivity. Qed.



Lemma first_free_counter_spec (fuel : nat) (o : string) (used : gset string)
    (c c' : Z) :
  first_free_counter fuel o used c = Some c' →
  (c ≤ c')%Z
  ∧ (o +:+ PyStr.str_int c' ∉ used)
  ∧ ∀ i, (c ≤ i < c')%Z → o +:+ PyStr.str_int i ∈ used.
Proof.
  revert c. induction fuel as [|fuel IH]; intros c; [done|].
  cbn [first_free_counter]. unfold mem. case_bool_decide as Hin.
  - intros H. destruct (IH _ H) as (Hle & Hfree & Hused).
    split; [lia|]. split; [done|]. intros i Hi.
    destruct (decide (i = c)) as [->|]; [done|]. apply Hused. lia.
  - intros [= <-]. split; [lia|]. split; [done|]. intros i Hi. lia.
Qed.

Lemma first_free_counter_None (fuel : nat) (o : string) (used : gset string)
    (c : Z) :
  first_free_counter fuel o used c = None →
  ∀ i, i < fuel → o +:+ PyStr.str_int (c + Z.of_nat i) ∈ used.
Proof.
  revert c. induction fuel as [|fuel IH]; intros c H i Hi; [lia|].
  cbn [first_free_counter] in H. unfold mem in H.
  case_bool_decide as Hin; [|done].
  destruct i as [|i]; [by rewrite Z.add_0_r|].
  replace (c + Z.of_nat (S i))%Z with ((c + 1) + Z.of_nat i)%Z by lia.
  apply IH; [done|lia].
Qed.

(** The loop ends: among [size used + 1] different aliases one is free. *)
Lemma first_free_counter_ends (o : string) (used : gset string) (c : Z) :
  is_Some (first_free_counter (S (size used)) o used c).
Proof.
  destruct (first_free_counter _ _ _ _) as [c'|] eqn:H; [done|exfalso].
  pose proof (first_free_counter_None _ _ _ _ H) as Hall.
  set (l := (fun i => o +:+ PyStr.str_int (c + Z.of_nat i))
              <$> seq 0 (S (size used))).
  assert (NoDup l) as Hnd.
  { apply NoDup_fmap_2; [|apply NoDup_seq].
    intros i j Hij. apply (inj (String.app o)) in Hij.
    apply (inj pretty) in Hij. lia. }
  assert (list_to_set l ⊆ used) as Hsub.
  { intros x Hx. apply elem_of_list_to_set in Hx.
    apply list_elem_of_fmap in Hx as (i & -> & Hi).
    apply elem_of_seq in Hi. apply Hall. lia. }
  apply subseteq_size in Hsub. rewrite size_list_to_set in Hsub by done.
  unfold l in Hsub. rewrite length_fmap, length_seq in Hsub. lia.
Qed.

Lemma reserved_keywords_lowercase (w : string) :
  w ∈ reserved_keywords → only_lowercase_letters w = true.
Proof.
  unfold reserved_keywords. rewrite elem_of_list_to_set.
  revert w. apply Forall_forall.
  unfold reserved_keyword_list. repeat constructor.
Qed.

Lemma empty_not_reserved : "" ∉ reserved_keywords.
Proof. compute_done. Qed.

Lemma unique_alias_spec (entity_key : string) (used_aliases : gset string) :
  ∃ alias,
    generate_unique_table_alias entity_key used_aliases = Some (Ok alias)
    ∧ (alias ∉ used_aliases).
Proof.
  unfold generate_unique_table_alias.
  set (n := String.length entity_key).
  set (b1 := if 3 <? n then _ else _).
  set (b2 := if mem (PyStr.lower b1) reserved_keywords && (3 <? n) then _ else _).
  assert (∃ b3, (if mem (PyStr.lower b2) reserved_keywords
                 then match entity_key with
                      | String c _ => Ok (String c "_t")
                      | EmptyString => Raise IndexError
                      end
                 else Ok b2) = Ok b3) as [b3 ->].
  { unfold mem. case_bool_decide as Hres; [|by eexists].
    destruct entity_key as [|c k]; [|by eexists].
    exfalso. by apply empty_not_reserved. }
  set (b4 := if mem b3 used_aliases && _ && _ then _ else _).
  unfold mem at 1. case_bool_decide as Hin; [|by eexists].
  destruct (first_free_counter_ends b4 used_aliases 1) as [c Hc].
  rewrite Hc. cbn. eexists. split; [done|].
  by apply first_free_counter_spec in Hc as (_ & ? & _).
Qed.

(** X1. For every entity key (the empty one included) and every set of
    aliases in use, [generate_unique_table_alias] returns: the numbering
    loop ends, no exception is raised, and the alias returned is not one
    of the aliases in use. *)
Theorem generated_alias_is_fresh (entity_key : string) (used_aliases : gset string) :
  ∃ alias,
    generate_unique_table_alias entity_key used_aliases = Some (Ok alias)
    ∧ (alias ∉ used_aliases).
Proof.
  destruct (unique_alias_spec entity_key used_aliases) as (alias & Hret & Hfresh).
  exists alias. split.
  - exact Hret.
  - intros Hin. by apply Hfresh.
Qed.

Lemma lower_app (a b : string) :
  PyStr.lower (a +:+ b) = PyStr.lower a +:+ PyStr.lower b.
Proof.
  unfold PyStr.lower. induction a as [|c a IH]; [done|].
  rewrite append_cons. cbn [PyStr.map]. by rewrite IH, append_cons.
Qed.

Lemma only_lowercase_letters_app (a b : string) :
  only_lowercase_letters (a +:+ b)
  = only_lowercase_letters a && only_lowercase_letters b.
Proof.
  induction a as [|c a IH]; [done|].
  rewrite append_cons. cbn [only_lowercase_letters]. by rewrite IH, andb_assoc.
Qed.

Lemma digit_not_lowercase (c : ascii) :
  PyStr.isdigit c = true → PyStr.islower (PyStr.lower_char c) = false.
Proof.
  destruct c as [[] [] [] [] [] [] [] []]; vm_compute; congruence.
Qed.

Lemma digits_not_lowercase (s : string) :
  all_digits s = true → s ≠ "" →
  only_lowercase_letters (PyStr.lower s) = false.
Proof.
  destruct s as [|c s]; [done|]. cbn. intros [Hc _]%andb_true_iff _.
  by rewrite digit_not_lowercase.
Qed.

Lemma length_lower (s : string) : String.length (PyStr.lower s) = String.length s.
Proof.
  unfold PyStr.lower. induction s as [|c s IH]; [done|].
  cbn [PyStr.map String.length]. by rewrite IH.
Qed.

Lemma lower_substring (i n : nat) (s : string) :
  PyStr.lower (String.substring i n s) = String.substring i n (PyStr.lower s).
Proof.
  revert i n. induction s as [|c s IH]; intros i n.
  - by destruct i, n.
  - destruct i as [|i]; [destruct n as [|n]|]; cbn; [done| |apply IH].
    f_equal. apply (IH 0 n).
Qed.

Lemma substring_prefix_prefix (n m : nat) (s : string) :
  n ≤ m → String.substring 0 n (String.substring 0 m s) = String.substring 0 n s.
Proof.
  revert n m. induction s as [|c s IH]; intros n m Hnm.
  - by destruct n, m.
  - destruct n as [|n]; [by destruct m|].
    destruct m as [|m]; [lia|]. cbn. f_equal. apply IH. lia.
Qed.

Lemma length_substring_prefix (n : nat) (s : string) :
  n ≤ String.length s → String.length (String.substring 0 n s) = n.
Proof.
  revert n. induction s as [|c s IH]; intros n Hn.
  - cbn in Hn. by destruct n; [|lia].
  - destruct n as [|n]; [done|]. cbn in *. f_equal. apply IH. lia.
Qed.

(** No reserved word of four letters starts with a reserved word of
    three letters. *)
Lemma reserved_four_letters (w : string) :
  w ∈ reserved_keywords → String.length w = 4 →
  String.substring 0 3 w ∉ reserved_keywords.
Proof.
  unfold reserved_keywords at 1. rewrite elem_of_list_to_set.
  revert w.
  apply (Forall_forall (fun w => String.length w = 4 →
                                 String.substring 0 3 w ∉ reserved_keywords)).
  unfold reserved_keyword_list.
  repeat (constructor; [first [by intros [=] | intros _; compute_done]|]).
  constructor.
Qed.

(** Case analysis on a membership test. *)
Ltac split_mem x s H :=
  destruct (decide (x ∈ s)) as [H|H];
  [rewrite ?(bool_decide_eq_true_2 _ H)
  |rewrite ?(bool_decide_eq_false_2 _ H)].

Lemma suffixed_alias_not_reserved (b : string) (c : Z) :
  (0 ≤ c)%Z → PyStr.lower (b +:+ PyStr.str_int c) ∉ reserved_keywords.
Proof.
  intros Hc Hlow. apply reserved_keywords_lowercase in Hlow.
  rewrite lower_app, only_lowercase_letters_app in Hlow.
  rewrite (digits_not_lowercase (PyStr.str_int c)) in Hlow;
    [by rewrite andb_false_r in Hlow|apply str_int_digits; lia
    |apply str_int_digits; lia].
Qed.

Lemma table_suffix_not_reserved (c : ascii) :
  PyStr.lower (String c "_t") ∉ reserved_keywords.
Proof.
  intros Hlow. apply reserved_keywords_lowercase in Hlow.
  cbn in Hlow. by rewrite !andb_false_r in Hlow.
Qed.

(** X2. The alias [generate_unique_table_alias] returns is a reserved
    word (compared in lower case) in one situation only: the key has more
    than three characters, its first three characters are an alias in
    use, and the alias is the first four characters of the key (the key
    [fromage] with [fro] in use gets [from]).  The check for reserved words
    is not repeated after the collision with the aliases in use. *)
Theorem reserved_alias_only_after_collision
    (entity_key : string) (used_aliases : gset string) (alias : string) :
  generate_unique_table_alias entity_key used_aliases = Some (Ok alias) →
  PyStr.lower alias ∈ reserved_keywords →
  alias = String.substring 0 4 entity_key
  ∧ 3 < String.length entity_key
  ∧ String.substring 0 3 entity_key ∈ used_aliases
  ∧ (alias ∉ used_aliases).
Proof.
  unfold generate_unique_table_alias, mem.
  set (n := String.length entity_key).
  set (k3 := String.substring 0 3 entity_key).
  set (k4 := String.substring 0 4 entity_key).
  destruct (3 <? n) eqn:Hn.
  - (* a key of more than three characters *)
    apply Nat.ltb_lt in Hn. rewrite !andb_true_r.
    assert (String.length k4 = 4) as Hlen4
      by (apply length_substring_prefix; fold n; lia).
    split_mem (PyStr.lower k3) reserved_keywords H3.
    + split_mem (PyStr.lower k4) reserved_keywords H4.
      { exfalso. apply (reserved_four_letters _ H4); [by rewrite length_lower|].
        unfold k4. by rewrite <- lower_substring, substring_prefix_prefix by lia. }
      rewrite Hlen4. cbn [Nat.ltb Nat.leb andb]. rewrite andb_false_r.
      split_mem k4 used_aliases Hin.
      * destruct (first_free_counter _ _ _ _) as [c'|] eqn:Hc; [|done].
        intros [= <-] Hlow.
        apply first_free_counter_spec in Hc as (Hc & _).
        exfalso. apply (suffixed_alias_not_reserved k4 c'); [lia|done].
      * by intros [= <-] Hlow.
    + rewrite ?(bool_decide_eq_false_2 _ H3).
      split_mem k3 used_aliases Hin3.
      * assert ((String.length k3 <? 4) = true) as ->.
        { apply Nat.ltb_lt. unfold k3.
          rewrite length_substring_prefix by (fold n; lia). lia. }
        cbn [andb].
        split_mem k4 used_aliases Hin4.
        -- destruct (first_free_counter _ _ _ _) as [c'|] eqn:Hc; [|done].
           intros [= <-] Hlow.
           apply first_free_counter_spec in Hc as (Hc & _).
           exfalso. apply (suffixed_alias_not_reserved k4 c'); [lia|done].
        -- by intros [= <-] _.
      * cbn [andb]. rewrite ?(bool_decide_eq_false_2 _ Hin3).
        by intros [= <-] Hlow.
  - (* a short key is its own first candidate *)
    rewrite !andb_false_r.
    split_mem (PyStr.lower entity_key) reserved_keywords Hres.
    + destruct entity_key as [|c k]; [done|].
      rewrite !andb_false_r.
      split_mem (String c "_t") used_aliases Hin.
      * destruct (first_free_counter _ _ _ _) as [c'|] eqn:Hc; [|done].
        intros [= <-] Hlow.
        apply first_free_counter_spec in Hc as (Hc & _).
        exfalso. apply (suffixed_alias_not_reserved (String c "_t") c');
          [lia|done].
      * intros [= <-] Hlow. by apply table_suffix_not_reserved in Hlow.
    + rewrite !andb_false_r.
      split_mem entity_key used_aliases Hin.
      * destruct (first_free_counter _ _ _ _) as [c'|] eqn:Hc; [|done].
        intros [= <-] Hlow.
        apply first_free_counter_spec in Hc as (Hc & _).
        exfalso. apply (suffixed_alias_not_reserved entity_key c'); [lia|done].
      * by intros [= <-] Hlow.
Qed.

Lemma reserved_alias_only_after_collision_witness :
  generate_unique_table_alias "fromage" {["d"; "fro"]} = Some (Ok "from")
  ∧ "from" = String.substring 0 4 "fromage"
  ∧ "fro" ∈ ({["d"; "fro"]} : gset string).
Proof.
  assert (generate_unique_table_alias "fromage" {["d"; "fro"]} = Some (Ok "from"))
    as H by (vm_compute; reflexivity).
  split; [exact H|].
  destruct (reserved_alias_only_after_collision "fromage" {["d"; "fro"]} "from" H)
    as (H1 & _ & H3 & _).
  - apply (bool_decide_unpack _). vm_compute. exact I.
  - split; [exact H1|exact H3].
Defined.

(** ** The aliases of the JOIN clauses *)

(** What the loop of [_build_dynamic_joins] leaves in the alias
    dictionary: every navigation table has an alias outside the aliases
    in use before the loop, two tables have different aliases, and the
    other entries are untouched. *)
Lemma joins_loop_aliases (tables : list (string * TableInfo))
    (used : gset string) (aliases : gmap string string) :
  NoDup tables.*1 →
  ∃ joins aliases',
    joins_loop tables used aliases = Some (Ok joins, aliases')
    ∧ length joins = length tables
    ∧ (∀ k, k ∈ tables.*1 → ∃ a, aliases' !! k = Some a ∧ a ∉ used)
    ∧ (∀ k1 k2 a, k1 ∈ tables.*1 → k2 ∈ tables.*1 →
         aliases' !! k1 = Some a → aliases' !! k2 = Some a → k1 = k2)
    ∧ (∀ k, k ∉ tables.*1 → aliases' !! k = aliases !! k).
Proof.
  revert used aliases.
  induction tables as [|[k ti] tables IH]; intros used aliases Hnd.
  - exists [], aliases. cbn. split; [done|]. split; [done|].
    split; [by intros k ?%elem_of_nil|]. split; [|done].
    by intros k1 k2 a ?%elem_of_nil.
  - cbn [fmap list_fmap fst] in Hnd. apply NoDup_cons in Hnd as [Hk Hnd].
    cbn [joins_loop].
    destruct (unique_alias_spec k used) as (a & -> & Ha).
    destruct (IH ({[a]} ∪ used) (<[k:=a]> aliases) Hnd)
      as (joins & aliases' & -> & Hlen & Hall & Hinj & Hrest).
    eexists _, aliases'. split; [done|]. split; [by cbn; rewrite Hlen|].
    assert (aliases' !! k = Some a) as Hka.
    { rewrite (Hrest k Hk). apply lookup_insert_eq. }
    split; [|split].
    + intros k' Hk'. cbn [fmap list_fmap fst] in Hk'.
      apply elem_of_cons in Hk' as [Ek|Hk'].
      { rewrite Ek. eauto. }
      destruct (Hall k' Hk') as (a' & Ha' & Hfresh).
      exists a'. split; [done|].
      intros Hin. apply Hfresh, elem_of_union. by right.
    + intros k1 k2 a0 H1 H2 E1 E2. cbn [fmap list_fmap fst] in H1, H2.
      apply elem_of_cons in H1 as [Ek1|H1];
        apply elem_of_cons in H2 as [Ek2|H2].
      * congruence.
      * exfalso. destruct (Hall k2 H2) as (a' & Ha' & Hfresh).
        rewrite Ek1, Hka in E1. apply Hfresh, elem_of_union. left.
        apply elem_of_singleton. congruence.
      * exfalso. destruct (Hall k1 H1) as (a' & Ha' & Hfresh).
        rewrite Ek2, Hka in E2. apply Hfresh, elem_of_union. left.
        apply elem_of_singleton. congruence.
      * by eapply Hinj.
    + intros k' Hk'. cbn [fmap list_fmap fst] in Hk'.
      apply not_elem_of_cons in Hk' as [Hne Hk'].
      rewrite (Hrest k' Hk'). by apply lookup_insert_ne.
Qed.

(** Without the assumption on the keys: the loop ends, and every
    navigation table has an entry afterwards. *)
Lemma joins_loop_total (tables : list (string * TableInfo))
    (used : gset string) (aliases : gmap string string) :
  ∃ joins aliases',
    joins_loop tables used aliases = Some (Ok joins, aliases')
    ∧ (∀ k, is_Some (aliases !! k) → is_Some (aliases' !! k))
    ∧ (∀ k, k ∈ tables.*1 → is_Some (aliases' !! k)).
Proof.
  revert used aliases.
  induction tables as [|[k ti] tables IH]; intros used aliases.
  - exists [], aliases. split; [done|]. split; [done|].
    by intros k ?%elem_of_nil.
  - cbn [joins_loop].
    destruct (unique_alias_spec k used) as (a & -> & Ha).
    destruct (IH ({[a]} ∪ used) (<[k:=a]> aliases))
      as (joins & aliases' & -> & Hkeep & Hall).
    eexists _, aliases'. split; [done|].
    assert (is_Some (aliases' !! k)) as Hk.
    { apply Hkeep. rewrite lookup_insert_eq. by eexists. }
    split.
    + intros k' Hk'. apply Hkeep.
      destruct (decide (k' = k)) as [->|Hne].
      * rewrite lookup_insert_eq. by eexists.
      * by rewrite lookup_insert_ne.
    + intros k' Hk'. cbn [fmap list_fmap fst] in Hk'.
      apply elem_of_cons in Hk' as [->|Hk']; [done|]. by apply Hall.
Qed.

(** Both loops choose the same aliases. *)
Lemma alias_loops_agree (tables : list (string * TableInfo))
    (used : gset string) (aliases mapping : gmap string string) :
  NoDup tables.*1 →
  ∃ joins aliases' mapping',
    joins_loop tables used aliases = Some (Ok joins, aliases')
    ∧ navigation_aliases_loop tables used mapping = Some (Ok mapping')
    ∧ (∀ k ti, (k, ti) ∈ tables →
         ∃ a, aliases' !! k = Some a
              ∧ mapping' !! k = Some (a +:+ "." +:+ name_column ti)
              ∧ (spaces 12 +:+ join_clause k ti a) ∈ joins)
    ∧ (∀ k, k ∉ tables.*1 →
         aliases' !! k = aliases !! k ∧ mapping' !! k = mapping !! k).
Proof.
  revert used aliases mapping.
  induction tables as [|[k ti] tables IH]; intros used aliases mapping Hnd.
  - exists [], aliases, mapping. split; [done|]. split; [done|].
    split; [|done]. by intros k ti ?%elem_of_nil.
  - cbn [fmap list_fmap fst] in Hnd. apply NoDup_cons in Hnd as [Hk Hnd].
    cbn [joins_loop navigation_aliases_loop].
    destruct (unique_alias_spec k used) as (a & -> & Ha).
    destruct (IH ({[a]} ∪ used) (<[k:=a]> aliases)
                (<[k:=a +:+ "." +:+ name_column ti]> mapping) Hnd)
      as (joins & aliases' & mapping' & -> & -> & Hall & Hrest).
    eexists _, aliases', mapping'. split; [done|]. split; [done|]. split.
    + intros k' ti' Hin. apply elem_of_cons in Hin as [E|Hin].
      * injection E as -> ->. exists a.
        destruct (Hrest k Hk) as [-> ->]. rewrite !lookup_insert_eq.
        split; [done|]. split; [done|]. by left.
      * destruct (Hall k' ti' Hin) as (a' & ? & ? & ?).
        exists a'. split; [done|]. split; [done|]. by right.
    + intros k' Hk'. cbn [fmap list_fmap fst] in Hk'.
      apply not_elem_of_cons in Hk' as [Hne Hk'].
      destruct (Hrest k' Hk') as [-> ->]. by rewrite !lookup_insert_ne.
Qed.

Section JoinProperties.

Context {rt : Runtime}.
Implicit Types (qp : @QueryParser rt).

(** X3. With a navigation analysis in place whose table keys are
    distinct, [_build_dynamic_joins] returns, and afterwards every
    navigation table has an alias that differs from [d], the alias of the
    main table, and two different tables have different aliases. *)
Theorem join_aliases_are_distinct qp (na : NavigationAnalysis) :
  qp_navigation_analysis qp = Some na →
  NoDup (navigation_tables na).*1 →
  ∃ qp',
    _build_dynamic_joins qp = Some (Ok tt, qp')
    ∧ (∀ k, k ∈ (navigation_tables na).*1 →
         ∃ a, qp_entity_aliases qp' !! k = Some a ∧ a ≠ "d")
    ∧ (∀ k1 k2 a,
         k1 ∈ (navigation_tables na).*1 → k2 ∈ (navigation_tables na).*1 →
         qp_entity_aliases qp' !! k1 = Some a →
         qp_entity_aliases qp' !! k2 = Some a → k1 = k2).
Proof.
  intros Hna Hnd. unfold _build_dynamic_joins, nav_tables. rewrite Hna.
  destruct (joins_loop_aliases (navigation_tables na) {["d"]}
              (qp_entity_aliases qp) Hnd)
    as (joins & aliases' & -> & _ & Hall & Hinj & _).
  eexists. split; [done|]. cbn [qp_entity_aliases with_joins].
  split; [|done].
  intros k Hk. destruct (Hall k Hk) as (a & Ha & Hfresh).
  exists a. split; [done|].
  intros ->. by apply Hfresh, elem_of_singleton.
Qed.

Lemma for_tables_with_aliases qp (text : string → string → TableInfo → string)
    (tables : list (string * TableInfo)) :
  (∀ k, k ∈ tables.*1 → is_Some (qp_entity_aliases qp !! k)) →
  ∃ l, for_tables (fun k i => alias ← alias_of qp k; Ok (text alias k i)) tables
       = Ok l.
Proof.
  induction tables as [|[k i] tables IH]; intros Hall; [by eexists|].
  cbn [for_tables].
  destruct (Hall k) as [a Ha]; [by left|].
  assert (alias_of qp k = Ok a) as -> by (unfold alias_of; by rewrite Ha).
  cbn [mbind result_bind rbind].
  destruct IH as [l ->]; [|by eexists].
  intros k' Hk'. apply Hall. by right.
Qed.

(** X4. With a navigation analysis in place, [_build_dynamic_joins]
    returns and leaves an alias for every navigation table:
    [_build_dynamic_select_fields] and [_build_dynamic_global_search_fields]
    then find each alias they look up and return without an exception. *)
Theorem joins_give_every_table_an_alias qp (na : NavigationAnalysis) :
  qp_navigation_analysis qp = Some na →
  ∃ qp',
    _build_dynamic_joins qp = Some (Ok tt, qp')
    ∧ (∃ select_fields, _build_dynamic_select_fields qp' = Ok select_fields)
    ∧ (∀ term, ∃ fields,
         _build_dynamic_global_search_fields qp' term = Ok fields).
Proof.
  intros Hna. unfold _build_dynamic_joins, nav_tables. rewrite Hna.
  destruct (joins_loop_total (navigation_tables na) {["d"]}
              (qp_entity_aliases qp))
    as (joins & aliases' & -> & _ & Hall).
  eexists. split; [done|].
  set (qp' := with_joins qp _ aliases').
  assert (∀ term, ∃ fields,
            _build_dynamic_global_search_fields qp' term = Ok fields) as Hgsf.
  { intros term. unfold _build_dynamic_global_search_fields, nav_tables.
    cbn [qp_navigation_analysis qp' with_joins]. rewrite Hna.
    cbn [mbind result_bind rbind].
    destruct (for_tables_with_aliases qp'
                (fun alias _ i => alias +:+ "." +:+ name_column i)
                (navigation_tables na) Hall) as [l ->].
    by eexists. }
  split; [|done].
  destruct (Hgsf "") as [fields Hfields].
  by apply (global_search_fields_ok qp' "" "" fields).
Qed.

(** X5. The schema mapping and the JOIN clauses agree on the aliases:
    for navigation tables with distinct keys, [_build_navigation_aliases]
    maps every key to [alias.name_column] for the very alias under which
    [_build_dynamic_joins] joins the table, and the FROM-and-JOINs text is
    the FROM line of the main table followed by one JOIN line per table. *)
Theorem schema_mapping_uses_join_aliases qp (na : NavigationAnalysis) :
  qp_navigation_analysis qp = Some na →
  NoDup (navigation_tables na).*1 →
  ∃ mapping qp' joins,
    _build_navigation_aliases (navigation_tables na) = Some (Ok mapping)
    ∧ _build_dynamic_joins qp = Some (Ok tt, qp')
    ∧ qp_from_and_joins qp'
      = PyStr.join newline (("FROM " +:+ qp_main_table qp +:+ " d") :: joins)
    ∧ ∀ k ti, (k, ti) ∈ navigation_tables na →
        ∃ a, qp_entity_aliases qp' !! k = Some a
             ∧ mapping !! k = Some (a +:+ "." +:+ name_column ti)
             ∧ (spaces 12 +:+ join_clause k ti a) ∈ joins.
Proof.
  intros Hna Hnd.
  unfold _build_navigation_aliases, _build_dynamic_joins, nav_tables.
  rewrite Hna.
  destruct (alias_loops_agree (navigation_tables na) {["d"]}
              (qp_entity_aliases qp) ∅ Hnd)
    as (joins & aliases' & mapping' & -> & -> & Hall & _).
  by eexists _, _, joins.
Qed.

End JoinProperties.

(** ** Field classification *)

Lemma classify_columns_spec (columns : list ColumnInfo) (sf idf : gset string) :
  (∀ x, x ∈ (classify_columns columns sf idf).1 ↔
        x ∈ sf ∨ ∃ column, column ∈ columns ∧ column_name column = x
                  ∧ _is_string_type (PyStr.lower (data_type column)) = true)
  ∧ (∀ x, x ∈ (classify_columns columns sf idf).2 ↔
          x ∈ idf ∨ ∃ column, column ∈ columns ∧ column_name column = x
                     ∧ (is_foreign_key column = true
                        ∨ PyStr.endswith x "_id" = true)).
Proof.
  revert sf idf. induction columns as [|c columns IH]; intros sf idf.
  - cbn. split; intros x; split; [by left| |by left|];
      intros [?|(? & []%elem_of_nil & _)]; done.
  - cbn [classify_columns].
    destruct (IH
      (if _is_string_type (PyStr.lower (data_type c))
       then {[column_name c]} ∪ sf else sf)
      (if is_foreign_key c || PyStr.endswith (column_name c) "_id"
       then {[column_name c]} ∪ idf else idf)) as [IHs IHi].
    split; intros x; [rewrite IHs|rewrite IHi]; clear IHs IHi.
    + split.
      * intros [Hx|(col & Hcol & Hname & Htype)].
        -- destruct (_is_string_type _) eqn:Htype; [|by left].
           apply elem_of_union in Hx as [->%elem_of_singleton|Hx]; [|by left].
           right. exists c. split; [by left|done].
        -- right. exists col. split; [by right|done].
      * intros [Hx|(col & Hcol & Hname & Htype)].
        -- left. destruct (_is_string_type _); [|done].
           apply elem_of_union. by right.
        -- apply elem_of_cons in Hcol as [->|Hcol].
           ++ left. rewrite Htype, <- Hname.
              apply elem_of_union. left. by apply elem_of_singleton.
           ++ right. by exists col.
    + split.
      * intros [Hx|(col & Hcol & Hname & Hid)].
        -- destruct (is_foreign_key c || _) eqn:Hid; [|by left].
           apply elem_of_union in Hx as [->%elem_of_singleton|Hx]; [|by left].
           right. exists c. split; [by left|]. split; [done|].
           by apply orb_true_iff in Hid.
        -- right. exists col. split; [by right|done].
      * intros [Hx|(col & Hcol & Hname & Hid)].
        -- left. destruct (is_foreign_key c || _); [|done].
           apply elem_of_union. by right.
        -- apply elem_of_cons in Hcol as [->|Hcol].
           ++ left. rewrite <- Hname in Hid. apply orb_true_iff in Hid.
              rewrite Hid, <- Hname.
              apply elem_of_union. left. by apply elem_of_singleton.
           ++ right. by exists col.
Qed.

Lemma classify_entities_spec (tables : list (string * TableInfo))
    (sf ef : gset string) :
  (∀ x, x ∈ (classify_entities tables sf ef).1 ↔
        x ∈ sf ∨ ∃ k, k ∈ tables.*1 ∧ (x = k ∨ x = k +:+ "_name"))
  ∧ (∀ x, x ∈ (classify_entities tables sf ef).2 ↔ x ∈ ef ∨ x ∈ tables.*1).
Proof.
  revert sf ef. induction tables as [|[k ti] tables IH]; intros sf ef.
  - cbn. split; intros x; split; [by left| |by left|].
    + by intros [?|(? & []%elem_of_nil & _)].
    + by intros [?|[]%elem_of_nil].
  - cbn [classify_entities fmap list_fmap fst].
    destruct (IH ({[k +:+ "_name"]} ∪ ({[k]} ∪ sf)) ({[k]} ∪ ef)) as [IHs IHe].
    split; intros x; [rewrite IHs|rewrite IHe]; clear IHs IHe.
    + rewrite !elem_of_union, !elem_of_singleton. split.
      * intros [[->|[->|Hx]]|(k' & Hk' & Hx)].
        -- right. exists k. split; [by left|by right].
        -- right. exists k. split; [by left|by left].
        -- by left.
        -- right. exists k'. split; [by right|done].
      * intros [Hx|(k' & Hk' & Hx)]; [by left; right; right|].
        apply elem_of_cons in Hk' as [->|Hk'].
        -- left. destruct Hx as [->| ->]; [right; by left|by left].
        -- right. by exists k'.
    + rewrite elem_of_union, elem_of_singleton, elem_of_cons. tauto.
Qed.

Section Classification.

Context {rt : Runtime}.
Implicit Types (qp : @QueryParser rt) (v : @value rt).

Lemma classification_spec qp
    (schema_tables : gmap string (list ColumnInfo))
    (navigation_tables : list (string * TableInfo))
    (columns : list ColumnInfo) :
  schema_tables !! qp_main_table qp = Some columns →
  ∃ qp',
    _fetch_field_type_classifications qp schema_tables navigation_tables
    = (Ok tt, qp')
    ∧ (∀ x, x ∈ qp_string_fields qp' ↔
         (∃ column, column ∈ columns ∧ column_name column = x
            ∧ _is_string_type (PyStr.lower (data_type column)) = true)
         ∨ (∃ k, k ∈ navigation_tables.*1 ∧ (x = k ∨ x = k +:+ "_name")))
    ∧ (∀ x, x ∈ qp_id_fields qp' ↔
         ∃ column, column ∈ columns ∧ column_name column = x
           ∧ (is_foreign_key column = true ∨ PyStr.endswith x "_id" = true))
    ∧ (∀ x, x ∈ qp_entity_fields qp' ↔ x ∈ navigation_tables.*1).
Proof.
  intros Hcols. unfold _fetch_field_type_classifications. rewrite Hcols.
  destruct (classify_columns_spec columns ∅ ∅) as [Hs Hi].
  destruct (classify_columns columns ∅ ∅) as [sf idf]. cbn [fst snd] in Hs, Hi.
  destruct (classify_entities_spec navigation_tables sf ∅) as [Hs' He].
  destruct (classify_entities navigation_tables sf ∅) as [sf' ef].
  cbn [fst snd] in Hs', He.
  eexists. split; [done|].
  cbn [qp_string_fields qp_id_fields qp_entity_fields with_classification].
  split; [|split].
  - intros x. rewrite Hs', Hs, elem_of_empty. tauto.
  - intros x. rewrite Hi, elem_of_empty. tauto.
  - intros x. rewrite He, elem_of_empty. tauto.
Qed.

(** X6. When the main table is in the discovered schema,
    [_fetch_field_type_classifications] succeeds and leaves exactly these
    sets: the string fields are the columns of a string type together with
    every navigation key and its [_name] form; the id fields are the
    foreign-key columns and the columns named [..._id]; the entity fields
    are the navigation keys. *)
Theorem classification_reflects_schema qp
    (schema_tables : gmap string (list ColumnInfo))
    (navigation_tables : list (string * TableInfo))
    (columns : list ColumnInfo) :
  schema_tables !! qp_main_table qp = Some columns →
  ∃ qp',
    _fetch_field_type_classifications qp schema_tables navigation_tables
    = (Ok tt, qp')
    ∧ (∀ x, x ∈ qp_string_fields qp' ↔
         (∃ column, column ∈ columns ∧ column_name column = x
            ∧ _is_string_type (PyStr.lower (data_type column)) = true)
         ∨ (∃ k, k ∈ navigation_tables.*1 ∧ (x = k ∨ x = k +:+ "_name")))
    ∧ (∀ x, x ∈ qp_id_fields qp' ↔
         ∃ column, column ∈ columns ∧ column_name column = x
           ∧ (is_foreign_key column = true ∨ PyStr.endswith x "_id" = true))
    ∧ (∀ x, x ∈ qp_entity_fields qp' ↔ x ∈ navigation_tables.*1).
Proof.
  intros Hcols.
  destruct (classification_spec qp schema_tables navigation_tables columns
              Hcols) as (qp' & Hfetch & Hs & Hi & He).
  exists qp'. split; [exact Hfetch|].
  split; [exact Hs|]. split; [exact Hi|exact He].
Qed.


End Classification.

Section Requests.

Context {rt : Runtime}.
Implicit Types (t : @SqlTranslator rt) (qp : @QueryParser rt).

(** ** One parser object, many requests *)

Lemma with_translator_same qp : with_translator qp (qp_translator qp) = qp.
Proof. by destruct qp. Qed.

(** [parse_query] changes nothing of the parser object but the state of
    its translator. *)
Lemma parse_query_frame qp (query_string sort_by sort_order : string) :
  ∃ t, (parse_query qp query_string sort_by sort_order).2
       = with_translator qp t.
Proof.
  unfold parse_query.
  destruct (bool_decide _); [exists (qp_translator qp); by destruct qp|].
  destruct (String.eqb _ _); [exists (qp_translator qp); by destruct qp|].
  destruct (parse_ast qp query_string) as [ast|].
  - destruct (_build_dynamic_global_search_fields qp _) as [gsf|e];
      [|exists (qp_translator qp); by destruct qp].
    destruct (translate ast _) as [[where_clause|e] t]; by exists t.
  - destruct (hybrid_result_parser qp query_string) as [t Ht].
    destruct (_build_hybrid_search_clause qp query_string) as [h q1].
    cbn [snd] in Ht. subst q1. exists t. by repeat case_match.
Qed.

(** X8. A call of [parse_query] leaves the parser able to answer the next
    call as if it were the first one: the result of a second call is the
    result the same call gives on the parser before the first call, and
    the first call changes neither the schema mapping, nor the aliases,
    nor the FROM-and-JOINs text. *)
Theorem parse_query_calls_are_independent qp
    (query1 sort_by1 sort_order1 query2 sort_by2 sort_order2 : string) :
  let qp1 := (parse_query qp query1 sort_by1 sort_order1).2 in
  (parse_query qp1 query2 sort_by2 sort_order2).1
  = (parse_query qp query2 sort_by2 sort_order2).1
  ∧ qp_schema_mapping qp1 = qp_schema_mapping qp
  ∧ qp_entity_aliases qp1 = qp_entity_aliases qp
  ∧ qp_from_and_joins qp1 = qp_from_and_joins qp.
Proof.
  intros qp1. destruct (parse_query_frame qp query1 sort_by1 sort_order1)
    as [t Ht].
  subst qp1. rewrite Ht. split; [|done].
  rewrite <- (with_translator_same qp) at 2.
  apply parse_query_ignores_translator_state.
Qed.

(** ** The sort arguments *)

Lemma upper_lower_char (c : ascii) :
  PyStr.upper_char (PyStr.lower_char c) = PyStr.upper_char c.
Proof. destruct c as [[] [] [] [] [] [] [] []]; reflexivity. Qed.

Lemma upper_lower (s : string) : PyStr.upper (PyStr.lower s) = PyStr.upper s.
Proof.
  unfold PyStr.upper, PyStr.lower. induction s as [|c s IH]; [done|].
  cbn [PyStr.map]. by rewrite upper_lower_char, IH.
Qed.

Lemma sort_order_cases (sort_order : string) :
  existsb (String.eqb (PyStr.lower sort_order)) ["asc"; "desc"] = true →
  (PyStr.lower sort_order = "asc" ∧ PyStr.upper sort_order = "ASC")
  ∨ (PyStr.lower sort_order = "desc" ∧ PyStr.upper sort_order = "DESC").
Proof.
  cbn [existsb]. rewrite orb_false_r. intros H.
  apply orb_true_iff in H as [H|H]; apply String.eqb_eq in H;
    [left|right]; (split; [done|]);
    rewrite <- upper_lower, H; reflexivity.
Qed.

(** What a successful [_build_order_by_clause] tells about its
    arguments and its result. *)
Lemma order_by_ok qp (sort_by sort_order order_by : string) :
  _build_order_by_clause qp sort_by sort_order = Ok order_by →
  (PyStr.lower sort_order = "asc" ∨ PyStr.lower sort_order = "desc")
  ∧ (PyStr.startswith sort_by "metadata." = true
     ∨ truthy (qp_schema_mapping qp !! base_field_of sort_by) = true
     ∨ base_field_of sort_by ∈ qp_entity_fields qp
     ∨ base_field_of sort_by ∈ qp_available_metadata_fields qp)
  ∧ ∃ expression key direction,
      (direction = "ASC" ∨ direction = "DESC")
      ∧ order_by = "ORDER BY " +:+ expression +:+ " " +:+ direction +:+
                   ", d." +:+ key +:+ " " +:+ direction.
Proof.
  unfold _build_order_by_clause.
  destruct (existsb _ _) eqn:Horder; cbn [negb]; [|done].
  apply sort_order_cases in Horder.
  assert (PyStr.upper sort_order = "ASC" ∨ PyStr.upper sort_order = "DESC")
    as Hdir by tauto.
  assert (PyStr.lower sort_order = "asc" ∨ PyStr.lower sort_order = "desc")
    as Hlow by tauto.
  clear Horder.
  destruct (qp_navigation_analysis qp) as [na|].
  2:{ destruct (PyStr.startswith _ _); [done|].
      by destruct (to_sql _ _ _ _ _ _ _ _). }
  destruct (PyStr.startswith sort_by "metadata.") eqn:Hmeta.
  - cbn [mbind result_bind rbind]. intros [= <-].
    split; [done|]. split; [by left|].
    exists (sort_json_field
              (PyStr.split_char "."
                 (default "" (PyStr.split_char_once "." sort_by !! 1)))),
      (main_primary_key (main_table_schema na)), (PyStr.upper sort_order).
    split; [exact Hdir|]. by rewrite !append_assoc.
  - destruct (to_sql _ _ _ _ _ _ _ _) as [sql_field|e] eqn:Hsql; [|done].
    cbn [mbind result_bind rbind]. intros [= <-].
    split; [done|]. split.
    + right. unfold to_sql in Hsql. cbn [parts] in Hsql.
      rewrite (validation_without_comparison _ None None) in Hsql by by left.
      cbn [mbind result_bind rbind] in Hsql. unfold mem in Hsql.
      destruct (truthy _); [by left|].
      case_bool_decide; [by right; left|].
      case_bool_decide; [by right; right|done].
    + exists sql_field, (main_primary_key (main_table_schema na)),
        (PyStr.upper sort_order).
      split; [exact Hdir|]. by rewrite !append_assoc.
Qed.

Lemma assemble_order_by qp (indent : nat) (where_clause : string)
    (params : list param) (sort_by sort_order count search : string)
    (params' : list param) :
  assemble qp indent where_clause params sort_by sort_order
  = Ok (count, search, params') →
  ∃ order_by before,
    _build_order_by_clause qp sort_by sort_order = Ok order_by
    ∧ search = before +:+ order_by +:+ newline +:+ spaces indent.
Proof.
  unfold assemble.
  destruct (_build_dynamic_select_fields qp) as [sel|e]; [|done].
  destruct (_build_order_by_clause qp sort_by sort_order) as [ob|e]; [|done].
  cbn [mbind result_bind rbind]. intros [= <- <- <-].
  exists ob,
    (newline +:+ spaces (indent + 4) +:+ "SELECT " +:+ sel +:+
     newline +:+ spaces (indent + 4) +:+ qp_from_and_joins qp +:+
     newline +:+ spaces (indent + 4) +:+ "WHERE " +:+ where_clause +:+
     newline +:+ spaces (indent + 4)).
  split; [done|]. unfold filtered_select. by rewrite !append_assoc.
Qed.

(** Every path of [parse_query] that returns builds the ORDER BY clause
    and puts it at the end of the search statement. *)
Lemma parse_query_order_by qp (query_string sort_by sort_order : string)
    (count search : string) (params : list param) :
  (parse_query qp query_string sort_by sort_order).1
  = Ok (count, search, params) →
  ∃ order_by before indent,
    _build_order_by_clause qp sort_by sort_order = Ok order_by
    ∧ search = before +:+ order_by +:+ newline +:+ spaces indent.
Proof.
  unfold parse_query.
  destruct (bool_decide _); [done|].
  destruct (String.eqb _ _).
  - cbn [fst].
    destruct (_build_dynamic_select_fields qp) as [sel|e]; [|done].
    destruct (_build_order_by_clause qp sort_by sort_order) as [ob|e]; [|done].
    cbn [mbind result_bind rbind]. intros [= <- <- <-].
    exists ob,
      (newline +:+ spaces 16 +:+ "SELECT " +:+ sel +:+
       newline +:+ spaces 16 +:+ qp_from_and_joins qp +:+
       newline +:+ spaces 16), 12.
    split; [done|]. unfold unfiltered_select. by rewrite !append_assoc.
  - destruct (parse_ast qp query_string) as [ast|].
    + destruct (_build_dynamic_global_search_fields qp _) as [gsf|e]; [|done].
      destruct (translate ast _) as [[where_clause|e] t]; [|done].
      cbn [fst]. intros H.
      apply assemble_order_by in H as (ob & before & Hob & ->). by eexists _, _, _.
    + destruct (hybrid_result_parser qp query_string) as [t Ht].
      destruct (_build_hybrid_search_clause qp query_string) as [h q1].
      cbn [snd] in Ht. subst q1.
      change (_build_fuzzy_search_clause (with_translator qp t))
        with (_build_fuzzy_search_clause qp).
      destruct (match h with Ok r => Ok r | Raise _ => _ end) as [[w ps]|e];
        [|done].
      cbn [fst]. rewrite assemble_with_translator. intros H.
      apply assemble_order_by in H as (ob & before & Hob & ->). by eexists _, _, _.
Qed.

(** X9. When [parse_query] returns statements, the sort order is [asc] or
    [desc] in some letter case, the sort key is a metadata path or a field
    the parser knows (a column of the schema mapping, a navigation entity
    or a metadata field), and the search statement ends with
    [ORDER BY expression DIR, d.key DIR], where [DIR] is [ASC] or [DESC],
    followed by a line break and indentation only. *)
Theorem parse_query_validates_sorting qp
    (query_string sort_by sort_order : string)
    (count search : string) (params : list param) :
  (parse_query qp query_string sort_by sort_order).1
  = Ok (count, search, params) →
  (PyStr.lower sort_order = "asc" ∨ PyStr.lower sort_order = "desc")
  ∧ (PyStr.startswith sort_by "metadata." = true
     ∨ truthy (qp_schema_mapping qp !! base_field_of sort_by) = true
     ∨ base_field_of sort_by ∈ qp_entity_fields qp
     ∨ base_field_of sort_by ∈ qp_available_metadata_fields qp)
  ∧ ∃ before expression key direction indent,
      (direction = "ASC" ∨ direction = "DESC")
      ∧ search = before +:+ "ORDER BY " +:+ expression +:+ " " +:+ direction
                 +:+ ", d." +:+ key +:+ " " +:+ direction
                 +:+ newline +:+ spaces indent.
Proof.
  intros H. apply parse_query_order_by in H as (ob & before & indent & Hob & ->).
  apply order_by_ok in Hob as (Hlow & Hknown & expr & key & dir & Hdir & ->).
  split; [done|]. split; [done|].
  exists before, expr, key, dir, indent. split; [done|].
  by rewrite !append_assoc.
Qed.

Lemma lower_lower_char (c : ascii) :
  PyStr.lower_char (PyStr.lower_char c) = PyStr.lower_char c.
Proof. destruct c as [[] [] [] [] [] [] [] []]; reflexivity. Qed.

Lemma lower_lower (s : string) : PyStr.lower (PyStr.lower s) = PyStr.lower s.
Proof.
  unfold PyStr.lower. induction s as [|c s IH]; [done|].
  cbn [PyStr.map]. by rewrite lower_lower_char, IH.
Qed.

Lemma order_by_letter_case qp (sort_by sort_order1 sort_order2 : string) :
  PyStr.lower sort_order1 = PyStr.lower sort_order2 →
  _build_order_by_clause qp sort_by sort_order1
  = _build_order_by_clause qp sort_by sort_order2.
Proof.
  intros Hlow. unfold _build_order_by_clause.
  rewrite <- (upper_lower sort_order1), <- (upper_lower sort_order2).
  by rewrite Hlow.
Qed.

(** X10. [parse_query] ignores the letter case of the sort order: two
    sort orders that are equal in lower case give the same result and
    leave the parser in the same state. *)
Theorem sort_order_letter_case_is_ignored qp
    (query_string sort_by sort_order1 sort_order2 : string) :
  PyStr.lower sort_order1 = PyStr.lower sort_order2 →
  parse_query qp query_string sort_by sort_order1
  = parse_query qp query_string sort_by sort_order2.
Proof.
  intros Hlow. unfold parse_query.
  destruct (bool_decide _); [done|].
  destruct (String.eqb _ _).
  { by rewrite (order_by_letter_case qp sort_by _ _ Hlow). }
  destruct (parse_ast qp query_string) as [ast|].
  - destruct (_build_dynamic_global_search_fields qp _) as [gsf|e]; [|done].
    destruct (translate ast _) as [[where_clause|e] t]; [|done].
    unfold assemble. by rewrite (order_by_letter_case qp sort_by _ _ Hlow).
  - destruct (_build_hybrid_search_clause qp query_string) as [h q1].
    destruct (match h with Ok r => Ok r | Raise _ => _ end) as [[w ps]|e];
      [|done].
    unfold assemble. by rewrite (order_by_letter_case q1 sort_by _ _ Hlow).
Qed.

(** ** Validation errors at the endpoints *)

(** X11. When the sort order is valid and [parse_query] raises a
    [SearchValidationError], the [/query/] endpoint answers with an HTTP
    400 whose body carries the status 400, the error type of the
    exception, its message when that is not empty and its user message
    when it has one.  [/download-filtered/] has no handler for this
    exception: it leaves the endpoint as it was raised. *)
Theorem query_endpoint_reports_validation_errors qp
    (q sort_by sort_order : string)
    (message error_type : string)
    (field_name operation user_message : option string) :
  existsb (String.eqb (PyStr.lower sort_order)) ["asc"; "desc"] = true →
  (parse_query qp q sort_by (PyStr.lower sort_order)).1
  = Raise (SearchValidationError message error_type field_name operation
             user_message) →
  (∃ h,
     (execute_gclql_query qp q sort_by sort_order).1 = Responds h
     ∧ status_code h = 400%Z
     ∧ body_status (detail h) = 400%Z
     ∧ details_error (body_details (detail h)) = error_type
     ∧ (message ≠ "" → details_message (body_details (detail h)) = message)
     ∧ (truthy user_message = true →
        Some (body_message (detail h)) = user_message))
  ∧ (download_filtered_entities qp q sort_by sort_order).1
    = Escapes (SearchValidationError message error_type field_name operation
                 user_message).
Proof.
  intros Horder Hraise.
  unfold execute_gclql_query, download_filtered_entities, endpoint_statements.
  rewrite Horder. cbn [negb].
  destruct (parse_query qp q sort_by (PyStr.lower sort_order)) as [r qp1].
  cbn [fst] in Hraise. subst r. cbn [fst].
  split; [|reflexivity].
  unfold query_error_response.
  destruct (String.eqb_spec error_type "invalid_field") as [->|Hf];
    [|destruct (String.eqb_spec error_type "invalid_operation") as [->|Ho]];
    eexists; (split; [reflexivity|]); cbn;
    (split; [reflexivity|]); (split; [reflexivity|]);
    (split; [reflexivity|]).
  - split.
    + intros Hm. by destruct message.
    + intros Hu. rewrite Hu. by destruct user_message.
  - split.
    + intros Hm. by destruct message.
    + intros Hu. rewrite Hu. by destruct user_message.
  - split; [done|]. intros Hu. rewrite Hu. by destruct user_message.
Qed.

End Requests.

(** ** Placeholders on the recovery paths *)

Lemma lstrip_head (p : ascii → bool) (s : string) :
  PyStr.lstrip_by p s = ""
  ∨ ∃ c r, PyStr.lstrip_by p s = String c r ∧ p c = false.
Proof.
  induction s as [|c s IH]; [by left|].
  cbn [PyStr.lstrip_by]. destruct (p c) eqn:Hc; [done|].
  right. by exists c, s.
Qed.

Lemma rstrip_head (p : ascii → bool) (c : ascii) (r : string) :
  p c = false → ∃ r', PyStr.rstrip_by p (String c r) = String c r'.
Proof.
  intros Hc. cbn [PyStr.rstrip_by]. rewrite Hc.
  destruct (PyStr.rstrip_by p r); by eexists.
Qed.

Lemma strip_by_head (p : ascii → bool) (c : ascii) (r : string) :
  p c = false → ∃ r', PyStr.strip_by p (String c r) = String c r'.
Proof.
  intros Hc. unfold PyStr.strip_by. cbn [PyStr.lstrip_by]. rewrite Hc.
  by apply rstrip_head.
Qed.

Lemma strip_by_nonempty (p : ascii → bool) (s : string) :
  PyStr.strip_by p s ≠ "" →
  ∃ c r, PyStr.strip_by p s = String c r ∧ p c = false.
Proof.
  unfold PyStr.strip_by.
  destruct (lstrip_head p s) as [->|(c & r & -> & Hc)]; [done|].
  intros _. destruct (rstrip_head p c r Hc) as [r' ->]. by exists c, r'.
Qed.

(** Stripping twice is stripping once, as far as emptiness goes. *)
Lemma strip_strip_nonempty (s : string) :
  PyStr.strip s ≠ "" → PyStr.strip (PyStr.strip s) ≠ "".
Proof.
  unfold PyStr.strip. intros (c & r & -> & Hc)%strip_by_nonempty.
  by destruct (strip_by_head PyStr.isspace c r Hc) as [r' ->].
Qed.

Lemma join_cons (sep x : string) (l : list string) :
  PyStr.join sep (x :: l)
  = match l with [] => x | _ => x +:+ sep +:+ PyStr.join sep l end.
Proof. by destruct l. Qed.

Lemma join_snoc (sep x : string) (l : list string) :
  l ≠ [] → PyStr.join sep (l ++ [x]) = PyStr.join sep l +:+ sep +:+ x.
Proof.
  induction l as [|y l IH]; [done|]. intros _.
  change ((y :: l) ++ [x]) with (y :: (l ++ [x])).
  rewrite !join_cons. destruct l as [|z l]; [done|].
  rewrite IH by done. cbn [app]. by rewrite !append_assoc.
Qed.

(** The end of the page statement. *)
Lemma placeholders_placeholder_tail (n m : Z) :
  (0 ≤ n)%Z → (0 ≤ m)%Z →
  placeholders (" LIMIT $" +:+ PyStr.str_int n +:+ " OFFSET $"
                +:+ PyStr.str_int m)
  = [PyStr.str_int n; PyStr.str_int m].
Proof.
  intros Hn Hm.
  change (placeholders (" LIMIT " +:+ placeholder_of n +:+ " OFFSET "
                        +:+ placeholder_of m)
          = [PyStr.str_int n; PyStr.str_int m]).
  rewrite placeholders_dollar_free by done.
  rewrite placeholders_placeholder by done.
  rewrite placeholders_dollar_free by done.
  by rewrite placeholders_placeholder_end.
Qed.

Section Recovery.

Context {rt : Runtime}.
Implicit Types (t : @SqlTranslator rt) (qp : @QueryParser rt).
Implicit Types (node : @AstNode rt).

Lemma parse_ast_grammar qp (text : string) node :
  qp_parser qp = Lark.parse → parse_ast qp text = Some node →
  grammar_ast node = true.
Proof.
  intros Hparser. unfold parse_ast. rewrite Hparser.
  destruct (Lark.parse text) as [tree|] eqn:Htree; [|done].
  cbn [mbind option_bind]. intros Htr.
  eapply transform_grammar; [|exact Htr]. by eapply parse_grammar.
Qed.

(** A translation that adds no placeholder adds no parameter. *)
Lemma numbered_empty t t' (n : nat) :
  numbered t "" t' n → n = 0 ∧ t_params t' = t_params t.
Proof.
  intros (Hp & (extra & He & Hlen) & _).
  apply (f_equal length) in Hp. rewrite numbering_length in Hp.
  cbn in Hp. subst n. destruct extra; [|done].
  by rewrite app_nil_r in He.
Qed.

Lemma numbered_trans_empty t t1 t2 (sql : string) (n : nat) :
  numbered t sql t1 n → numbered t1 "" t2 0 → numbered t sql t2 n.
Proof.
  intros (Hp & (e1 & He1 & Hn) & _ & Hc1) H2.
  destruct (numbered_empty _ _ _ H2) as [_ Hsame].
  destruct H2 as (_ & _ & Hi2 & Hc2).
  split; [done|]. split; [exists e1; by rewrite Hsame|]. split; [done|].
  destruct Hc1 as (?&?&?&?&?&?), Hc2 as (?&?&?&?&?&?).
  repeat split; congruence.
Qed.

(** The clauses of the parts that parsed, joined, hold the placeholders
    of the parameters the loop appended. *)
Lemma hybrid_loop_numbered qp (part_list : list string) t
    (valid_clauses fuzzy_search_terms : list string) t' :
  qp_parser qp = Lark.parse →
  dollar_free_context t → index_in_step t →
  hybrid_loop qp part_list t = (Ok (valid_clauses, fuzzy_search_terms), t') →
  (∃ n, numbered t (PyStr.join " AND " valid_clauses) t' n)
  ∧ ∀ x, x ∈ fuzzy_search_terms → x ∈ part_list.
Proof.
  intros Hparser. revert t valid_clauses fuzzy_search_terms t'.
  induction part_list as [|part part_list IH];
    intros t vc fs t' Hctx Ht; cbn [hybrid_loop].
  - intros [= <- <- <-]. split; [|done]. exists 0. by apply numbered_none.
  - destruct (parse_ast qp part) as [ast|] eqn:Hparse.
    + destruct (translate ast t) as [[clause|e] t1] eqn:Htr; [|done].
      destruct (hybrid_loop qp part_list t1) as [[[vc' fs']|e] t2] eqn:Hloop;
        [|done].
      intros [= <- <- <-].
      destruct (translate_numbered ast t clause t1
                  (parse_ast_grammar _ _ _ Hparser Hparse) Hctx Ht Htr)
        as [n Hn].
      pose proof (numbered_same_context _ _ _ _ Hn Hctx) as Hctx1.
      destruct (IH _ _ _ _ Hctx1 (proj1 (proj2 (proj2 Hn))) Hloop)
        as [[m Hm] Hfs].
      split; [|intros x Hx; right; by apply Hfs].
      rewrite join_cons. destruct vc' as [|c vc'].
      * exists n. destruct (numbered_empty _ _ _ Hm) as [-> _].
        by eapply numbered_trans_empty.
      * exists (n + m).
        pose proof (numbered_seq t t1 t2 clause (PyStr.join " AND " (c :: vc'))
                      n m "" " AND " "" eq_refl eq_refl eq_refl
                      (fun _ => eq_refl) eq_refl Hn Hm) as H.
        by rewrite append_empty_l, !append_empty_r in H.
    + destruct (hybrid_loop qp part_list t) as [[[vc' fs']|e] t2] eqn:Hloop;
        [|done].
      intros [= <- <- <-].
      destruct (IH _ _ _ _ Hctx Ht Hloop) as [Hnum Hfs].
      split; [done|].
      intros x [->|Hx]%elem_of_cons; [by left|right; by apply Hfs].
Qed.

Lemma numbered_after_empty t t1 t2 (sql : string) (n : nat) :
  numbered t "" t1 0 → numbered t1 sql t2 n → numbered t sql t2 n.
Proof.
  intros H1 (Hp & (e2 & He2 & Hn) & Hi2 & Hc2).
  destruct (numbered_empty _ _ _ H1) as [_ Hsame].
  destruct H1 as (_ & _ & _ & Hc1).
  split; [by rewrite <- Hsame|].
  split; [exists e2; by rewrite <- Hsame|]. split; [done|].
  destruct Hc1 as (?&?&?&?&?&?), Hc2 as (?&?&?&?&?&?).
  repeat split; congruence.
Qed.

(** The free-text clause over a non-empty field list, for a term that is
    not blank: it is no [TRUE], and its one placeholder is the next. *)
Lemma global_clause_placeholders (term : string) (q : bool)
    (fields : list string) (k : Z) :
  Forall (fun x => dollar_free x = true) fields → fields ≠ [] →
  PyStr.strip term ≠ "" → (0 ≤ k)%Z →
  String.eqb (_build_global_search_clause term q fields k).1 "TRUE" = false
  ∧ collapse (placeholders (_build_global_search_clause term q fields k).1)
    = [PyStr.str_int (k + 1)].
Proof.
  intros Hfields Hne Hterm Hk. unfold _build_global_search_clause.
  assert (String.eqb (PyStr.strip term) "" = false) as ->
    by by apply String.eqb_neq.
  destruct fields as [|f fields]; [done|].
  destruct (_ <$> f :: fields) as [|c cs] eqn:Hconds; [done|].
  cbn [fst]. split; [done|].
  change (match cs with [] => c | _ :: _ => _ end)
    with (PyStr.join " OR " (c :: cs)).
  rewrite <- Hconds.
  rewrite placeholders_dollar_free by done.
  rewrite search_conditions_placeholders by (done || lia).
  cbn [length]. rewrite (placeholders_none ")") by done.
  rewrite app_nil_r. apply collapse_replicate.
Qed.

Lemma global_search_fields_nonempty qp (term : string) (l : list string) :
  _build_dynamic_global_search_fields qp term = Ok l → l ≠ [].
Proof.
  unfold _build_dynamic_global_search_fields.
  destruct (nav_tables qp) as [tables|e]; [|done].
  cbn [mbind result_bind rbind].
  destruct (for_tables _ tables) as [nav|e]; [|done]. by intros [= <-].
Qed.

(** The parts that did not parse, joined by spaces, are not blank. *)
Lemma fuzzy_phrase_not_blank (query_string : string)
    (fuzzy_search_terms : list string) :
  fuzzy_search_terms ≠ [] →
  (∀ x, x ∈ fuzzy_search_terms → x ∈ hybrid_parts query_string) →
  PyStr.strip (PyStr.strip (PyStr.join " " fuzzy_search_terms)) ≠ "".
Proof.
  destruct fuzzy_search_terms as [|f fs]; [done|]. intros _ Hin.
  apply strip_strip_nonempty.
  assert (f ∈ hybrid_parts query_string) as Hf by (apply Hin; by left).
  unfold hybrid_parts in Hf. apply list_elem_of_filter in Hf as [Hne Hf].
  apply list_elem_of_fmap in Hf as (x & -> & _).
  unfold PyStr.strip in Hne.
  apply strip_by_nonempty in Hne as (c & r & Hcr & Hc).
  rewrite join_cons. fold PyStr.strip in Hcr. rewrite !Hcr.
  assert (∃ r', (match fs with
                 | [] => String c r
                 | _ => String c r +:+ " " +:+ PyStr.join " " fs
                 end) = String c r') as [r' ->].
  { destruct fs; [by eexists|]. rewrite append_cons. by eexists. }
  unfold PyStr.strip. by destruct (strip_by_head PyStr.isspace c r' Hc) as [r'' ->].
Qed.

Lemma hybrid_clause_numbered qp (query_string where_clause : string)
    (params : list param) :
  qp_parser qp = Lark.parse → dollar_free_setup qp = true →
  (_build_hybrid_search_clause qp query_string).1 = Ok (where_clause, params) →
  collapse (placeholders where_clause) = numbering 0 (length params).
Proof.
  intros Hparser Hsetup. unfold _build_hybrid_search_clause.
  destruct (_build_dynamic_global_search_fields qp _) as [gsf|e] eqn:Hgsf;
    [|done].
  pose proof (global_search_fields_dollar_free _ _ _ Hsetup Hgsf) as Hfree.
  pose proof (global_search_fields_nonempty _ _ _ Hgsf) as Hne.
  set (t0 := reset _ _ _ _ _ _ _).
  assert (dollar_free_context t0) as Hctx.
  { split; [apply (dollar_free_setup_inv _ Hsetup)|done]. }
  assert (index_in_step t0) as Ht0 by done.
  assert (t_params t0 = []) as Hp0 by done.
  destruct (hybrid_loop qp _ t0) as [[[vc fs]|e] t] eqn:Hloop; [|done].
  destruct (hybrid_loop_numbered qp _ t0 vc fs t Hparser Hctx Ht0 Hloop)
    as [[n Hn] Hfs].
  destruct fs as [|f fs].
  - cbn [fst]. intros [= <- <-].
    destruct Hn as (Hp & (extra & He & Hlen) & _).
    rewrite Hp0 in Hp, He. cbn [app length] in Hp, He.
    rewrite He, Hlen. destruct vc as [|c vc].
    + cbn in Hp. by rewrite <- Hp.
    + rewrite placeholders_dollar_free by done.
      rewrite placeholders_app by done.
      rewrite (placeholders_none ")") by done.
      by rewrite app_nil_r.
  - set (phrase := PyStr.strip (PyStr.join " " (f :: fs))).
    pose proof (fuzzy_phrase_not_blank query_string (f :: fs)
                  ltac:(done) Hfs) as Hphrase.
    fold phrase in Hphrase.
    set (is_quoted := match PyRe.findall_quoted query_string with
                      | [] => false | _ => true end).
    destruct (global_clause_placeholders phrase is_quoted gsf
                (Z.of_nat (length (t_params t))) Hfree Hne Hphrase
                ltac:(lia)) as [Htrue Hclause].
    destruct (_build_global_search_clause phrase is_quoted gsf _)
      as [clause ph] eqn:Hc.
    cbn [fst] in Htrue, Hclause. rewrite Htrue. cbn [fst].
    pose proof (proj1 (proj2 (proj2 Hn))) as Hindex.
    assert (numbered t clause (append_param (PStr phrase) (add_index 1 t)) 1)
      as Hone.
    { apply numbered_one; [done|]. by rewrite Hindex. }
    assert (∃ m, numbered t0 (PyStr.join " AND " (vc ++ [clause]))
                   (append_param (PStr phrase) (add_index 1 t)) m) as [m Hm].
    { destruct vc as [|c vc].
      - destruct (numbered_empty _ _ _ Hn) as [-> _].
        exists 1. by eapply numbered_after_empty.
      - exists (n + 1). rewrite join_snoc by done.
        pose proof (numbered_seq t0 t _ (PyStr.join " AND " (c :: vc)) clause
                      n 1 "" " AND " "" eq_refl eq_refl eq_refl
                      (fun _ => eq_refl) eq_refl Hn Hone) as H.
        by rewrite append_empty_l, !append_empty_r in H. }
    destruct (vc ++ [clause]) as [|c0 vc0] eqn:Hvc;
      [by destruct vc|].
    intros [= <- <-].
    destruct Hm as (Hp & (extra & He & Hlen) & _).
    rewrite Hp0 in Hp, He. cbn [app length] in Hp, He.
    rewrite placeholders_dollar_free by done.
    rewrite placeholders_app by done.
    rewrite (placeholders_none ")") by done.
    rewrite app_nil_r, <- (join_cons " AND " c0 vc0), Hp.
    change (t_params t ++ [PStr phrase])
      with (t_params (append_param (PStr phrase) (add_index 1 t))).
    by rewrite He, Hlen.
Qed.

Lemma fuzzy_clause_numbered qp (query_string where_clause : string)
    (params : list param) :
  dollar_free_setup qp = true →
  _build_fuzzy_search_clause qp query_string = Ok (where_clause, params) →
  collapse (placeholders where_clause) = numbering 0 (length params).
Proof.
  intros Hsetup. unfold _build_fuzzy_search_clause.
  destruct (match PyRe.findall_quoted query_string with
            | [] => _ | _ => _ end) as [search_term is_quoted].
  destruct (_build_dynamic_global_search_fields qp _) as [gsf|e] eqn:Hgsf;
    [|done].
  cbn [mbind result_bind rbind].
  pose proof (global_search_fields_dollar_free _ _ _ Hsetup Hgsf) as Hfree.
  pose proof (global_search_fields_nonempty _ _ _ Hgsf) as Hne.
  destruct (String.eqb_spec (PyStr.strip search_term) "") as [Hblank|Hterm].
  - unfold _build_global_search_clause. rewrite Hblank.
    cbn [String.eqb negb]. by intros [= <- <-].
  - destruct (global_clause_placeholders search_term is_quoted gsf 0
                Hfree Hne Hterm ltac:(lia)) as [_ Hclause].
    destruct (_build_global_search_clause _ _ _ _) as [clause ph].
    cbn [fst] in Hclause. cbn [negb]. intros [= <- <-]. by rewrite Hclause.
Qed.

Lemma recovery_placeholders qp
    (query_string sort_by sort_order : string)
    (count_query search_query : string) (params : list param) :
  qp_parser qp = Lark.parse →
  PyStr.strip query_string ≠ "" →
  parse_ast qp query_string = None →
  dollar_free_setup qp = true →
  dollar_free sort_by = true →
  (parse_query qp query_string sort_by sort_order).1
  = Ok (count_query, search_query, params) →
  collapse (placeholders search_query) = numbering 0 (length params)
  ∧ collapse (placeholders count_query) = numbering 0 (length params).
Proof.
  intros Hparser Hq Hparse Hsetup Hsort. unfold parse_query.
  destruct (bool_decide _); [done|].
  assert (String.eqb (PyStr.strip query_string) "" = false) as ->
    by by apply String.eqb_neq.
  rewrite Hparse.
  pose proof (hybrid_clause_numbered qp query_string) as Hhybrid.
  destruct (hybrid_result_parser qp query_string) as [t Ht].
  destruct (_build_hybrid_search_clause qp query_string) as [h q1].
  cbn [fst snd] in Ht, Hhybrid. subst q1.
  change (_build_fuzzy_search_clause (with_translator qp t))
    with (_build_fuzzy_search_clause qp).
  assert (∀ w ps,
            match h with
            | Ok r => Ok r
            | Raise _ => _build_fuzzy_search_clause qp query_string
            end = Ok (w, ps) →
            collapse (placeholders w) = numbering 0 (length ps)) as Hwhere.
  { intros w ps. destruct h as [[w0 ps0]|e].
    - intros [= <- <-]. by apply Hhybrid.
    - by apply fuzzy_clause_numbered. }
  destruct (match h with Ok r => Ok r | Raise _ => _ end) as [[w ps]|e];
    [|done].
  cbn [fst]. rewrite assemble_with_translator. unfold assemble.
  destruct (_build_dynamic_select_fields qp) as [sel|e] eqn:Hsel; [|done].
  destruct (_build_order_by_clause qp sort_by sort_order) as [ob|e] eqn:Hob;
    [|done].
  cbn [mbind result_bind rbind]. intros [= <- <- <-].
  destruct (dollar_free_setup_inv _ Hsetup) as (_ & _ & _ & Hfj).
  rewrite placeholders_filtered_select;
    [|exact (select_fields_dollar_free _ _ Hsetup Hsel)|done
     |exact (order_by_dollar_free _ _ _ _ Hsetup Hsort Hob)].
  rewrite placeholders_filtered_count by done.
  split; by apply Hwhere.
Qed.

(** X12. On the recovery path of [parse_query] (the grammar rejects a
    query that is not blank), the statements returned hold exactly the
    placeholders of the parameters: read in order of first occurrence,
    the placeholders of the search statement, and those of the count
    statement, are 1, 2, ..., n for the n parameters returned.  The names
    taken from the database and the sort key are assumed to contain no
    dollar sign. *)
Theorem recovery_placeholders_match_parameters qp
    (query_string sort_by sort_order : string)
    (count_query search_query : string) (params : list param) :
  qp_parser qp = Lark.parse →
  PyStr.strip query_string ≠ "" →
  parse_ast qp query_string = None →
  dollar_free_setup qp = true →
  dollar_free sort_by = true →
  (parse_query qp query_string sort_by sort_order).1
  = Ok (count_query, search_query, params) →
  collapse (placeholders search_query) = numbering 0 (length params)
  ∧ length (collapse (placeholders search_query)) = length params
  ∧ NoDup (collapse (placeholders search_query))
  ∧ collapse (placeholders count_query) = numbering 0 (length params).
Proof.
  intros Hparser Hq Hparse Hsetup Hsort Hquery.
  destruct (recovery_placeholders qp query_string sort_by sort_order
              count_query search_query params Hparser Hq Hparse Hsetup Hsort
              Hquery) as [Hsearch Hcount].
  rewrite Hsearch. split; [done|]. split; [apply numbering_length|].
  split; [apply numbering_NoDup|done].
Qed.

(** ** The statement of one page *)

Lemma unfiltered_select_placeholders
    (select_fields from_and_joins order_by : string) :
  dollar_free select_fields = true → dollar_free from_and_joins = true →
  dollar_free order_by = true →
  placeholders (unfiltered_select select_fields from_and_joins order_by) = [].
Proof.
  intros Hs Hf Ho. apply placeholders_none. unfold unfiltered_select.
  by rewrite !dollar_free_app, !dollar_free_spaces, Hs, Hf, Ho.
Qed.

(** On every path of [parse_query] the search statement holds the
    placeholders of the parameters. *)
Lemma search_query_numbered qp (query_string sort_by sort_order : string)
    (count_query search_query : string) (params : list param) :
  qp_parser qp = Lark.parse →
  dollar_free_setup qp = true →
  dollar_free sort_by = true →
  (parse_query qp query_string sort_by sort_order).1
  = Ok (count_query, search_query, params) →
  collapse (placeholders search_query) = numbering 0 (length params).
Proof.
  intros Hparser Hsetup Hsort Hquery.
  destruct (String.eqb_spec (PyStr.strip query_string) "") as [Hblank|Hq].
  - revert Hquery. unfold parse_query.
    destruct (bool_decide _); [done|]. rewrite Hblank. cbn [String.eqb fst].
    destruct (_build_dynamic_select_fields qp) as [sel|e] eqn:Hsel; [|done].
    destruct (_build_order_by_clause qp sort_by sort_order) as [ob|e] eqn:Hob;
      [|done].
    cbn [mbind result_bind rbind]. intros [= <- <- <-].
    destruct (dollar_free_setup_inv _ Hsetup) as (_ & _ & _ & Hfj).
    rewrite unfiltered_select_placeholders;
      [done|exact (select_fields_dollar_free _ _ Hsetup Hsel)|done
      |exact (order_by_dollar_free _ _ _ _ Hsetup Hsort Hob)].
  - destruct (parse_ast qp query_string) as [ast|] eqn:Hparse.
    + by apply (placeholders_match_parameters qp query_string sort_by
                  sort_order ast count_query search_query params Hq Hparse
                  (parse_ast_grammar _ _ _ Hparser Hparse) Hsetup Hsort).
    + by apply (recovery_placeholders qp query_string sort_by sort_order
                  count_query search_query params).
Qed.

(** X13. The statement [perform_search] runs for one page - the search
    statement of [parse_query] followed by [LIMIT] and [OFFSET] with the
    placeholders numbered after the parameters - holds, in order of first
    occurrence, the placeholders 1, ..., n+2 of the n parameters, the
    limit and the offset it is run with.  This holds on every path of
    [parse_query]. *)
Theorem paginated_query_placeholders qp
    (query_string sort_by sort_order : string)
    (count_query search_query : string) (params : list param)
    (limit offset : Z) :
  qp_parser qp = Lark.parse →
  dollar_free_setup qp = true →
  dollar_free sort_by = true →
  (parse_query qp query_string sort_by sort_order).1
  = Ok (count_query, search_query, params) →
  collapse (placeholders (paginated_query search_query params))
  = numbering 0 (length (paginated_arguments params limit offset)).
Proof.
  intros Hparser Hsetup Hsort Hquery.
  pose proof (search_query_numbered _ _ _ _ _ _ _ Hparser Hsetup Hsort Hquery)
    as Hsearch.
  unfold paginated_query, paginated_arguments.
  set (n := length params) in *.
  rewrite placeholders_app by done.
  rewrite (placeholders_placeholder_tail (Z.of_nat n + 1) (Z.of_nat n + 2))
    by lia.
  rewrite length_app. cbn [length]. fold n.
  rewrite numbering_app. cbn [Nat.add].
  rewrite collapse_app.
  - rewrite Hsearch. f_equal. unfold numbering.
    cbn [seq fmap list_fmap collapse].
    destruct (String.eqb_spec (PyStr.str_int (Z.of_nat n + 1))
                (PyStr.str_int (Z.of_nat n + 2))) as [E|_].
    { apply (inj pretty) in E. lia. }
    do 2 f_equal; [|f_equal]; f_equal; lia.
  - intros x Hx. rewrite <- collapse_elem, Hsearch in Hx.
    apply numbering_elem in Hx as (i & Hi & ->).
    rewrite !elem_of_cons, elem_of_nil.
    intros [E|[E|[]]]; apply (inj pretty) in E; lia.
Qed.

End Recovery.

(** ** The SQL text does not depend on the texts of the query *)

Section Texts.

Context {rt : Runtime}.
Implicit Types (t : @SqlTranslator rt) (f : Field).
Implicit Types (node : @AstNode rt) (val : option (@value rt)).

Lemma alike_values_cast val1 val2 (op : option string) :
  alike_values val1 val2 → numeric_cast val1 op = numeric_cast val2 op.
Proof. by intros [->|(s1 & s2 & -> & -> & _)]. Qed.

Lemma to_sql_alike f (sm : gmap string string) val1 val2 (op : option string)
    (amf sf idf ef : gset string) (F1 F2 : string) :
  alike_values val1 val2 →
  to_sql f sm val1 op amf sf idf ef = Ok F1 →
  to_sql f sm val2 op amf sf idf ef = Ok F2 →
  F1 = F2.
Proof.
  intros Halike. unfold to_sql.
  destruct (parts f) as [|first rest]; [done|].
  rewrite (alike_values_cast val1 val2 op Halike).
  destruct (_validate_operation_compatibility _ _ val1 _ _ _); [|done].
  destruct (_validate_operation_compatibility _ _ val2 _ _ _); [|done].
  cbn [mbind result_bind rbind]. congruence.
Qed.

Lemma agree_refl t : agree t t.
Proof. split; [apply same_context_refl|done]. Qed.

Lemma agree_index t t' : agree t t' → t_param_index t' = t_param_index t.
Proof. by intros (_ & ? & _). Qed.

Lemma agree_step t t' (p p' : param) :
  agree t t' →
  agree (append_param p (add_index 1 t)) (append_param p' (add_index 1 t')).
Proof.
  intros [(?&?&?&?&?&?) [Hi Hlen]]. split; [by repeat split|].
  cbn. rewrite Hi, !length_app, Hlen. done.
Qed.

Lemma field_exists_agree t t' f (F sql1 sql2 : string) t1 t2 :
  agree t t' →
  _translate_field_exists t f F = (Ok sql1, t1) →
  _translate_field_exists t' f F = (Ok sql2, t2) →
  sql1 = sql2 ∧ agree t1 t2.
Proof.
  intros Hagree. pose proof Hagree as [(_&_&Hamf&_) [Hi _]].
  unfold _translate_field_exists. rewrite Hamf.
  cbn [t_param_index add_index]. rewrite Hi.
  repeat case_match; intros [= <- <-] [= <- <-];
    (split; [done|]); done || by apply agree_step.
Qed.

Lemma field_not_exists_agree t t' f (F sql1 sql2 : string) t1 t2 :
  agree t t' →
  _translate_field_not_exists t f F = (Ok sql1, t1) →
  _translate_field_not_exists t' f F = (Ok sql2, t2) →
  sql1 = sql2 ∧ agree t1 t2.
Proof.
  intros Hagree. pose proof Hagree as [(_&_&Hamf&_) [Hi _]].
  unfold _translate_field_not_exists. rewrite Hamf.
  cbn [t_param_index add_index]. rewrite Hi.
  repeat case_match; intros [= <- <-] [= <- <-];
    (split; [done|]); done || by apply agree_step.
Qed.

Lemma alike_values_marker val1 val2 (marker : string) :
  alike_values val1 val2 → marker = "*" ∨ marker = "" →
  value_eq_str val1 marker = value_eq_str val2 marker.
Proof.
  intros [->|(s1 & s2 & -> & -> & [H1 H1'] & [H2 H2'])] Hm; [done|].
  cbn [value_eq_str].
  destruct Hm as [-> | ->];
    by rewrite (proj2 (String.eqb_neq _ _)), (proj2 (String.eqb_neq _ _)).
Qed.

Lemma alike_values_given val1 val2 :
  alike_values val1 val2 →
  bool_decide (is_Some val1) = bool_decide (is_Some val2).
Proof. by intros [->|(s1 & s2 & -> & -> & _)]. Qed.

Lemma comparison_operator_alike (op : string) val1 val2 (flag : bool) :
  alike_values val1 val2 →
  (comparison_operator op val1 flag).1 = (comparison_operator op val2 flag).1.
Proof.
  intros [->|(s1 & s2 & -> & -> & _)]; [done|].
  unfold comparison_operator. cbn [is_str].
  repeat (destruct (String.eqb op _); [by destruct flag|]). done.
Qed.

Lemma comparison_alike t t' f (op : string) val1 val2
    (sql1 sql2 : string) t1 t2 :
  agree t t' → alike_values val1 val2 →
  _translate_comparison t f op val1 = (Ok sql1, t1) →
  _translate_comparison t' f op val2 = (Ok sql2, t2) →
  sql1 = sql2 ∧ agree t1 t2.
Proof.
  intros Hagree Halike.
  pose proof Hagree as [(Hsm&_&Hamf&Hsf&Hidf&Hef) [Hi Hlen]].
  unfold _translate_comparison. rewrite Hsm, Hamf, Hsf, Hidf, Hef.
  destruct (to_sql f _ val1 _ _ _ _ _) as [F1|e] eqn:H1; [|done].
  destruct (to_sql f _ val2 _ _ _ _ _) as [F2|e] eqn:H2; [|done].
  pose proof (to_sql_alike _ _ _ _ _ _ _ _ _ _ _ Halike H1 H2) as <-.
  rewrite <- (alike_values_marker val1 val2 "*" Halike) by by left.
  destruct (_ && value_eq_str val1 "*"); [by apply field_exists_agree|].
  destruct (_ && value_eq_str val1 "*"); [by apply field_not_exists_agree|].
  destruct (parts f) as [|first rest]; [done|].
  set (flag := String.eqb first "last_edited_at" || _).
  rewrite <- (alike_values_marker val1 val2 "" Halike) by by right.
  rewrite <- (alike_values_given val1 val2 Halike).
  destruct (_ && flag && _).
  - intros [= <- <-] [= <- <-]. split; [done|].
    destruct Hagree as [(?&?&?&?&?&?) ?]. split; [by repeat split|].
    cbn. by rewrite Hi.
  - pose proof (comparison_operator_alike op val1 val2 flag Halike) as Hop.
    destruct (comparison_operator op val1 flag) as [sql_op1 p1].
    destruct (comparison_operator op val2 flag) as [sql_op2 p2].
    cbn [fst] in Hop. subst sql_op2.
    cbn [t_param_index add_index]. rewrite Hi.
    intros [= <- <-] [= <- <-]. split; [done|]. by apply agree_step.
Qed.

Lemma global_search_alike t t' (text1 text2 : string) (q : bool)
    (sql1 sql2 : string) t1 t2 :
  agree t t' → alike_searches text1 text2 →
  _translate_global_search t text1 q = (Ok sql1, t1) →
  _translate_global_search t' text2 q = (Ok sql2, t2) →
  sql1 = sql2 ∧ agree t1 t2.
Proof.
  intros Hagree Halike.
  pose proof Hagree as [(_&Hgsf&_) [Hi _]].
  unfold _translate_global_search, _build_global_search_clause.
  rewrite Hgsf, Hi.
  assert (∀ text,
            plain_text (PyStr.strip text) →
            String.eqb (PyStr.strip text) "*" || String.eqb (PyStr.strip text) ""
            = false
            ∧ String.eqb (PyStr.strip (PyStr.strip text)) "" = false)
    as Hplain.
  { intros text [Hstar Hempty]. split.
    - by rewrite (proj2 (String.eqb_neq _ _)), (proj2 (String.eqb_neq _ _)).
    - apply String.eqb_neq. by apply strip_strip_nonempty. }
  destruct Halike as [<-|[Hp1 Hp2]].
  - destruct (_ || _).
    { intros [= <- <-] [= <- <-]. by split. }
    destruct (String.eqb (PyStr.strip (PyStr.strip text1)) "").
    { intros [= <- <-] [= <- <-]. by split. }
    destruct (_ <$> t_global_search_fields t) as [|c cs].
    { intros [= <- <-] [= <- <-]. by split. }
    assert (String.eqb (placeholder_of (t_param_index t + 1)) "" = false) as ->
      by done.
    intros [= <- <-] [= <- <-]. split; [done|]. by apply agree_step.
  - destruct (Hplain _ Hp1) as [-> ->], (Hplain _ Hp2) as [-> ->].
    destruct (_ <$> t_global_search_fields t) as [|c cs].
    { intros [= <- <-] [= <- <-]. by split. }
    assert (String.eqb (placeholder_of (t_param_index t + 1)) "" = false) as ->
      by done.
    intros [= <- <-] [= <- <-]. split; [done|]. by apply agree_step.
Qed.

Lemma translate_same_shape (node1 node2 : AstNode) t t'
    (sql1 sql2 : string) t1 t2 :
  same_shape node1 node2 → agree t t' →
  translate node1 t = (Ok sql1, t1) →
  translate node2 t' = (Ok sql2, t2) →
  sql1 = sql2 ∧ agree t1 t2.
Proof.
  revert node2 t t' sql1 sql2 t1 t2.
  induction node1 as [f op val|text q|l1 IHl r1 IHr|l1 IHl r1 IHr|a1 IH];
    intros [f2 op2 val2|text2 q2|l2 r2|l2 r2|a2] t t' sql1 sql2 t1 t2 Hshape;
    try done; cbn [same_shape] in Hshape; cbn [translate]; intros Hagree.
  - destruct Hshape as (<- & <- & Halike). by apply comparison_alike.
  - destruct Hshape as (<- & Halike). by apply global_search_alike.
  - destruct Hshape as [Hl Hr].
    destruct (translate l1 t) as [[x1|e] u1] eqn:E1; [|done].
    destruct (translate r1 u1) as [[y1|e] w1] eqn:E2; [|done].
    destruct (translate l2 t') as [[x2|e] u2] eqn:E3; [|done].
    destruct (translate r2 u2) as [[y2|e] w2] eqn:E4; [|done].
    intros [= <- <-] [= <- <-].
    destruct (IHl _ _ _ _ _ _ _ Hl Hagree E1 E3) as [-> Hu].
    destruct (IHr _ _ _ _ _ _ _ Hr Hu E2 E4) as [-> Hw]. by split.
  - destruct Hshape as [Hl Hr].
    destruct (translate l1 t) as [[x1|e] u1] eqn:E1; [|done].
    destruct (translate r1 u1) as [[y1|e] w1] eqn:E2; [|done].
    destruct (translate l2 t') as [[x2|e] u2] eqn:E3; [|done].
    destruct (translate r2 u2) as [[y2|e] w2] eqn:E4; [|done].
    intros [= <- <-] [= <- <-].
    destruct (IHl _ _ _ _ _ _ _ Hl Hagree E1 E3) as [-> Hu].
    destruct (IHr _ _ _ _ _ _ _ Hr Hu E2 E4) as [-> Hw]. by split.
  - destruct (translate a1 t) as [[x1|e] u1] eqn:E1; [|done].
    destruct (translate a2 t') as [[x2|e] u2] eqn:E2; [|done].
    intros [= <- <-] [= <- <-].
    destruct (IH _ _ _ _ _ _ _ Hshape Hagree E1 E2) as [-> Hu]. by split.
Qed.

(** X14. The SQL text of a translation does not depend on the texts the
    user compares with or searches for: two queries with the same
    structure, fields, operators and quoting, whose values are equal or
    are both plain texts (neither empty nor the marker [*]), translate
    from the same translator state to the same SQL text, with as many
    parameters. *)
Theorem sql_text_independent_of_texts (node1 node2 : AstNode) t
    (sql1 sql2 : string) :
  same_shape node1 node2 →
  (translate node1 t).1 = Ok sql1 →
  (translate node2 t).1 = Ok sql2 →
  sql1 = sql2
  ∧ length (t_params (translate node1 t).2)
    = length (t_params (translate node2 t).2).
Proof.
  intros Hshape H1 H2.
  destruct (translate node1 t) as [r1 t1] eqn:E1.
  destruct (translate node2 t) as [r2 t2] eqn:E2.
  cbn [fst snd] in *. subst r1 r2.
  destruct (translate_same_shape _ _ _ _ _ _ _ _ Hshape (agree_refl t) E1 E2)
    as [-> (_ & _ & Hlen)].
  by split.
Qed.

End Texts.

(** ** The UUID test *)

Lemma hex_run_spec (n : nat) (s r : string) :
  PyRe.hex_run n s = Some r ↔ ∃ a, s = a +:+ r ∧ hex_group n a.
Proof.
  revert s. induction n as [|n IH]; intros s; cbn [PyRe.hex_run].
  - split.
    + intros [= ->]. exists "". by rewrite append_empty_l.
    + intros (a & -> & Hlen & _). destruct a; [|done].
      by rewrite append_empty_l.
  - destruct s as [|c s].
    + split; [done|]. intros (a & Hs & Hlen & _).
      destruct a; [done|]. by rewrite append_cons in Hs.
    + destruct (PyStr.ishex c) eqn:Hc.
      * rewrite IH. split.
        -- intros (a & -> & Hlen & Hhex). exists (String c a).
           rewrite append_cons. split; [done|]. split; [by cbn; rewrite Hlen|].
           cbn. by rewrite Hc, Hhex.
        -- intros (a & Hs & Hlen & Hhex). destruct a as [|c' a]; [done|].
           rewrite append_cons in Hs. injection Hs as <- ->.
           exists a. split; [done|]. cbn in Hlen, Hhex.
           apply andb_true_iff in Hhex as [_ Hhex]. split; [lia|done].
      * split; [done|]. intros (a & Hs & Hlen & Hhex).
        destruct a as [|c' a]; [done|].
        rewrite append_cons in Hs. injection Hs as <- ->.
        cbn in Hhex. by rewrite Hc in Hhex.
Qed.

Lemma dash_hex_run_spec (n : nat) (s r : string) :
  PyRe.dash (Some s) ≫= PyRe.hex_run n = Some r ↔
  ∃ a, s = "-" +:+ a +:+ r ∧ hex_group n a.
Proof.
  destruct s as [|c s].
  - split; [done|]. by intros (a & ? & _).
  - destruct (Ascii.eqb_spec c "-") as [->|Hne].
    + cbn [PyRe.dash mbind option_bind]. rewrite hex_run_spec.
      split; intros (a & Hs & Ha); exists a; (split; [|done]).
      * by rewrite Hs.
      * change ("-" +:+ a +:+ r) with (String "-" (a +:+ r)) in Hs.
        by injection Hs.
    + assert (PyRe.dash (Some (String c s)) = None) as ->.
      { destruct c as [[] [] [] [] [] [] [] []]; done. }
      split; [done|]. intros (a & Hs & _).
      change ("-" +:+ a +:+ r) with (String "-" (a +:+ r)) in Hs.
      by injection Hs.
Qed.

(** [is_uuid_format] accepts exactly the texts that, stripped of
    the white space around them, are five groups of 8, 4, 4, 4 and 12
    hexadecimal digits, in either letter case, separated by dashes. *)
Theorem uuid_format_is_five_hex_groups (value : string) :
  is_uuid_format value = true ↔
  ∃ a b c d e,
    PyStr.strip value
    = a +:+ "-" +:+ b +:+ "-" +:+ c +:+ "-" +:+ d +:+ "-" +:+ e
    ∧ hex_group 8 a ∧ hex_group 4 b ∧ hex_group 4 c ∧ hex_group 4 d
    ∧ hex_group 12 e.
Proof.
  unfold is_uuid_format, PyRe.match_uuid.
  generalize (PyStr.strip value). intros s. split.
  - destruct (PyRe.hex_run 8 s) as [s1|] eqn:H1; [|done].
    destruct (PyRe.dash (Some s1) ≫= PyRe.hex_run 4) as [s2|] eqn:H2; [|done].
    destruct (PyRe.dash (Some s2) ≫= PyRe.hex_run 4) as [s3|] eqn:H3; [|done].
    destruct (PyRe.dash (Some s3) ≫= PyRe.hex_run 4) as [s4|] eqn:H4; [|done].
    destruct (PyRe.dash (Some s4) ≫= PyRe.hex_run 12) as [s5|] eqn:H5; [|done].
    destruct s5; [|done]. intros _.
    apply hex_run_spec in H1 as (a & -> & Ha).
    apply dash_hex_run_spec in H2 as (b & -> & Hb).
    apply dash_hex_run_spec in H3 as (c & -> & Hc).
    apply dash_hex_run_spec in H4 as (d & -> & Hd).
    apply dash_hex_run_spec in H5 as (e & -> & He).
    exists a, b, c, d, e. by rewrite append_empty_r.
  - intros (a & b & c & d & e & -> & Ha & Hb & Hc & Hd & He).
    assert (PyRe.hex_run 8 (a +:+ "-" +:+ b +:+ "-" +:+ c +:+ "-" +:+ d
                            +:+ "-" +:+ e)
            = Some ("-" +:+ b +:+ "-" +:+ c +:+ "-" +:+ d +:+ "-" +:+ e)) as ->.
    { apply hex_run_spec. by exists a. }
    assert (PyRe.dash (Some ("-" +:+ b +:+ "-" +:+ c +:+ "-" +:+ d +:+ "-" +:+ e))
              ≫= PyRe.hex_run 4
            = Some ("-" +:+ c +:+ "-" +:+ d +:+ "-" +:+ e)) as ->.
    { apply dash_hex_run_spec. by exists b. }
    assert (PyRe.dash (Some ("-" +:+ c +:+ "-" +:+ d +:+ "-" +:+ e))
              ≫= PyRe.hex_run 4
            = Some ("-" +:+ d +:+ "-" +:+ e)) as ->.
    { apply dash_hex_run_spec. by exists c. }
    assert (PyRe.dash (Some ("-" +:+ d +:+ "-" +:+ e)) ≫= PyRe.hex_run 4
            = Some ("-" +:+ e)) as ->.
    { apply dash_hex_run_spec. by exists d. }
    assert (PyRe.dash (Some ("-" +:+ e)) ≫= PyRe.hex_run 12 = Some "") as ->.
    { apply dash_hex_run_spec. exists e. by rewrite append_empty_r. }
    done.
Qed.

(** ** The generic search *)

(** The loop of [_build_search_query_parts] ends, and every SELECT part
    it returns starts with a comma. *)
Lemma search_query_parts_loop_total (tables : list (string * TableInfo))
    (entities : list NavigationEntity) (used : gset string)
    (aliases : gmap string string) :
  (∃ k, search_query_parts_loop tables entities used aliases
        = Some (Raise (KeyError k)))
  ∨ ∃ query_parts join_parts aliases',
      search_query_parts_loop tables entities used aliases
      = Some (Ok (query_parts, join_parts, aliases'))
      ∧ Forall (fun part => ∃ r, part = String "," r) query_parts.
Proof.
  revert used aliases. induction entities as [|entity entities IH];
    intros used aliases; cbn [search_query_parts_loop].
  - right. by eexists [], [], _.
  - destruct (unique_alias_spec (key entity) used) as (a & -> & _).
    unfold table_info_of.
    destruct (list_find _ tables) as [[i [k ti]]|]; [|left; by eexists].
    destruct (IH ({[a]} ∪ used) (<[key entity:=a]> aliases))
      as [[k' ->]|(qs & js & al & -> & Hqs)]; [left; by eexists|].
    right. eexists _, _, _. split; [done|].
    constructor; [|done]. by eexists.
Qed.

Lemma index_of_missing (x : string) (l : list string) :
  Forall (fun y => y ≠ x) l →
  index_of x l = Raise (ValueError (PyStr.repr x +:+ " is not in list")).
Proof.
  intros Hl. unfold index_of.
  destruct (list_find _ l) as [[i y]|] eqn:Hfind; [|done].
  apply list_find_Some in Hfind as (Hi & -> & _).
  apply list_elem_of_lookup_2 in Hi.
  rewrite Forall_forall in Hl. by destruct (Hl _ Hi).
Qed.

Lemma add_filter_conditions_raises (tables : list (string * TableInfo))
    (filters : list (string * string)) (conditions params : list string)
    (aliases : gmap string string) (e : exn) :
  _add_filter_conditions tables filters conditions params aliases = Raise e →
  e = IndexError ∨ ∃ k, e = KeyError k.
Proof.
  revert conditions params.
  induction filters as [|[fk fv] filters IH]; intros conditions params; [done|].
  cbn [_add_filter_conditions].
  destruct (PyStr.endswith fk "_name"); [|apply IH].
  case_bool_decide; [|apply IH].
  destruct (replace "_name" "" fk) as [|c r] eqn:Hkey.
  { cbn [mbind result_bind rbind]. intros [= <-]. by left. }
  cbn [mbind result_bind rbind]. unfold table_info_of.
  destruct (list_find _ tables) as [[i [k ti]]|].
  - cbn [mbind result_bind rbind]. apply IH.
  - cbn [mbind result_bind rbind]. intros [= <-]. right. by eexists.
Qed.

(** X16. [search_entities] never gets to run a statement: for every
    navigation analysis, filters and search text, building its statements
    ends with an exception.  [_build_count_query] looks for the FROM part
    among the query parts, which hold the navigation columns only, so that
    [list.index] raises ValueError; before that, a navigation entity
    without table raises KeyError and an empty entity key in a filter
    raises IndexError. *)
Theorem generic_search_statements_always_raise
    (main_table : string) (na : SearchNavigation)
    (filters : list (string * string)) (search : string) :
  ∃ e,
    search_entities_statements main_table na filters search = Some (Raise e)
    ∧ (e = ValueError (PyStr.repr (" FROM " +:+ main_table +:+ " d")
                       +:+ " is not in list")
       ∨ e = IndexError
       ∨ ∃ k, e = KeyError k).
Proof.
  unfold search_entities_statements, _build_search_query_parts.
  destruct (search_query_parts_loop_total (search_navigation_tables na)
              (navigation_entities na) ∅ ∅)
    as [[k ->]|(qs & js & al & -> & Hqs)].
  { eexists. split; [done|]. right. right. by eexists. }
  destruct (_build_search_conditions na filters search al)
    as [[conditions params]|e] eqn:Hcond.
  - cbn [mbind result_bind rbind]. unfold _build_count_query.
    rewrite index_of_missing.
    + cbn [mbind result_bind rbind]. eexists. split; [done|]. by left.
    + eapply Forall_impl; [exact Hqs|]. by intros part [r ->].
  - cbn [mbind result_bind rbind]. eexists. split; [done|]. right.
    unfold _build_search_conditions in Hcond.
    destruct (_add_filter_conditions _ _ _ _ _) as [[c p]|e'] eqn:Hadd.
    + cbn [mbind result_bind rbind] in Hcond. by destruct (negb _).
    + cbn [mbind result_bind rbind] in Hcond. injection Hcond as <-.
      by apply add_filter_conditions_raises in Hadd.
Qed.

Lemma conditions_numbered_snoc (conditions params : list string)
    (condition value : string) :
  conditions_numbered conditions params →
  collapse (placeholders condition)
  = [PyStr.str_int (Z.of_nat (length params) + 1)] →
  conditions_numbered (conditions ++ [condition]) (params ++ [value]).
Proof.
  intros [Hlen Hnum] Hcond. split; [by rewrite !length_app, Hlen|].
  rewrite length_app. cbn [length]. rewrite numbering_app.
  assert (numbering (0 + length params) 1
          = [PyStr.str_int (Z.of_nat (length params) + 1)]) as ->.
  { unfold numbering. cbn [seq fmap list_fmap]. do 2 f_equal. lia. }
  destruct conditions as [|c conditions].
  - destruct params; [|done]. cbn [app]. rewrite join_cons. by rewrite Hcond.
  - rewrite join_snoc by done.
    rewrite placeholders_app by done.
    rewrite placeholders_dollar_free by done.
    rewrite collapse_app; [by rewrite Hnum, Hcond|].
    intros x Hx. rewrite <- collapse_elem, Hnum in Hx.
    rewrite <- collapse_elem, Hcond.
    apply numbering_elem in Hx as (i & Hi & ->).
    rewrite list_elem_of_singleton. intros E. apply (inj pretty) in E. lia.
Qed.

Lemma table_info_of_elem (tables : list (string * TableInfo))
    (entity_key : string) (table_info : TableInfo) :
  table_info_of tables entity_key = Ok table_info →
  (entity_key, table_info) ∈ tables.
Proof.
  unfold table_info_of.
  destruct (list_find _ tables) as [[i [k ti]]|] eqn:Hfind; [|done].
  intros [= <-]. apply list_find_Some in Hfind as (Hi & Hk & _).
  cbn in Hk. subst k. by eapply list_elem_of_lookup_2.
Qed.

Lemma filter_conditions_numbered (tables : list (string * TableInfo))
    (filters : list (string * string)) (conditions params : list string)
    (aliases : gmap string string) (conditions' params' : list string) :
  Forall (fun entry => dollar_free entry.1 = true
                       ∧ dollar_free (name_column entry.2) = true) tables →
  (∀ k a, aliases !! k = Some a → dollar_free a = true) →
  conditions_numbered conditions params →
  _add_filter_conditions tables filters conditions params aliases
  = Ok (conditions', params') →
  conditions_numbered conditions' params'.
Proof.
  intros Htables Haliases. revert conditions params.
  induction filters as [|[fk fv] filters IH]; intros conditions params Hnum.
  { by intros [= <- <-]. }
  cbn [_add_filter_conditions].
  destruct (PyStr.endswith fk "_name"); [|by apply IH].
  case_bool_decide as Hkey; [|by apply IH].
  destruct (replace "_name" "" fk) as [|c r] eqn:Hek; [done|].
  cbn [mbind result_bind rbind].
  destruct (table_info_of tables (String c r)) as [ti|e] eqn:Hti; [|done].
  cbn [mbind result_bind rbind]. apply IH.
  apply conditions_numbered_snoc; [done|].
  apply table_info_of_elem in Hti.
  rewrite Forall_forall in Htables.
  destruct (Htables _ Hti) as [Hk Hnc]. cbn [fst snd] in Hk, Hnc.
  assert (dollar_free (default (String c "") (aliases !! String c r)) = true)
    as Halias.
  { destruct (aliases !! String c r) as [a|] eqn:Ha; [by eapply Haliases|].
    cbn [default]. cbn [dollar_free] in Hk |- *.
    apply andb_true_iff in Hk as [-> _]. done. }
  set (n := (Z.of_nat (length params) + 1)%Z).
  change (_ +:+ "." +:+ name_column ti +:+ " = $" +:+ PyStr.str_int n)
    with (default (String c "") (aliases !! String c r) +:+ "." +:+
          name_column ti +:+ " = " +:+ placeholder_of n).
  rewrite !placeholders_dollar_free by done.
  by rewrite placeholders_placeholder_end by lia.
Qed.

Lemma search_conditions_numbered (columns : list ColumnInfo) (search : string)
    (conditions params : list string) :
  Forall (fun col => dollar_free (column_name col) = true) columns →
  conditions_numbered conditions params →
  conditions_numbered
    (_add_search_conditions columns search conditions params).1
    (_add_search_conditions columns search conditions params).2.
Proof.
  intros Hcols Hnum. unfold _add_search_conditions.
  set (n := (Z.of_nat (length params) + 1)%Z).
  set (text := filter _ columns).
  assert (Forall (fun col => dollar_free (column_name col) = true) text)
    as Htext.
  { apply Forall_forall. intros col [_ Hcol]%list_elem_of_filter.
    rewrite Forall_forall in Hcols. by apply Hcols. }
  destruct (_ <$> text) as [|c cs] eqn:Hconds; [done|].
  cbn [fst snd]. apply conditions_numbered_snoc; [done|].
  rewrite <- Hconds. fold n.
  rewrite placeholders_dollar_free by done.
  rewrite (joined_conditions_placeholders _ (PyStr.str_int n)); [| |done].
  - rewrite (placeholders_none ")") by done. rewrite app_nil_r.
    rewrite Hconds. cbn [length]. apply collapse_replicate.
  - apply Forall_fmap. eapply Forall_impl; [exact Htext|].
    intros col Hcol r' Hr'. cbn.
    change ("d." +:+ column_name col +:+ " ILIKE $" +:+ PyStr.str_int n)
      with ("d." +:+ column_name col +:+ " ILIKE " +:+ placeholder_of n).
    rewrite !append_assoc.
    rewrite !placeholders_dollar_free by done.
    by rewrite placeholders_placeholder by (done || lia).
Qed.

(** X17. The conditions and the parameters [_build_search_conditions]
    returns go together: there is one condition per parameter, and the
    conditions joined by [AND], as [_assemble_base_query] joins them, hold
    in order of first occurrence the placeholders 1, ..., n of the n
    parameters.  The names of the schema and the aliases are assumed to
    contain no dollar sign. *)
Theorem search_conditions_match_parameters (na : SearchNavigation)
    (filters : list (string * string)) (search : string)
    (aliases : gmap string string) (conditions params : list string) :
  Forall (fun entry => dollar_free entry.1 = true
                       ∧ dollar_free (name_column entry.2) = true)
    (search_navigation_tables na) →
  Forall (fun col => dollar_free (column_name col) = true)
    (search_columns na) →
  (∀ k a, aliases !! k = Some a → dollar_free a = true) →
  _build_search_conditions na filters search aliases
  = Ok (conditions, params) →
  length conditions = length params
  ∧ collapse (placeholders (PyStr.join " AND " conditions))
    = numbering 0 (length params).
Proof.
  intros Htables Hcols Haliases. unfold _build_search_conditions.
  destruct (_add_filter_conditions _ _ _ _ _) as [[c p]|e] eqn:Hadd; [|done].
  cbn [mbind result_bind rbind].
  assert (conditions_numbered c p) as Hnum.
  { eapply filter_conditions_numbered; [exact Htables|exact Haliases| |exact Hadd].
    by split. }
  destruct (negb _).
  - pose proof (search_conditions_numbered _ search _ _ Hcols Hnum) as H.
    destruct (_add_search_conditions _ _ _ _) as [c' p'].
    by intros [= <- <-].
  - by intros [= <- <-].
Qed.

Section Validation.

Context {rt : Runtime}.
Implicit Types (node : @AstNode rt) (v : @value rt).

(** ** Identifier fields *)

Lemma value_comparison_op_cases (op : string) :
  op ∈ value_comparison_ops →
  op = "=" ∨ op = "!=" ∨ op = ">" ∨ op = "<" ∨ op = ">=" ∨ op = "<=".
Proof.
  unfold value_comparison_ops. rewrite !elem_of_cons, elem_of_nil. tauto.
Qed.

(** X18. On an id field (a field classified as id, or any field named
    [..._id]), the validation refuses a comparison (=, !=, >, <, >=, <=)
    with a text that Python's [int] rejects, with an [invalid_operation]
    error naming the field and the operator; a text that [int] accepts
    passes when the field is neither a string field nor a metadata
    field.  [int] is [PyStr.int_of_str] with the interpreter's limit on
    the number of digits. *)
Theorem id_field_requires_integer_text
    (name op text : string) (amf sf idf : gset string) :
  name ∈ idf ∨ PyStr.endswith name "_id" = true →
  op ∈ value_comparison_ops →
  (PyStr.int_of_str (int_max_str_digits rt) text = None →
   ∃ message user_message,
     _validate_operation_compatibility name (Some op) (Some (@VStr rt text))
       amf sf idf
     = Raise (SearchValidationError message "invalid_operation"
                (Some name) (Some op) (Some user_message)))
  ∧ (is_Some (PyStr.int_of_str (int_max_str_digits rt) text) →
     name ∉ sf → name ∉ amf → name ≠ "metadata" →
     _validate_operation_compatibility name (Some op) (Some (@VStr rt text))
       amf sf idf
     = Ok tt).
Proof.
  intros Hid Hop.
  assert (mem name idf || PyStr.endswith name "_id" = true) as Hidb.
  { unfold mem. destruct Hid as [Hin| ->]; [|by rewrite orb_true_r].
    by rewrite (bool_decide_eq_true_2 _ Hin). }
  apply value_comparison_op_cases in Hop.
  split.
  - intros Hint. unfold _validate_operation_compatibility.
    rewrite Hidb, Hint.
    destruct (mem name sf && negb _) eqn:Hsf;
      destruct Hop as [->|[->|[->|[->|[->| ->]]]]];
      cbn; eauto.
  - intros [z Hint] Hsf Hamf Hmeta. unfold _validate_operation_compatibility.
    rewrite Hidb, Hint. unfold mem at 1 2 3.
    rewrite (bool_decide_eq_false_2 _ Hsf), (bool_decide_eq_false_2 _ Hamf).
    assert (String.eqb name "metadata" = false) as ->
      by by apply String.eqb_neq.
    destruct Hop as [->|[->|[->|[->|[->| ->]]]]]; reflexivity.
Qed.

(** ** The term that selects the search fields *)

Lemma first_text_app (l1 l2 : list string) :
  default "" (head (filter (fun x => x ≠ "") (l1 ++ l2)))
  = (let first := default "" (head (filter (fun x => x ≠ "") l1)) in
     if negb (String.eqb first "") then first
     else default "" (head (filter (fun x => x ≠ "") l2))).
Proof.
  rewrite filter_app.
  destruct (filter (fun x => x ≠ "") l1) as [|x l] eqn:Hl1; [done|].
  assert (x ≠ "") as Hx.
  { assert (x ∈ filter (fun x => x ≠ "") l1) as Hin by (rewrite Hl1; by left).
    by apply list_elem_of_filter in Hin as [? _]. }
  cbn. by rewrite (proj2 (String.eqb_neq _ _) Hx).
Qed.

(** X19. [_extract_search_term_from_ast] returns the first free-text
    search of the query, read from left to right, whose stripped text is
    not empty, and the empty text when the query has none. *)
Theorem search_term_is_first_text node :
  _extract_search_term_from_ast node
  = default "" (head (filter (fun x => x ≠ "")
                        (PyStr.strip <$> global_texts node))).
Proof.
  induction node as [f op val|text q|l IHl r IHr|l IHl r IHr|a IH];
    cbn [_extract_search_term_from_ast global_texts].
  - done.
  - cbn [fmap list_fmap]. rewrite filter_cons.
    destruct (decide (PyStr.strip text ≠ "")) as [Hne|He]; [done|].
    apply dec_stable in He. by rewrite He.
  - rewrite fmap_app, first_text_app, <- IHl, <- IHr. done.
  - rewrite fmap_app, first_text_app, <- IHl, <- IHr. done.
  - exact IH.
Qed.

End Validation.

(** ** Column names, identifiers and ORDER BY *)

Lemma lower_quoted (s : string) : PyStr.lower (quoted s) = quoted (PyStr.lower s).
Proof. unfold quoted. change (PyStr.lower (String PyStr.dquote ?x))
  with (String PyStr.dquote (PyStr.lower x)). by rewrite lower_app. Qed.

Lemma quoted_not_reserved (s : string) : quoted s ∉ column_reserved_keywords.
Proof.
  unfold column_reserved_keywords. rewrite elem_of_list_to_set.
  revert s.
  assert (Forall (fun w => ∀ s, quoted s ≠ w) column_reserved_keyword_list)
    as Hall by (unfold column_reserved_keyword_list; repeat constructor; done).
  intros s Hin. by apply (proj1 (Forall_forall _ _) Hall _ Hin s).
Qed.

(** X20. [build_safe_column_name] returns the name as it is or between
    double quotes, and what it returns is never one of its reserved words,
    in any letter case. *)
Theorem safe_column_name_is_not_reserved (column : string) :
  (PyStr.lower (build_safe_column_name column) ∉ column_reserved_keywords)
  ∧ (build_safe_column_name column = column
     ∨ build_safe_column_name column = quoted column).
Proof.
  unfold build_safe_column_name.
  destruct (existsb _ special_characters).
  - split; [|by right]. rewrite lower_quoted. apply quoted_not_reserved.
  - unfold mem. case_bool_decide as Hres.
    + split; [|by right]. rewrite lower_quoted. apply quoted_not_reserved.
    + split; [done|by left].
Qed.

Lemma pad_directions_spec (fuel : nat) (directions : list string) (n : nat) :
  n - length directions < fuel →
  pad_directions fuel directions n
  = Some (directions ++ replicate (n - length directions) "ASC").
Proof.
  revert directions. induction fuel as [|fuel IH]; intros directions Hfuel;
    [lia|].
  cbn [pad_directions]. destruct (Nat.ltb_spec (length directions) n) as [Hlt|Hge].
  - rewrite IH by (rewrite length_app; cbn; lia).
    rewrite length_app. cbn [length].
    replace (n - length directions) with (S (n - (length directions + 1)))
      by lia.
    cbn [replicate]. by rewrite <- app_assoc.
  - replace (n - length directions) with 0 by lia.
    by rewrite app_nil_r.
Qed.

Lemma order_parts_spec (columns directions : list string) (i : nat) :
  i + length columns ≤ length directions →
  ∃ parts,
    order_parts columns directions i = Ok parts
    ∧ Forall2 (fun column part =>
                 part = build_safe_column_name column +:+ " ASC"
                 ∨ part = build_safe_column_name column +:+ " DESC")
        columns parts.
Proof.
  revert i. induction columns as [|column columns IH]; intros i Hlen.
  - exists []. by split.
  - cbn [order_parts]. cbn [length] in Hlen.
    destruct (directions !! i) as [d|] eqn:Hd.
    2:{ apply lookup_ge_None in Hd. lia. }
    destruct (IH (S i)) as (parts & -> & Hparts); [lia|].
    cbn [mbind result_bind rbind]. eexists. split; [done|].
    constructor; [|done].
    cbn [existsb]. rewrite orb_false_r.
    destruct (String.eqb_spec (PyStr.upper d) "ASC") as [->|_]; [by left|].
    destruct (String.eqb_spec (PyStr.upper d) "DESC") as [->|_];
      [by right|by left].
Qed.

(** X21. [build_order_by_clause] returns for every list of columns and
    every list of directions, however short or long: it returns the empty
    text for no column, and otherwise [ORDER BY] followed by one part per
    column, in order, each the safe column name followed by [ASC] or
    [DESC]. *)
Theorem order_by_clause_shape
    (sort_columns : list string) (sort_directions : option (list string)) :
  ∃ parts,
    build_order_by_clause sort_columns sort_directions
    = Some (Ok (match sort_columns with
                | [] => ""
                | _ => "ORDER BY " +:+ PyStr.join ", " parts
                end))
    ∧ Forall2 (fun column part =>
                 part = build_safe_column_name column +:+ " ASC"
                 ∨ part = build_safe_column_name column +:+ " DESC")
        sort_columns parts.
Proof.
  unfold build_order_by_clause.
  destruct sort_columns as [|column columns]; [exists []; by split|].
  set (cols := column :: columns).
  set (d := match sort_directions with Some l => l | None => _ end).
  rewrite pad_directions_spec by lia. cbn [mbind option_bind].
  destruct (order_parts_spec cols
              (d ++ replicate (length cols - length d) "ASC") 0)
    as (parts & -> & Hparts).
  { rewrite length_app, length_replicate. lia. }
  by exists parts.
Qed.

(** Doubling the quotes. *)
Lemma replace_go_nil (fuel : nat) (old new : string) :
  replace_go fuel old new "" = "".
Proof. by destruct fuel. Qed.

Lemma replace_go_quote (fuel : nat) (new : string) (c : ascii) (s : string) :
  replace_go (S fuel) (String PyStr.dquote "") new (String c s)
  = if Ascii.eqb PyStr.dquote c then new +:+ replace_go fuel (String PyStr.dquote "") new s
    else String c (replace_go fuel (String PyStr.dquote "") new s).
Proof. cbn [replace_go Lark.literal]. by destruct (Ascii.eqb _ c). Qed.

Lemma doubled_quotes_inj (a b : string) :
  replace (String PyStr.dquote "") (String PyStr.dquote (String PyStr.dquote ""))
    a
  = replace (String PyStr.dquote "")
      (String PyStr.dquote (String PyStr.dquote "")) b →
  a = b.
Proof.
  unfold replace. revert b. induction a as [|c a IH]; intros b.
  - destruct b as [|c' b]; [done|].
    cbn [String.length]. rewrite replace_go_quote, replace_go_nil.
    by destruct (Ascii.eqb _ c').
  - destruct b as [|c' b].
    + cbn [String.length]. rewrite replace_go_quote, replace_go_nil.
      by destruct (Ascii.eqb _ c).
    + cbn [String.length]. rewrite !replace_go_quote.
      destruct (Ascii.eqb_spec PyStr.dquote c) as [<-|Hc];
        destruct (Ascii.eqb_spec PyStr.dquote c') as [<-|Hc'].
      * rewrite !append_cons, !append_empty_l. intros [= H]. f_equal. by apply IH.
      * rewrite !append_cons, !append_empty_l. intros [= H _]. congruence.
      * rewrite !append_cons, !append_empty_l. intros [= H _]. congruence.
      * intros [= -> H]. f_equal. by apply IH.
Qed.

Lemma append_inj_tail (a b t : string) : a +:+ t = b +:+ t → a = b.
Proof.
  revert b. induction a as [|c a IH]; intros b H.
  - destruct b as [|c' b]; [done|]. exfalso.
    apply (f_equal String.length) in H.
    rewrite append_empty_l, append_cons in H. cbn [String.length] in H.
    rewrite length_append in H. lia.
  - destruct b as [|c' b].
    + exfalso. apply (f_equal String.length) in H.
      rewrite append_empty_l, append_cons in H. cbn [String.length] in H.
      rewrite length_append in H. lia.
    + rewrite !append_cons in H. injection H as -> H. f_equal. by apply IH.
Qed.

(** X22. [escape_sql_identifier] keeps identifiers apart: two
    identifiers with the same escaped form are the same identifier. *)
Theorem escaped_identifiers_are_distinct (identifier1 identifier2 : string) :
  escape_sql_identifier identifier1 = escape_sql_identifier identifier2 →
  identifier1 = identifier2.
Proof.
  unfold escape_sql_identifier, quoted. intros [= H].
  apply append_inj_tail in H. by apply doubled_quotes_inj.
Qed.

Lemma escaped_identifiers_are_distinct_witness :
  String PyStr.dquote "a" +:+ "b" = String PyStr.dquote "ab".
Proof.
  apply (escaped_identifiers_are_distinct (String PyStr.dquote "a" +:+ "b")
           (String PyStr.dquote "ab")).
  reflexivity.
Defined.

(** ** Witnesses on the sample set-up *)

Lemma join_aliases_are_distinct_witness :
  ∃ qp' a,
    _build_dynamic_joins sample_query_parser = Some (Ok tt, qp')
    ∧ qp_entity_aliases qp' !! "category" = Some a ∧ a ≠ "d".
Proof.
  destruct (join_aliases_are_distinct sample_query_parser sample_navigation)
    as (qp' & Hjoins & Hall & _); [reflexivity|compute_done|].
  destruct (Hall "category") as (a & Ha & Hd); [compute_done|].
  exists qp', a. split; [exact Hjoins|]. split; [exact Ha|exact Hd].
Defined.

Lemma joins_give_every_table_an_alias_witness :
  ∃ qp' select_fields,
    _build_dynamic_joins sample_query_parser = Some (Ok tt, qp')
    ∧ _build_dynamic_select_fields qp' = Ok select_fields.
Proof.
  destruct (joins_give_every_table_an_alias sample_query_parser
              sample_navigation)
    as (qp' & Hjoins & [select_fields Hselect] & _); [reflexivity|].
  exists qp', select_fields. split; [exact Hjoins|exact Hselect].
Defined.

Lemma schema_mapping_uses_join_aliases_witness :
  ∃ mapping qp' a,
    _build_navigation_aliases (navigation_tables sample_navigation)
    = Some (Ok mapping)
    ∧ _build_dynamic_joins sample_query_parser = Some (Ok tt, qp')
    ∧ qp_entity_aliases qp' !! "category" = Some a
    ∧ mapping !! "category" = Some (a +:+ ".name").
Proof.
  destruct (schema_mapping_uses_join_aliases sample_query_parser
              sample_navigation)
    as (mapping & qp' & joins & Hmapping & Hjoins & _ & Hall);
    [reflexivity|compute_done|].
  destruct (Hall "category"
              {| table_name := "categories"; primary_key := "category_id";
                 name_column := "name" |})
    as (a & Ha & Hm & _); [cbn; left|].
  exists mapping, qp', a.
  split; [exact Hmapping|]. split; [exact Hjoins|]. split; [exact Ha|exact Hm].
Defined.

Lemma classification_reflects_schema_witness :
  ∃ qp',
    _fetch_field_type_classifications sample_query_parser
      sample_schema_tables (navigation_tables sample_navigation)
    = (Ok tt, qp')
    ∧ "status" ∈ qp_string_fields qp'
    ∧ "category_name" ∈ qp_string_fields qp'
    ∧ "category_id" ∈ qp_id_fields qp'
    ∧ "category" ∈ qp_entity_fields qp'.
Proof.
  destruct (classification_reflects_schema sample_query_parser
              sample_schema_tables (navigation_tables sample_navigation)
              sample_columns)
    as (qp' & Hfetch & Hs & Hi & He); [reflexivity|].
  exists qp'. split; [exact Hfetch|]. split; [|split; [|split]].
  - apply Hs. left. eexists. split; [right; left|]. split; reflexivity.
  - apply Hs. right. exists "category". split; [compute_done|by right].
  - apply Hi. eexists. split; [do 3 right; left|].
    split; [reflexivity|by left].
  - apply He. compute_done.
Defined.


Lemma query_endpoint_reports_validation_errors_witness :
  ∃ h,
    (execute_gclql_query sample_query_parser "nonexistent_field=1" "name"
       "DESC").1 = Responds h
    ∧ status_code h = 400%Z
    ∧ details_error (body_details (detail h)) = "invalid_field"
    ∧ ∃ e, (download_filtered_entities sample_query_parser
              "nonexistent_field=1" "name" "DESC").1 = Escapes e.
Proof.
  edestruct (query_endpoint_reports_validation_errors sample_query_parser
               "nonexistent_field=1" "name" "DESC")
    as [(h & Hresp & Hcode & _ & Herr & _) Hesc];
    [reflexivity|vm_compute; reflexivity|].
  exists h. split; [exact Hresp|]. split; [exact Hcode|].
  split; [exact Herr|]. eexists. exact Hesc.
Defined.

Lemma parse_query_validates_sorting_witness :
  ∃ count search params before expression key direction indent,
    (parse_query sample_query_parser "status=active" "name" "desc").1
    = Ok (count, search, params)
    ∧ search = before +:+ "ORDER BY " +:+ expression +:+ " " +:+ direction
               +:+ ", d." +:+ key +:+ " " +:+ direction
               +:+ newline +:+ spaces indent.
Proof.
  edestruct (parse_query_validates_sorting sample_query_parser
               "status=active" "name" "desc")
    as (_ & _ & before & expression & key & direction & indent & _ & Hsearch);
    [vm_compute; reflexivity|].
  eexists _, _, _, before, expression, key, direction, indent.
  split; [vm_compute; reflexivity|exact Hsearch].
Defined.

Lemma sort_order_letter_case_is_ignored_witness :
  parse_query sample_query_parser "status=active" "name" "DESC"
  = parse_query sample_query_parser "status=active" "name" "desc".
Proof.
  apply (sort_order_letter_case_is_ignored sample_query_parser
           "status=active" "name" "DESC" "desc").
  reflexivity.
Defined.

Lemma recovery_placeholders_match_parameters_witness :
  ∃ count_query search_query params,
    (parse_query sample_query_parser "status=active AND 'beam" "name"
       "asc").1
    = Ok (count_query, search_query, params)
    ∧ length params = 2
    ∧ collapse (placeholders search_query) = ["1"; "2"].
Proof.
  eexists _, _, _. split; [vm_compute; reflexivity|]. split; [reflexivity|].
  etransitivity.
  - eapply (proj1 (recovery_placeholders_match_parameters sample_query_parser
                     "status=active AND 'beam" "name" "asc" _ _ _
                     eq_refl ltac:(vm_compute; discriminate)
                     ltac:(vm_compute; reflexivity) eq_refl eq_refl
                     ltac:(vm_compute; reflexivity))).
  - vm_compute. reflexivity.
Defined.

Lemma paginated_query_placeholders_witness :
  ∃ count_query search_query params,
    (parse_query sample_query_parser "status=active AND size>100" "name"
       "asc").1
    = Ok (count_query, search_query, params)
    ∧ collapse (placeholders (paginated_query search_query params))
      = ["1"; "2"; "3"; "4"]
    ∧ length (paginated_arguments params 25 0) = 4.
Proof.
  eexists _, _, _. split; [vm_compute; reflexivity|]. split; [|reflexivity].
  etransitivity.
  - eapply (paginated_query_placeholders sample_query_parser
              "status=active AND size>100" "name" "asc" _ _ _ 25 0
              eq_refl eq_refl eq_refl ltac:(vm_compute; reflexivity)).
  - vm_compute. reflexivity.
Defined.

Lemma sql_text_independent_of_texts_witness :
  ∃ sql,
    (translate (Comparison {| parts := ["status"] |} "="
                  (Some (VStr "active"))) sample_translator).1 = Ok sql
    ∧ (translate (Comparison {| parts := ["status"] |} "="
                    (Some (VStr "closed"))) sample_translator).1 = Ok sql.
Proof.
  exists "d.status ILIKE $1". split; [vm_compute; reflexivity|].
  destruct (sql_text_independent_of_texts
              (Comparison {| parts := ["status"] |} "="
                 (Some (VStr "active")))
              (Comparison {| parts := ["status"] |} "="
                 (Some (VStr "closed")))
              sample_translator "d.status ILIKE $1" "d.status ILIKE $1")
    as [_ _].
  - split; [reflexivity|]. split; [reflexivity|].
    right. exists "active", "closed". by repeat split.
  - vm_compute; reflexivity.
  - vm_compute; reflexivity.
  - vm_compute; reflexivity.
Defined.

Lemma search_conditions_match_parameters_witness :
  ∃ conditions params,
    _build_search_conditions sample_search_navigation
      [("category_name", "physics")] "beam" {["category" := "cat"]}
    = Ok (conditions, params)
    ∧ length conditions = 2 ∧ length params = 2
    ∧ collapse (placeholders (PyStr.join " AND " conditions)) = ["1"; "2"].
Proof.
  eexists _, _. split; [vm_compute; reflexivity|].
  edestruct (search_conditions_match_parameters sample_search_navigation
               [("category_name", "physics")] "beam" {["category" := "cat"]})
    as [Hlen Hnum]; [| | |vm_compute; reflexivity|].
  - repeat constructor.
  - repeat constructor.
  - intros k a [_ <-]%lookup_singleton_Some. reflexivity.
  - split; [reflexivity|]. split; [reflexivity|]. exact Hnum.
Defined.

Lemma id_field_requires_integer_text_witness :
  (∃ message user_message,
     _validate_operation_compatibility (rt:=sample_runtime) "category_id"
       (Some "=") (Some (VStr "abc")) ∅ ∅ {["category_id"]}
     = Raise (SearchValidationError message "invalid_operation"
                (Some "category_id") (Some "=") (Some user_message)))
  ∧ _validate_operation_compatibility (rt:=sample_runtime) "category_id"
      (Some "=") (Some (VStr "12")) ∅ ∅ {["category_id"]}
    = Ok tt.
Proof.
  split.
  - apply (id_field_requires_integer_text (rt:=sample_runtime) "category_id"
             "=" "abc" ∅ ∅ {["category_id"]});
      [right; reflexivity|compute_done|reflexivity].
  - apply (id_field_requires_integer_text (rt:=sample_runtime) "category_id"
             "=" "12" ∅ ∅ {["category_id"]});
      [right; reflexivity|compute_done|by eexists|compute_done|compute_done
      |discriminate].
Defined.

(** ** The second attempt of [perform_search] *)

Lemma literal_prefix (old s rest : string) :
  Lark.literal old s = Some rest → String.prefix old s = true.
Proof.
  revert s. induction old as [|a old IH]; intros s.
  - by destruct s.
  - destruct s as [|b s]; [done|]. cbn [Lark.literal String.prefix].
    destruct (Ascii.eqb_spec a b) as [->|Hne].
    + destruct (ascii_dec b b) as [_|Hb]; [apply IH|done].
    + done.
Qed.

Lemma replace_go_absent (fuel : nat) (old new s : string) :
  PyStr.contains old s = false → replace_go fuel old new s = s.
Proof.
  revert s. induction fuel as [|fuel IH]; intros s Habsent; [done|].
  destruct s as [|c s]; [done|].
  cbn [replace_go]. cbn [PyStr.contains] in Habsent.
  apply orb_false_iff in Habsent as [Hprefix Hrest].
  destruct (Lark.literal old (String c s)) as [rest|] eqn:Hlit.
  - apply literal_prefix in Hlit. congruence.
  - f_equal. by apply IH.
Qed.

(** X23. The metadata fallback of [perform_search] cannot change the
    statements: the second attempt is made only when [d.column], for the
    column the database reported missing, occurs in neither statement,
    and then replacing [d.column] leaves the count and the search
    statement as they were. *)
Theorem metadata_fallback_repeats_the_statements
    (missing_column count_query search_query : string)
    (fallback_count_query fallback_search_query : string) :
  fallback_statements missing_column count_query search_query
  = Ok (fallback_count_query, fallback_search_query) →
  fallback_count_query = count_query
  ∧ fallback_search_query = search_query.
Proof.
  unfold fallback_statements.
  destruct (PyStr.contains _ search_query) eqn:Hsearch; [done|].
  destruct (PyStr.contains _ count_query) eqn:Hcount; [done|].
  cbn [orb]. intros [= <- <-]. unfold replace.
  split; by apply replace_go_absent.
Qed.

Lemma metadata_fallback_repeats_the_statements_witness :
  fallback_statements "tag" "SELECT COUNT(*) FROM entities d WHERE cat.tag = $1"
    "SELECT d.* FROM entities d WHERE cat.tag = $1"
  = Ok ("SELECT COUNT(*) FROM entities d WHERE cat.tag = $1",
        "SELECT d.* FROM entities d WHERE cat.tag = $1").
Proof.
  destruct (fallback_statements "tag"
              "SELECT COUNT(*) FROM entities d WHERE cat.tag = $1"
              "SELECT d.* FROM entities d WHERE cat.tag = $1")
    as [[c s]|e] eqn:H; [|vm_compute in H; discriminate].
  destruct (metadata_fallback_repeats_the_statements _ _ _ _ _ H) as [-> ->].
  reflexivity.
Defined.
